(** * dino: the multi-backend chat client, embedded and verified

    A shallow embedding of the provider layer of the [dino] command line
    tool (package [internal/providers]: the Gemini REST+SSE client, the
    OpenAI SDK client with its error report, the Ollama SDK client and the
    functional options), of the helpers of package [internal/utils]
    (bounding boxes, drawing, image files) and of the colour parsing and
    box export of package [cmd].

    Go strings are byte sequences and are modelled as [list byte].  Go's
    [error] results are modelled as [option error] ([None] is [nil]).  The
    delta callback is a closure that may carry state: it is a function on a
    state type [St], and every client runs in a small state-and-trace monad
    that threads the callback's state and records the observable events
    (transport calls, body reads, dispatched payloads, callback calls). *)

From Stdlib Require Import Strings.String Strings.Byte Numbers.DecimalString.
From Stdlib Require Import List ZArith Lia Bool Arith Permutation Sorted.
From Stdlib Require Import QArith Qround.
Close Scope Q_scope.
Import ListNotations.

Set Implicit Arguments.
Set Warnings "-notation-for-abbreviation".

(* ===================================================================== *)
(** ** Byte strings and the Go [strings] / [net/url] functions in use    *)
(* ===================================================================== *)

Module GoStrings.

Definition bytes := list byte.

(** A literal of the Go source. *)
Definition bs (s : String.string) : bytes := String.list_byte_of_string s.
Arguments bs s%_string.

Fixpoint bytes_eqb (a b : bytes) : bool :=
  match a, b with
  | [], [] => true
  | x :: a', y :: b' => Byte.eqb x y && bytes_eqb a' b'
  | _, _ => false
  end.

Definition isEmpty (s : bytes) : bool :=
  match s with [] => true | _ :: _ => false end.

(** [strings.HasPrefix]. *)
Fixpoint HasPrefix (s prefix : bytes) : bool :=
  match prefix, s with
  | [], _ => true
  | p :: ps, c :: cs => Byte.eqb c p && HasPrefix cs ps
  | _ :: _, [] => false
  end.

(** [strings.TrimPrefix]. *)
Definition TrimPrefix (s prefix : bytes) : bytes :=
  if HasPrefix s prefix then skipn (length prefix) s else s.

(** [strings.HasSuffix]. *)
Definition HasSuffix (s suffix : bytes) : bool :=
  HasPrefix (rev s) (rev suffix).

(** [strings.Contains]. *)
Fixpoint Contains (s sub : bytes) : bool :=
  HasPrefix s sub ||
  match s with
  | [] => false
  | _ :: r => Contains r sub
  end.

Definition inCutset (cutset : bytes) (c : byte) : bool :=
  existsb (Byte.eqb c) cutset.

Fixpoint dropWhile (p : byte -> bool) (s : bytes) : bytes :=
  match s with
  | [] => []
  | c :: r => if p c then dropWhile p r else s
  end.

(** [strings.TrimRight] for an ASCII cutset (the only use in the program:
    the cutsets are ["\r\n"] and ["/"]), which Go trims byte by byte. *)
Definition TrimRight (s cutset : bytes) : bytes :=
  rev (dropWhile (inCutset cutset) (rev s)).

(** The ASCII white space of [strings.TrimSpace]: tab, line feed, vertical
    tab, form feed, carriage return and space. *)
Definition asciiSpace (c : byte) : bool :=
  match c with
  | x09 | x0a | x0b | x0c | x0d | x20 => true
  | _ => false
  end.

Definition byteIn (lo hi c : byte) : bool :=
  (Byte.to_N lo <=? Byte.to_N c)%N && (Byte.to_N c <=? Byte.to_N hi)%N.

(** Third byte of a three-byte white-space rune that starts [E2 80]:
    U+2000..U+200A, U+2028, U+2029 and U+202F. *)
Definition spaceE280 (d : byte) : bool :=
  byteIn x80 x8a d || Byte.eqb d xa8 || Byte.eqb d xa9 || Byte.eqb d xaf.

(** Leading white space, rune by rune as [strings.TrimLeftFunc] with
    [unicode.IsSpace] decodes it: the ASCII spaces, U+0085 and U+00A0
    ([C2 85], [C2 A0]), U+1680 ([E1 9A 80]), the [E2 80 xx] runes above,
    U+205F ([E2 81 9F]) and U+3000 ([E3 80 80]).  A byte sequence that is
    not one of these encodings decodes to a rune that is not a space. *)
Fixpoint trimLeftSpace (s : bytes) : bytes :=
  match s with
  | [] => []
  | c :: r =>
      if asciiSpace c then trimLeftSpace r
      else if Byte.eqb c xc2 then
        match r with
        | d :: r1 =>
            if Byte.eqb d x85 || Byte.eqb d xa0 then trimLeftSpace r1 else s
        | [] => s
        end
      else if Byte.eqb c xe1 then
        match r with
        | d :: (e :: r2) =>
            if Byte.eqb d x9a && Byte.eqb e x80 then trimLeftSpace r2 else s
        | _ => s
        end
      else if Byte.eqb c xe2 then
        match r with
        | d :: (e :: r2) =>
            if (Byte.eqb d x80 && spaceE280 e) || (Byte.eqb d x81 && Byte.eqb e x9f)
            then trimLeftSpace r2 else s
        | _ => s
        end
      else if Byte.eqb c xe3 then
        match r with
        | d :: (e :: r2) =>
            if Byte.eqb d x80 && Byte.eqb e x80 then trimLeftSpace r2 else s
        | _ => s
        end
      else s
  end.

(** Trailing white space, on the reversed string: the same encodings read
    from their last byte, as [strings.TrimRightFunc] finds them with
    [utf8.DecodeLastRuneInString]. *)
Fixpoint trimRightSpaceRev (s : bytes) : bytes :=
  match s with
  | [] => []
  | c :: r =>
      if asciiSpace c then trimRightSpaceRev r
      else
        match r with
        | d :: r1 =>
            if Byte.eqb d xc2 && (Byte.eqb c x85 || Byte.eqb c xa0)
            then trimRightSpaceRev r1
            else
              match r1 with
              | e :: r2 =>
                  if (Byte.eqb e xe1 && Byte.eqb d x9a && Byte.eqb c x80)
                     || (Byte.eqb e xe2 && Byte.eqb d x80 && spaceE280 c)
                     || (Byte.eqb e xe2 && Byte.eqb d x81 && Byte.eqb c x9f)
                     || (Byte.eqb e xe3 && Byte.eqb d x80 && Byte.eqb c x80)
                  then trimRightSpaceRev r2 else s
              | [] => s
              end
        | [] => s
        end
  end.

(** [strings.TrimSpace]. *)
Definition TrimSpace (s : bytes) : bytes :=
  rev (trimRightSpaceRev (rev (trimLeftSpace s))).

(** Decimal text of an integer, as the [%d] verb of [fmt] prints it. *)
Definition itoa (z : Z) : bytes := bs (DecimalString.NilZero.string_of_int (Z.to_int z)).

(** *** [net/url]: [PathEscape] and [QueryEscape] *)

Inductive encoding := encodePathSegment | encodeQueryComponent.

Definition isAlnum (c : byte) : bool :=
  byteIn "a" "z" c || byteIn "A" "Z" c || byteIn "0" "9" c.

Definition isUnreservedMark (c : byte) : bool :=
  inCutset (bs "-_.~") c.

Definition isReserved (c : byte) : bool :=
  inCutset (bs "$&+,/:;=?@") c.

(** [shouldEscape] of [net/url] for the two modes the program uses. *)
Definition shouldEscape (c : byte) (mode : encoding) : bool :=
  if isAlnum c then false
  else if isUnreservedMark c then false
  else if isReserved c then
    match mode with
    | encodePathSegment => inCutset (bs "/;,?") c
    | encodeQueryComponent => true
    end
  else true.

Definition upperhex (n : N) : byte :=
  nth (N.to_nat n) (bs "0123456789ABCDEF") "0"%byte.

Definition escapeByte (c : byte) (mode : encoding) : bytes :=
  if shouldEscape c mode then
    match mode with
    | encodeQueryComponent =>
        if Byte.eqb c " " then ["+"%byte]
        else ["%"%byte; upperhex (Byte.to_N c / 16); upperhex (Byte.to_N c mod 16)]
    | encodePathSegment =>
        ["%"%byte; upperhex (Byte.to_N c / 16); upperhex (Byte.to_N c mod 16)]
    end
  else [c].

Definition escape (s : bytes) (mode : encoding) : bytes :=
  flat_map (fun c => escapeByte c mode) s.

Definition PathEscape (s : bytes) : bytes := escape s encodePathSegment.
Definition QueryEscape (s : bytes) : bytes := escape s encodeQueryComponent.

End GoStrings.
Import GoStrings.

(* ===================================================================== *)
(** ** Values, errors and wire types                                     *)
(* ===================================================================== *)

(** A [float64] by its IEEE-754 bit pattern; the program only compares
    sampling values with zero and forwards them. *)
Record float64 := { f64bits : Z }.
Record float32 := { f32bits : Z }.

(** [v != 0] on a [float64]: false exactly on the two zeros. *)
Definition f64_nonzero (v : float64) : bool :=
  negb (Z.land (f64bits v) (2 ^ 63 - 1) =? 0)%Z.

(** The dynamic values ([any]) the program inspects in [toInt], and the
    JSON values it passes through. *)
Inductive any :=
| anyNil
| anyBool (v : bool)
| anyInt (v : Z)
| anyInt32 (v : Z)
| anyInt64 (v : Z)
| anyFloat32 (v : float32)
| anyFloat64 (v : float64)
| anyJSONNumber (v : bytes)
| anyString (v : bytes)
| anyJSON (text : bytes).

(** [geminiErrorPayload]. *)
Record geminiErrorPayload := {
  Code : Z;
  Status : bytes;
  Message : bytes
}.

(** Error values.  [wrapError msg err] is [fmt.Errorf] with a [%w] verb:
    [msg] is the text printed before the wrapped error. *)
Inductive error :=
| errorString (msg : bytes)
| wrapError (msg : bytes) (err : error)
| upstreamError (p : geminiErrorPayload)
| io_EOF
| io_ErrNoProgress
| foreignError (tag : bytes).

(** [errors.Is(err, io.EOF)]. *)
Fixpoint errorsIsEOF (err : error) : bool :=
  match err with
  | io_EOF => true
  | wrapError _ e => errorsIsEOF e
  | _ => false
  end.

(** [geminiErrorPayload.Error]. *)
Definition geminiErrorPayload_Error (e : option geminiErrorPayload) : bytes :=
  match e with
  | None => []
  | Some e =>
      if negb (isEmpty (Status e)) then
        bs "providers/gemini: " ++ Status e ++ bs " (" ++ itoa (Code e) ++ bs "): " ++ Message e
      else if negb (Code e =? 0)%Z then
        bs "providers/gemini: code " ++ itoa (Code e) ++ bs ": " ++ Message e
      else bs "providers/gemini: " ++ Message e
  end.

Record geminiInlineData := {
  MimeType : bytes;
  Data : bytes
}.

Record geminiPart := {
  Text : bytes;
  InlineData : option geminiInlineData
}.

Record geminiContent := {
  Role : bytes;
  Parts : list geminiPart
}.

Record geminiCandidate := {
  Content : geminiContent
}.

Record geminiGenerateResponse := {
  Candidates : list geminiCandidate;
  resp_Error : option geminiErrorPayload
}.

Record geminiError := {
  env_Error : option geminiErrorPayload
}.

Record geminiGenerationConfig := {
  cfg_Temperature : option float64;
  cfg_TopP : option float64;
  cfg_TopK : option Z;
  ResponseMimeType : bytes;
  ResponseSchema : any
}.

Record geminiGenerateRequest := {
  Contents : list geminiContent;
  SystemInstruction : option geminiContent;
  GenerationConfig : option geminiGenerationConfig
}.

(** An HTTP request as [newRequest] builds it. *)
Record Request := {
  Method : bytes;
  URL : bytes;
  Header : list (bytes * bytes);
  req_Body : bytes
}.

(** A response body as an [io.Reader]: the byte slices its successive
    [Read] calls return, and the error that ends it ([io.EOF] on a clean
    end of input). *)
Record Body := {
  chunks : list bytes;
  final : error
}.

Record Response := {
  StatusCode : Z;
  resp_Body : Body
}.

(** [http.Header.Set] and [Get] on canonical keys. *)
Definition headerSet (h : list (bytes * bytes)) (k v : bytes) : list (bytes * bytes) :=
  filter (fun kv => negb (bytes_eqb (fst kv) k)) h ++ [(k, v)].

Fixpoint headerGet (h : list (bytes * bytes)) (k : bytes) : option bytes :=
  match h with
  | [] => None
  | (k', v) :: r => if bytes_eqb k' k then Some v else headerGet r k
  end.

(** *** The Ollama SDK's request and response ([api.ChatRequest]) *)

Record apiMessage := {
  msg_Role : bytes;
  msg_Content : bytes;
  msg_Thinking : bytes;
  msg_Images : list bytes
}.

Record apiChatRequest := {
  api_Model : bytes;
  api_Messages : list apiMessage;
  api_Think : bool;
  api_Options : list (bytes * any);
  api_Format : bytes;
  api_Stream : option bool
}.

Record apiChatResponse := {
  api_Message : apiMessage
}.

(** *** The OpenAI SDK's parameters and results *)

Inductive contentPart :=
| TextContentPart (text : bytes)
| ImageContentPart (url : bytes).

Inductive chatMessage :=
| OfSystem (content : bytes)
| OfUser (parts : list contentPart).

Inductive responseFormatUnion :=
| formatUnset
| OfJSONObject
| OfJSONSchema (name : bytes) (strict : bool) (schema : any).

Record ChatCompletionNewParams := {
  p_Messages : list chatMessage;
  p_Model : bytes;
  p_Temperature : float64;
  p_TopP : float64;
  ResponseFormat : responseFormatUnion
}.

(** A completion (or a streamed chunk) by the content of its choices
    ([Choices[i].Message.Content], [Choices[i].Delta.Content]). *)
Record ChatCompletion := {
  Choices : list bytes
}.

(** *** Observable events *)

Inductive event :=
| EvHTTP (req : Request)               (* [g.client.Do(req)] *)
| EvRead                               (* one [Read] on a response body *)
| EvClose                              (* [resp.Body.Close], [stream.Close] *)
| EvDispatch (payload : bytes)         (* [dispatchSSEData] entered *)
| EvDelta (content thinking : bytes) (res : option error)
                                       (* the callback, with what it returned *)
| EvOllamaChat (req : apiChatRequest)  (* [o.client.Chat] of the Ollama SDK *)
| EvOpenAINew (p : ChatCompletionNewParams)
                                       (* [Chat.Completions.New] *)
| EvOpenAIStreaming (p : ChatCompletionNewParams)
                                       (* [Chat.Completions.NewStreaming] *)
| EvNext.                              (* [stream.Next] *)

(** A call that reaches a transport: network I/O. *)
Definition isNetwork (e : event) : bool :=
  match e with
  | EvHTTP _ | EvRead | EvOllamaChat _ | EvOpenAINew _ | EvOpenAIStreaming _ | EvNext => true
  | _ => false
  end.

Definition isRead (e : event) : bool :=
  match e with EvRead => true | _ => false end.

Definition isClose (e : event) : bool :=
  match e with EvClose => true | _ => false end.

(** The callback returned an error at this event. *)
Definition isFailedDelta (e : event) : bool :=
  match e with EvDelta _ _ (Some _) => true | _ => false end.

(** The trace without the physical reads of the body. *)
Definition noReads (t : list event) : list event :=
  filter (fun e => negb (isRead e)) t.

Definition dispatched (t : list event) : list bytes :=
  flat_map (fun e => match e with EvDispatch p => [p] | _ => [] end) t.

Definition deltas (t : list event) : list (bytes * bytes) :=
  flat_map (fun e => match e with EvDelta c th _ => [(c, th)] | _ => [] end) t.

(** No callback call of the trace returned an error. *)
Definition noFailure (t : list event) : bool :=
  forallb (fun e => negb (isFailedDelta e)) t.

(** A run with result [r] and trace [t] short-circuits on a callback
    error: wherever the callback returned an error [e], nothing follows
    in the trace but the release of the response, no read, no dispatch,
    no further callback call, and the run returns that very [e]. *)
Definition shortCircuits (r : option error) (t : list event) : Prop :=
  forall pre content thinking e post,
    t = pre ++ EvDelta content thinking (Some e) :: post ->
    r = Some e /\ forallb isClose post = true.

(** The same, as an invariant that composes along a run: either no call
    failed so far, or the trace ends with the first failed call (and
    releases), and its error is the result. *)
Definition aborted (r : option error) (t : list event) : Prop :=
  noFailure t = true
  \/ exists pre content thinking e post,
       t = pre ++ EvDelta content thinking (Some e) :: post
       /\ noFailure pre = true /\ forallb isClose post = true /\ r = Some e.

(** *** Libraries and transports the program calls

    [encoding/json], [net/http], [strconv] and the two SDKs are outside
    the repository: the clients are parametrised by them. *)
Record Platform := {
  jsonUnmarshalResponse : bytes -> error + geminiGenerateResponse;
  jsonUnmarshalError : bytes -> error + geminiError;
  jsonUnmarshalAny : bytes -> error + any;
  jsonEncode : geminiGenerateRequest -> error + bytes;
  jsonDecodeBody : Body -> error + geminiGenerateResponse;
  DetectContentType : bytes -> bytes;
  base64Encode : bytes -> bytes;
  ToLower : bytes -> bytes;
  Quote : bytes -> bytes;
  Atoi : bytes -> option Z;
  float32ToInt : float32 -> Z;
  float64ToInt : float64 -> Z;
  int32ToInt : Z -> Z;
  int64ToInt : Z -> Z;
  urlParseError : bytes -> option error;
  httpDo : Request -> error + Response;
  ollamaServe : apiChatRequest -> list apiChatResponse * option error;
  openaiNew : ChatCompletionNewParams -> error + ChatCompletion;
  openaiStreaming : ChatCompletionNewParams -> list ChatCompletion * option error
}.

(* ===================================================================== *)
(** ** The state-and-trace monad                                         *)
(* ===================================================================== *)

Section Monad.

Variable St : Type.

Definition M (A : Type) : Type := St -> A * St * list event.

Definition ret {A : Type} (a : A) : M A := fun s => (a, s, []).

Definition bind {A B : Type} (m : M A) (k : A -> M B) : M B :=
  fun s =>
    let '(a, s1, t1) := m s in
    let '(b, s2, t2) := k a s1 in
    (b, s2, t1 ++ t2).

Definition emit (e : event) : M unit := fun s => (tt, s, [e]).

(** The delta callback [func(content, thinking string) error] as a
    function on its closure's state. *)
Definition callback : Type := bytes -> bytes -> St -> option error * St.

(** Calling the callback, recorded in the trace. *)
Definition call (onDelta : callback) (content thinking : bytes) : M (option error) :=
  fun s =>
    let '(r, s') := onDelta content thinking s in
    (r, s', [EvDelta content thinking r]).

(** What a run shows of itself when the physical reads are left out:
    result, final callback state, and every other event in order. *)
Definition observe {A : Type} (m : M A) (s : St) : A * St * list event :=
  let '(a, s', t) := m s in (a, s', noReads t).

End Monad.

Arguments ret {St A} a.
Arguments bind {St A B} m k.
Arguments emit {St} e.

Notation "x <- m ;; k" := (bind m (fun x => k))
  (at level 61, m at next level, right associativity).
Notation "' pat <- m ;; k" := (bind m (fun x => match x with pat => k end))
  (at level 61, pat pattern, m at next level, right associativity).

(* ===================================================================== *)
(** ** Package [providers]                                               *)
(* ===================================================================== *)

Section Providers.

Variable St : Type.
Variable P : Platform.

(** The diagnostic report [formatOpenAIAPIError] builds around a failure
    of the OpenAI SDK (status line, sorted headers, body): the clients are
    parametrised by it, nothing below depends on what it prints. *)
Variable formatOpenAIAPIError : bytes -> error -> error.

Local Notation M := (M St).
Local Notation callback := (callback St).

(** *** [option.go] *)

Definition MaxMessageRoleCount : nat := 2.

Record ChatOptions := {
  Model : bytes;
  Prompt : bytes;
  SystemPrompt : bytes;
  Stream : bool;
  Think : bool;
  Temperature : float64;
  TopP : float64;
  Format : bytes;
  NoResponseFormat : bool;
  Images : list bytes;
  Options : list (bytes * any);
  OnDelta : option callback
}.

Record ProviderConfig := {
  APIKey : bytes;
  BaseURL : bytes;
  AuthType : bytes
}.

(** A Go map read with [m[k]]. *)
Fixpoint mapGet (m : list (bytes * any)) (k : bytes) : option any :=
  match m with
  | [] => None
  | (k', v) :: r => if bytes_eqb k' k then Some v else mapGet r k
  end.

(** [onDeltaOrNoop]. *)
Definition onDeltaOrNoop (fn : option callback) : callback :=
  match fn with
  | None => fun _ _ s => (None, s)
  | Some f => f
  end.

(** *** [gemini.go] *)

Definition defaultGeminiBaseURL : bytes :=
  bs "https://generativelanguage.googleapis.com/v1beta".
Definition geminiStreamingPath : bytes := bs ":streamGenerateContent".
Definition geminiNonStreamPath : bytes := bs ":generateContent".
Definition httpStatusClientErr : Z := 400.
Definition browserUserAgent : bytes :=
  bs "Mozilla/5.0 (Macintosh; Intel Mac OS X 10_15_7) AppleWebKit/537.36 (KHTML, like Gecko) Chrome/131.0.0.0 Safari/537.36".

(** [http.Client], by its timeout in seconds. *)
Record httpClient := { Timeout : Z }.

Record Gemini := {
  client : option httpClient;
  baseURL : bytes;
  apiKey : bytes;
  authType : bytes
}.

Definition normalizeGeminiBaseURL (base : bytes) : bytes :=
  let b := TrimSpace base in
  if isEmpty b then defaultGeminiBaseURL
  else
    let b := TrimRight b (bs "/") in
    if HasSuffix b (bs "/v1") || HasSuffix b (bs "/v1beta") || HasSuffix b (bs "/v1beta1")
    then b
    else b ++ bs "/v1beta".

Definition NewGemini (cfg : ProviderConfig) : error + Gemini :=
  let apiKey := TrimSpace (APIKey cfg) in
  if isEmpty apiKey then inl (errorString (bs "providers/gemini: missing api key"))
  else
    let authType := ToLower P (TrimSpace (AuthType cfg)) in
    let authType := if isEmpty authType then bs "api_key" else authType in
    if negb (bytes_eqb authType (bs "api_key")) && negb (bytes_eqb authType (bs "auth_token"))
    then inl (errorString (bs "providers/gemini: unsupported auth type " ++ Quote P (AuthType cfg)))
    else
      let base := normalizeGeminiBaseURL (BaseURL cfg) in
      inr {| client := Some {| Timeout := 120 |};
             baseURL := base;
             apiKey := apiKey;
             authType := authType |}.

Definition buildContents (opts : ChatOptions)
  : error + (list geminiContent * option geminiContent) :=
  let prompt := TrimSpace (Prompt opts) in
  let parts :=
    if negb (isEmpty prompt) then [{| Text := prompt; InlineData := None |}] else [] in
  let parts :=
    fold_left
      (fun parts img =>
         if isEmpty img then parts
         else
           let mime := DetectContentType P img in
           let mime := if negb (HasPrefix mime (bs "image/")) then bs "image/png" else mime in
           parts ++ [{| Text := [];
                        InlineData := Some {| MimeType := mime; Data := base64Encode P img |} |}])
      (Images opts) parts in
  match parts with
  | [] => inl (errorString (bs "providers/gemini: prompt or images are required"))
  | _ :: _ =>
      let contents := [{| Role := bs "user"; Parts := parts |}] in
      let system := TrimSpace (SystemPrompt opts) in
      let systemInstruction :=
        if negb (isEmpty system)
        then Some {| Role := []; Parts := [{| Text := system; InlineData := None |}] |}
        else None in
      inr (contents, systemInstruction)
  end.

Definition toInt (v : any) : option Z :=
  match v with
  | anyInt t => Some t
  | anyInt32 t => Some (int32ToInt P t)
  | anyInt64 t => Some (int64ToInt P t)
  | anyFloat32 t => Some (float32ToInt P t)
  | anyFloat64 t => Some (float64ToInt P t)
  | anyJSONNumber t => Atoi P t
  | anyString t => Atoi P (TrimSpace t)
  | _ => None
  end.

Definition extractTopK (opts : list (bytes * any)) : option Z :=
  match opts with
  | [] => None
  | _ :: _ =>
      let second :=
        match mapGet opts (bs "top_k") with
        | Some v => toInt v
        | None => None
        end in
      match mapGet opts (bs "topK") with
      | Some v =>
          match toInt v with
          | Some i => Some i
          | None => second
          end
      | None => second
      end
  end.

Definition cfg_isEmpty (cfg : geminiGenerationConfig) : bool :=
  match cfg_Temperature cfg, cfg_TopP cfg, cfg_TopK cfg, ResponseSchema cfg with
  | None, None, None, anyNil => isEmpty (ResponseMimeType cfg)
  | _, _, _, _ => false
  end.

Definition buildGenerationConfig (opts : ChatOptions) : option geminiGenerationConfig :=
  let temperature :=
    if f64_nonzero (Temperature opts) then Some (Temperature opts) else None in
  let topP := if f64_nonzero (TopP opts) then Some (TopP opts) else None in
  let topK := extractTopK (Options opts) in
  let cfg := {| cfg_Temperature := temperature; cfg_TopP := topP; cfg_TopK := topK;
                ResponseMimeType := []; ResponseSchema := anyNil |} in
  if NoResponseFormat opts then
    if cfg_isEmpty cfg then None else Some cfg
  else
    let cfg :=
      if negb (isEmpty (Format opts)) then
        {| cfg_Temperature := temperature; cfg_TopP := topP; cfg_TopK := topK;
           ResponseMimeType := bs "application/json";
           ResponseSchema :=
             match jsonUnmarshalAny P (Format opts) with
             | inr schema => schema
             | inl _ => anyNil
             end |}
      else
        {| cfg_Temperature := temperature; cfg_TopP := topP; cfg_TopK := topK;
           ResponseMimeType := bs "application/json";
           ResponseSchema := anyNil |} in
    if cfg_isEmpty cfg then None else Some cfg.

Definition buildRequestBody (opts : ChatOptions) : error + bytes :=
  match buildContents opts with
  | inl err => inl err
  | inr (contents, systemInstruction) =>
      let req := {| Contents := contents;
                    SystemInstruction := systemInstruction;
                    GenerationConfig := buildGenerationConfig opts |} in
      match jsonEncode P req with
      | inl err => inl (wrapError (bs "providers/gemini: encode request: ") err)
      | inr buf => inr buf
      end
  end.

Definition buildEndpoint (g : Gemini) (model : bytes) (stream : bool) : error + bytes :=
  let model := TrimSpace model in
  if isEmpty model then inl (errorString (bs "providers/gemini: model is required"))
  else
    let escapedModel := PathEscape model in
    let pathSuffix := if stream then geminiStreamingPath else geminiNonStreamPath in
    let query := if stream then bs "?alt=sse" else [] in
    let base := TrimRight (baseURL g) (bs "/") in
    inr (base ++ bs "/models/" ++ escapedModel ++ pathSuffix ++ query).

Definition attachAPIKey (g : Gemini) (endpoint : bytes) : bytes :=
  if bytes_eqb (authType g) (bs "auth_token") then endpoint
  else if Contains endpoint (bs "?") then endpoint ++ bs "&key=" ++ QueryEscape (apiKey g)
  else endpoint ++ bs "?key=" ++ QueryEscape (apiKey g).

Definition newRequest (g : Gemini) (endpoint body : bytes) : error + Request :=
  let url := attachAPIKey g endpoint in
  match urlParseError P url with
  | Some err => inl (wrapError (bs "providers/gemini: build request: ") err)
  | None =>
      let req := {| Method := bs "POST"; URL := url; Header := []; req_Body := body |} in
      let h := headerSet (Header req) (bs "Content-Type") (bs "application/json") in
      let h := headerSet h (bs "User-Agent") browserUserAgent in
      let h :=
        if bytes_eqb (authType g) (bs "auth_token")
        then headerSet h (bs "Authorization") (bs "Bearer " ++ apiKey g)
        else h in
      inr {| Method := Method req; URL := URL req; Header := h; req_Body := req_Body req |}
  end.

(** **** Reading the body: [bufio.Reader.ReadString] and [io.ReadAll] *)

Record bufioReader := {
  buf : bytes;      (* read from the body, not yet returned *)
  rd : Body         (* what the body has still to give *)
}.

Definition NewReader (body : Body) : bufioReader := {| buf := []; rd := body |}.

(** The line up to and including the first line feed, and what follows. *)
Fixpoint splitLine (s : bytes) : option (bytes * bytes) :=
  match s with
  | [] => None
  | c :: r =>
      if Byte.eqb c x0a then Some ([c], r)
      else
        match splitLine r with
        | Some (l, rest) => Some (c :: l, rest)
        | None => None
        end
  end.

Definition maxConsecutiveEmptyReads : nat := 100.

(** [ReadString] once its buffer holds no line feed: keep what was
    collected ([acc]) and read on.  Every [Read] takes the next chunk; the
    reader gives up with [io.ErrNoProgress] at the hundredth empty read
    in a row ([tries] counts the attempts left), and returns what it
    collected together with the body's error when the body ends. *)
Fixpoint readMore (acc : bytes) (tries : nat) (cs : list bytes) (fin : error)
  : M (bytes * option error * bufioReader) :=
  match cs with
  | [] =>
      _ <- emit EvRead ;;
      ret (acc, Some fin, {| buf := []; rd := {| chunks := []; final := fin |} |})
  | c :: rest =>
      _ <- emit EvRead ;;
      match c with
      | [] =>
          match tries with
          | S (S t) => readMore acc (S t) rest fin
          | _ => ret (acc, Some io_ErrNoProgress,
                      {| buf := []; rd := {| chunks := rest; final := fin |} |})
          end
      | _ :: _ =>
          match splitLine c with
          | Some (l, rem) =>
              ret (acc ++ l, None, {| buf := rem; rd := {| chunks := rest; final := fin |} |})
          | None => readMore (acc ++ c) maxConsecutiveEmptyReads rest fin
          end
      end
  end.

(** [reader.ReadString('\n')]. *)
Definition ReadString (r : bufioReader) : M (bytes * option error * bufioReader) :=
  match splitLine (buf r) with
  | Some (l, rem) => ret (l, None, {| buf := rem; rd := rd r |})
  | None => readMore (buf r) maxConsecutiveEmptyReads (chunks (rd r)) (final (rd r))
  end.

(** [io.ReadAll], its error dropped as [checkGeminiResponse] drops it:
    one [Read] per chunk and the one that ends the body. *)
Definition ReadAll (body : Body) : M bytes :=
  fun s => (concat (chunks body), s, repeat EvRead (S (length (chunks body)))).

(** **** Dispatch *)

Fixpoint emitParts (parts : list geminiPart) (onDelta : callback) : M (option error) :=
  match parts with
  | [] => ret None
  | part :: rest =>
      if isEmpty (Text part) then emitParts rest onDelta
      else
        err <- call onDelta (Text part) [] ;;
        match err with
        | Some e => ret (Some e)
        | None => emitParts rest onDelta
        end
  end.

Fixpoint emitGeminiCandidates (candidates : list geminiCandidate) (onDelta : callback)
  : M (option error) :=
  match candidates with
  | [] => ret None
  | cand :: rest =>
      err <- emitParts (Parts (Content cand)) onDelta ;;
      match err with
      | Some e => ret (Some e)
      | None => emitGeminiCandidates rest onDelta
      end
  end.

Definition dispatchSSEData (payload : bytes) (onDelta : callback) : M (option error) :=
  _ <- emit (EvDispatch payload) ;;
  let trimmed := TrimSpace payload in
  if isEmpty trimmed || bytes_eqb trimmed (bs "[DONE]") then ret None
  else
    match jsonUnmarshalResponse P trimmed with
    | inl err => ret (Some (wrapError (bs "providers/gemini: decode stream chunk: ") err))
    | inr chunk =>
        match resp_Error chunk with
        | Some e => ret (Some (upstreamError e))
        | None => emitGeminiCandidates (Candidates chunk) onDelta
        end
    end.

(** **** The SSE reader *)

Definition CRLF : bytes := [x0d; x0a].
Definition dataPrefix : bytes := bs "data:".

(** [processSSELine]: the result is [(done, err)] and the data buffer as
    the call leaves it. *)
Definition processSSELine (line : bytes) (dataBuf : bytes) (onDelta : callback)
  : M (bool * option error * bytes) :=
  let line := TrimRight line CRLF in
  if HasPrefix line dataPrefix then
    let segment := TrimSpace (TrimPrefix line dataPrefix) in
    let dataBuf := if negb (isEmpty dataBuf) then dataBuf ++ [x0a] else dataBuf in
    ret (false, None, dataBuf ++ segment)
  else if isEmpty line && negb (isEmpty dataBuf) then
    err <- dispatchSSEData dataBuf onDelta ;;
    match err with
    | Some e => ret (true, Some e, dataBuf)
    | None => ret (false, None, [])
    end
  else ret (false, None, dataBuf).

Definition handleSSEReadError (err : error) (dataBuf : bytes) (onDelta : callback)
  : M (option error) :=
  if errorsIsEOF err then
    if isEmpty dataBuf then ret None
    else dispatchSSEData dataBuf onDelta
  else ret (Some (wrapError (bs "providers/gemini: read stream: ") err)).

(** The [for] loop of [readSSEStream].  A turn that reads a line takes at
    least its line feed from the body, so the loop ends within
    [bodySize] turns plus one; [None] is a loop cut short by [fuel]. *)
Fixpoint sseLoop (fuel : nat) (reader : bufioReader) (dataBuf : bytes) (onDelta : callback)
  : M (option (option error)) :=
  match fuel with
  | O => ret None
  | S fuel' =>
      '(line, err, reader') <- ReadString reader ;;
      match err with
      | Some e =>
          r <- handleSSEReadError e dataBuf onDelta ;;
          ret (Some r)
      | None =>
          '(done, err, dataBuf') <- processSSELine line dataBuf onDelta ;;
          if done || match err with Some _ => true | None => false end
          then ret (Some err)
          else sseLoop fuel' reader' dataBuf' onDelta
      end
  end.

Definition bodySize (body : Body) : nat := length (concat (chunks body)).

Definition readSSEStream (body : Body) (onDelta : callback) : M (option error) :=
  r <- sseLoop (S (bodySize body)) (NewReader body) [] onDelta ;;
  match r with
  | Some err => ret err
  | None => ret (Some (errorString (bs "unreachable")))
  end.

(** **** Requests *)

Definition checkGeminiResponse (resp : Response) : M (option error) :=
  if (StatusCode resp <? httpStatusClientErr)%Z then ret None
  else
    body <- ReadAll (resp_Body resp) ;;
    let generic :=
      errorString (bs "providers/gemini: http " ++ itoa (StatusCode resp) ++ bs ": "
                   ++ TrimSpace body) in
    match jsonUnmarshalError P body with
    | inr apiErr =>
        match env_Error apiErr with
        | Some e => ret (Some (upstreamError e))
        | None => ret (Some generic)
        end
    | inl _ => ret (Some generic)
    end.

(** [defer resp.Body.Close()]: the close follows whatever the rest of
    the function does. *)
Definition deferClose {A : Type} (m : M A) : M A :=
  r <- m ;;
  _ <- emit EvClose ;;
  ret r.

Definition stream (g : Gemini) (endpoint body : bytes) (onDelta : callback)
  : M (option error) :=
  match newRequest g endpoint body with
  | inl err => ret (Some err)
  | inr req =>
      let req := {| Method := Method req; URL := URL req;
                    Header := headerSet (Header req) (bs "Accept") (bs "text/event-stream");
                    req_Body := req_Body req |} in
      _ <- emit (EvHTTP req) ;;
      match httpDo P req with
      | inl err => ret (Some (wrapError (bs "providers/gemini: stream request failed: ") err))
      | inr resp =>
          deferClose
            (err <- checkGeminiResponse resp ;;
             match err with
             | Some e => ret (Some e)
             | None => readSSEStream (resp_Body resp) onDelta
             end)
      end
  end.

Definition nonStream (g : Gemini) (endpoint body : bytes) (onDelta : callback)
  : M (option error) :=
  match newRequest g endpoint body with
  | inl err => ret (Some err)
  | inr req =>
      let req := {| Method := Method req; URL := URL req;
                    Header := headerSet (Header req) (bs "Accept") (bs "application/json");
                    req_Body := req_Body req |} in
      _ <- emit (EvHTTP req) ;;
      match httpDo P req with
      | inl err => ret (Some (wrapError (bs "providers/gemini: request failed: ") err))
      | inr resp =>
          deferClose
            (err <- checkGeminiResponse resp ;;
             match err with
             | Some e => ret (Some e)
             | None =>
                 match jsonDecodeBody P (resp_Body resp) with
                 | inl err => ret (Some (wrapError (bs "providers/gemini: decode response: ") err))
                 | inr out => emitGeminiCandidates (Candidates out) onDelta
                 end
             end)
      end
  end.

(** [Gemini.Chat]; a nil receiver is [None]. *)
Definition Gemini_Chat (g : option Gemini) (opts : ChatOptions) : M (option error) :=
  match g with
  | None => ret (Some (errorString (bs "providers/gemini: nil client")))
  | Some g =>
      match client g with
      | None => ret (Some (errorString (bs "providers/gemini: nil client")))
      | Some _ =>
          if isEmpty (TrimSpace (Model opts))
          then ret (Some (errorString (bs "providers/gemini: model is required")))
          else
            match buildRequestBody opts with
            | inl err => ret (Some err)
            | inr body =>
                match buildEndpoint g (Model opts) (Stream opts) with
                | inl err => ret (Some err)
                | inr endpoint =>
                    let onDelta := onDeltaOrNoop (OnDelta opts) in
                    if Stream opts then stream g endpoint body onDelta
                    else nonStream g endpoint body onDelta
                end
            end
      end
  end.

(** *** [ollama.go] *)

Record apiClient := { host : bytes }.

Record Ollama := { o_client : option apiClient }.

Definition ErrNilClient : error := errorString (bs "providers/ollama: nil client").

Definition toAPIImages (imgs : list bytes) : list bytes :=
  match imgs with
  | [] => []
  | _ :: _ => map (fun b => b) imgs
  end.

(** [m[k] = v] on a Go map. *)
Definition mapSet (m : list (bytes * any)) (k : bytes) (v : any) : list (bytes * any) :=
  filter (fun kv => negb (bytes_eqb (fst kv) k)) m ++ [(k, v)].

Definition mergeOptions (opts : ChatOptions) : list (bytes * any) :=
  let m := [(bs "enable_thinking", anyBool (Think opts))] in
  let m :=
    if f64_nonzero (Temperature opts)
    then mapSet m (bs "temperature") (anyFloat64 (Temperature opts)) else m in
  let m :=
    if f64_nonzero (TopP opts)
    then mapSet m (bs "top_p") (anyFloat64 (TopP opts)) else m in
  fold_left (fun m kv => mapSet m (fst kv) (snd kv)) (Options opts) m.

(** The JSON text ["json"], quotes included. *)
Definition jsonLiteral : bytes := [x22] ++ bs "json" ++ [x22].

Definition ensureFormat (f : bytes) : bytes :=
  match f with
  | [] => jsonLiteral
  | _ :: _ => f
  end.

Definition streamPtr (stream : bool) : option bool :=
  if stream then None else Some false.

(** [api.Client.Chat] of the Ollama SDK: it posts the request and hands
    every response object of the server to [fn], returning the first
    error [fn] returns or else the transport's. *)
Fixpoint apiDeliver (resps : list apiChatResponse) (fn : apiChatResponse -> M (option error))
  : M (option error) :=
  match resps with
  | [] => ret None
  | resp :: rest =>
      err <- fn resp ;;
      match err with
      | Some e => ret (Some e)
      | None => apiDeliver rest fn
      end
  end.

Definition apiClient_Chat (req : apiChatRequest) (fn : apiChatResponse -> M (option error))
  : M (option error) :=
  _ <- emit (EvOllamaChat req) ;;
  err <- apiDeliver (fst (ollamaServe P req)) fn ;;
  match err with
  | Some e => ret (Some e)
  | None => ret (snd (ollamaServe P req))
  end.

(** The request [Ollama.Chat] hands to the SDK. *)
Definition ollamaRequest (opts : ChatOptions) : apiChatRequest :=
  let system := TrimSpace (SystemPrompt opts) in
  let messages :=
    if negb (isEmpty system)
    then [{| msg_Role := bs "system"; msg_Content := system;
             msg_Thinking := []; msg_Images := [] |}]
    else [] in
  let imgs := toAPIImages (Images opts) in
  let userMsg := {| msg_Role := bs "user"; msg_Content := Prompt opts;
                    msg_Thinking := [];
                    msg_Images := if (0 <? length imgs)%nat then imgs else [] |} in
  let messages := messages ++ [userMsg] in
  let merged := mergeOptions opts in
  let format := ensureFormat (Format opts) in
  {| api_Model := Model opts;
     api_Messages := messages;
     api_Think := Think opts;
     api_Options := merged;
     api_Format := format;
     api_Stream := streamPtr (Stream opts) |}.

(** [respFunc] of [Ollama.Chat]. *)
Definition respFunc (opts : ChatOptions) (resp : apiChatResponse) : M (option error) :=
  let onDelta := onDeltaOrNoop (OnDelta opts) in
  call onDelta (msg_Content (api_Message resp)) (msg_Thinking (api_Message resp)).

Definition Ollama_Chat (o : option Ollama) (opts : ChatOptions) : M (option error) :=
  match o with
  | None => ret (Some ErrNilClient)
  | Some o =>
      match o_client o with
      | None => ret (Some ErrNilClient)
      | Some _ => apiClient_Chat (ollamaRequest opts) (respFunc opts)
      end
  end.

(** *** The OpenAI client *)

Record OpenAI := { openai_client : unit }.

Definition toResponseFormat (raw : bytes) : responseFormatUnion :=
  if isEmpty raw then OfJSONObject
  else
    let trim := TrimSpace raw in
    if bytes_eqb trim jsonLiteral || bytes_eqb trim (bs "json") then OfJSONObject
    else
      match jsonUnmarshalAny P raw with
      | inr schema => OfJSONSchema (bs "dino_schema") true schema
      | inl _ => OfJSONObject
      end.

(** The parameters [OpenAI.Chat] hands to the SDK. *)
Definition openaiParams (opts : ChatOptions) : ChatCompletionNewParams :=
  let parts :=
    TextContentPart (TrimSpace (Prompt opts)) ::
    map (fun img =>
           let mime := DetectContentType P img in
           let mime := if negb (HasPrefix mime (bs "image/")) then bs "image/png" else mime in
           ImageContentPart (bs "data:" ++ mime ++ bs ";base64," ++ base64Encode P img))
        (Images opts) in
  let system := TrimSpace (SystemPrompt opts) in
  let messages := if negb (isEmpty system) then [OfSystem system] else [] in
  let messages := messages ++ [OfUser parts] in
  {| p_Messages := messages;
     p_Model := Model opts;
     p_Temperature := Temperature opts;
     p_TopP := TopP opts;
     ResponseFormat :=
       if negb (NoResponseFormat opts) then toResponseFormat (Format opts) else formatUnset |}.

(** The [for stream.Next()] loop of [handleStreamingChat]; [Some e] is
    the [return err] inside the loop. *)
Fixpoint streamingLoop (chs : list ChatCompletion) (onDelta : callback) : M (option error) :=
  match chs with
  | [] =>
      _ <- emit EvNext ;;
      ret None
  | ch :: rest =>
      _ <- emit EvNext ;;
      match Choices ch with
      | [] => streamingLoop rest onDelta
      | c0 :: _ =>
          let content := TrimSpace c0 in
          if isEmpty content then streamingLoop rest onDelta
          else
            err <- call onDelta content [] ;;
            match err with
            | Some e => ret (Some e)
            | None => streamingLoop rest onDelta
            end
      end
  end.

Definition handleStreamingChat (params : ChatCompletionNewParams) (onDelta : callback)
  : M (option error) :=
  _ <- emit (EvOpenAIStreaming params) ;;
  deferClose
    (err <- streamingLoop (fst (openaiStreaming P params)) onDelta ;;
     match err with
     | Some e => ret (Some e)
     | None =>
         match snd (openaiStreaming P params) with
         | Some e =>
             ret (Some (formatOpenAIAPIError
                          (bs "providers/openai: streaming chat completion failed") e))
         | None => ret None
         end
     end).

Definition OpenAI_Chat (o : option OpenAI) (opts : ChatOptions) : M (option error) :=
  match o with
  | None => ret (Some (errorString (bs "providers/openai: nil client")))
  | Some _ =>
      let params := openaiParams opts in
      let onDelta := onDeltaOrNoop (OnDelta opts) in
      if Stream opts then handleStreamingChat params onDelta
      else
        _ <- emit (EvOpenAINew params) ;;
        match openaiNew P params with
        | inl err =>
            ret (Some (formatOpenAIAPIError (bs "providers/openai: chat completion failed") err))
        | inr resp =>
            match Choices resp with
            | [] => ret (Some (errorString (bs "providers/openai: empty choices")))
            | c0 :: _ => call onDelta (TrimSpace c0) []
            end
        end
  end.

(** *** Reference definitions, in the words of the specification *)

(** The complete lines of a byte stream, each with its line feed, and the
    bytes after the last line feed. *)
Fixpoint lines (s : bytes) : list bytes * bytes :=
  match s with
  | [] => ([], [])
  | c :: r =>
      let '(ls, tl) := lines r in
      if Byte.eqb c x0a then ([c] :: ls, tl)
      else
        match ls with
        | l :: ls' => ((c :: l) :: ls', tl)
        | [] => ([], c :: tl)
        end
  end.

(** The loop of [readSSEStream] laid out over the lines [ReadString]
    returns and the error [fin] that ends the body: one [processSSELine]
    per line, then [handleSSEReadError]. *)
Fixpoint sseRun (ls : list bytes) (fin : error) (dataBuf : bytes) (onDelta : callback)
  : M (option error) :=
  match ls with
  | [] => handleSSEReadError fin dataBuf onDelta
  | line :: rest =>
      '(done, err, dataBuf') <- processSSELine line dataBuf onDelta ;;
      if done || match err with Some _ => true | None => false end
      then ret err
      else sseRun rest fin dataBuf' onDelta
  end.

(** The reads of a body make progress: never a hundred empty reads in a
    row, the point where [bufio] gives up with [io.ErrNoProgress]
    ([tries] attempts are left in the current row).  Reads that all
    return data make progress. *)
Fixpoint progresses (tries : nat) (cs : list bytes) : bool :=
  match cs with
  | [] => true
  | [] :: rest =>
      match tries with
      | S (S t) => progresses (S t) rest
      | _ => false
      end
  | (_ :: _) :: rest => progresses maxConsecutiveEmptyReads rest
  end.

(** A reader stands for the bytes it has still to return: its buffer
    and the chunks of the body, whose reads make progress. *)
Definition holds (r : bufioReader) (rest : bytes) (fin : error) : Prop :=
  buf r ++ concat (chunks (rd r)) = rest
  /\ progresses maxConsecutiveEmptyReads (chunks (rd r)) = true
  /\ final (rd r) = fin.

(** The state machine of the specification over the lines of the body:
    a data line adds its trimmed remainder to the buffer (after a line
    feed when the buffer holds content), a blank line with a non-empty
    buffer dispatches and clears it, any other line is ignored, and the
    end of input dispatches a non-empty buffer once. *)
Fixpoint sseMachine (ls : list bytes) (acc : bytes) (onDelta : callback) : M (option error) :=
  match ls with
  | [] => if isEmpty acc then ret None else dispatchSSEData acc onDelta
  | l :: rest =>
      let l := TrimRight l CRLF in
      if HasPrefix l dataPrefix then
        let remainder := TrimSpace (TrimPrefix l dataPrefix) in
        sseMachine rest (match acc with [] => remainder | _ :: _ => acc ++ [x0a] ++ remainder end)
                   onDelta
      else
        match l, acc with
        | [], _ :: _ =>
            err <- dispatchSSEData acc onDelta ;;
            match err with
            | Some e => ret (Some e)
            | None => sseMachine rest [] onDelta
            end
        | _, _ => sseMachine rest acc onDelta
        end
  end.

(** The payloads the machine hands to dispatch when no dispatch fails. *)
Fixpoint ssePayloads (ls : list bytes) (acc : bytes) : list bytes :=
  match ls with
  | [] => match acc with [] => [] | _ :: _ => [acc] end
  | l :: rest =>
      let l := TrimRight l CRLF in
      if HasPrefix l dataPrefix then
        let remainder := TrimSpace (TrimPrefix l dataPrefix) in
        ssePayloads rest (match acc with [] => remainder | _ :: _ => acc ++ [x0a] ++ remainder end)
      else
        match l, acc with
        | [], _ :: _ => acc :: ssePayloads rest []
        | _, _ => ssePayloads rest acc
        end
  end.

(** The text fragments of a response: every non-empty text part, in
    candidate order and part order within a candidate. *)
Definition textFragments (candidates : list geminiCandidate) : list bytes :=
  flat_map (fun cand => filter (fun t => negb (isEmpty t)) (map Text (Parts (Content cand))))
           candidates.

(** One callback call per fragment, in order, with an empty thinking
    argument, up to the first call that returns an error. *)
Fixpoint deliver (frags : list bytes) (onDelta : callback) : M (option error) :=
  match frags with
  | [] => ret None
  | f :: rest =>
      err <- call onDelta f [] ;;
      match err with
      | Some e => ret (Some e)
      | None => deliver rest onDelta
      end
  end.

(** A client step keeps the invariant [aborted] from every state. *)
Definition Good (m : M (option error)) : Prop :=
  forall s, aborted (fst (fst (m s))) (snd (m s)).

(** A base URL that ends in a recognised API-version segment. *)
Definition versioned (b : bytes) : bool :=
  HasSuffix b (bs "/v1") || HasSuffix b (bs "/v1beta") || HasSuffix b (bs "/v1beta1").

(** The authentication placements of a request. *)
Definition hasAuthorization (req : Request) : bool :=
  match headerGet (Header req) (bs "Authorization") with
  | Some _ => true
  | None => false
  end.

(** A run fails before any network I/O: it returns an error and its trace
    holds no call to a transport. *)
Definition failsBeforeIO (run : option error * St * list event) : Prop :=
  (exists e, fst (fst run) = Some e) /\ existsb isNetwork (snd run) = false.

End Providers.

(* ===================================================================== *)
(** ** Package [utils]                                                   *)
(* ===================================================================== *)

Section Utils.

(** The operations of [github.com/shopspring/decimal] the program calls.
    [NewFromString] is the value it returns; the program drops its error. *)
Variable Decimal : Type.
Variable NewFromString : bytes -> Decimal.
Variable NewFromInt : Z -> Decimal.
Variable Mul : Decimal -> Decimal -> Decimal.
Variable Div : Decimal -> Decimal -> Decimal.
Variable IntPart : Decimal -> Z.

(** Go's [int] is 64 bits wide on the platforms the tool is built for. *)
Definition minInt : Z := - 2 ^ 63.
Definition maxInt : Z := 2 ^ 63 - 1.
Definition inInt (z : Z) : Prop := (minInt <= z <= maxInt)%Z.
Definition wrapInt (z : Z) : Z := ((z + 2 ^ 63) mod 2 ^ 64 - 2 ^ 63)%Z.

Definition Clamp (v lo hi : Z) : Z :=
  if (v <? lo)%Z then lo
  else if (v >? hi)%Z then hi
  else v.

(** [int(f.Mul(d).Div(scaleD).IntPart())]. *)
Definition scaled (s : bytes) (dim scale : Z) : Z :=
  wrapInt (IntPart (Div (Mul (NewFromString s) (NewFromInt dim)) (NewFromInt scale))).

(** [DenormalizeBbox].  [Div] panics on a zero divisor, and the divisor
    is [NewFromInt(scale)]: [None] is that panic. *)
Definition DenormalizeBbox (x1s y1s x2s y2s : bytes) (width height scale : Z)
  : option (Z * Z * Z * Z) :=
  if (scale =? 0)%Z then None
  else
    let x1 := scaled x1s width scale in
    let y1 := scaled y1s height scale in
    let x2 := scaled x2s width scale in
    let y2 := scaled y2s height scale in
    let '(x1, x2) := if (x1 >? x2)%Z then (x2, x1) else (x1, x2) in
    let '(y1, y2) := if (y1 >? y2)%Z then (y2, y1) else (y1, y2) in
    let maxX := wrapInt (width - 1) in
    let maxX := if (maxX <? 0)%Z then 0%Z else maxX in
    let maxY := wrapInt (height - 1) in
    let maxY := if (maxY <? 0)%Z then 0%Z else maxY in
    let x1 := Clamp x1 0 maxX in
    let x2 := Clamp x2 0 maxX in
    let y1 := Clamp y1 0 maxY in
    let y2 := Clamp y2 0 maxY in
    Some (x1, y1, x2, y2).

End Utils.

(* ===================================================================== *)
(** ** Sample instances                                                  *)
(* ===================================================================== *)

(** Small stand-ins for the libraries and transports, used to run the
    clients on concrete inputs.  The theorems below hold for every
    [Platform]; these instances only serve the worked examples. *)
Module Sample.

(** The pieces of [s] between occurrences of [sep]. *)
Fixpoint splitOn (sep : byte) (s : bytes) : list bytes :=
  match s with
  | [] => [[]]
  | c :: r =>
      if Byte.eqb c sep then [] :: splitOn sep r
      else
        match splitOn sep r with
        | p :: ps => (c :: p) :: ps
        | [] => [[c]]
        end
  end.

Definition quota : geminiErrorPayload :=
  {| Code := 429; Status := bs "RESOURCE_EXHAUSTED"; Message := bs "quota" |}.

(** A stand-in for the JSON decoder of response objects: a text that
    starts with [!] is a response with an embedded error, one that starts
    with [?] does not parse, and any other text is one candidate whose
    parts are the pieces between [|]. *)
Definition decodeResponse (text : bytes) : error + geminiGenerateResponse :=
  match text with
  | "!"%byte :: _ => inr {| Candidates := []; resp_Error := Some quota |}
  | "?"%byte :: _ => inl (foreignError (bs "json: syntax error"))
  | _ =>
      inr {| Candidates :=
               [{| Content :=
                     {| Role := bs "model";
                        Parts := map (fun t => {| Text := t; InlineData := None |})
                                     (splitOn "|" text) |} |}];
             resp_Error := None |}
  end.

Definition decodeError (text : bytes) : error + geminiError :=
  match text with
  | "!"%byte :: _ => inr {| env_Error := Some quota |}
  | "{"%byte :: _ => inr {| env_Error := None |}
  | _ => inl (foreignError (bs "json: syntax error"))
  end.

Definition okBody : Body :=
  {| chunks := [bs "data: Hel"; [x0a; x0a]; bs "data: lo"; [x0a; x0a]]; final := io_EOF |}.

Definition platform : Platform :=
  {| jsonUnmarshalResponse := decodeResponse;
     jsonUnmarshalError := decodeError;
     jsonUnmarshalAny := fun text => inr (anyJSON text);
     jsonEncode := fun _ => inr (bs "{}");
     jsonDecodeBody := fun body => decodeResponse (concat (chunks body));
     DetectContentType := fun _ => bs "image/png";
     base64Encode := fun b => b;
     ToLower := fun b => b;
     Quote := fun b => b;
     Atoi := fun _ => None;
     float32ToInt := fun _ => 0%Z;
     float64ToInt := fun _ => 0%Z;
     int32ToInt := fun z => z;
     int64ToInt := fun z => z;
     urlParseError := fun _ => None;
     httpDo := fun _ => inr {| StatusCode := 200; resp_Body := okBody |};
     ollamaServe := fun _ =>
       ([{| api_Message := {| msg_Role := bs "assistant"; msg_Content := bs "hi";
                              msg_Thinking := []; msg_Images := [] |} |}], None);
     openaiNew := fun _ => inr {| Choices := [bs "hi"] |};
     openaiStreaming := fun _ => ([{| Choices := [bs "Hel"] |}; {| Choices := [bs "lo"] |}], None)
  |}.

Definition formatError (context : bytes) (err : error) : error :=
  wrapError (context ++ bs ": ") err.

(** Callbacks on a state that collects the contents received. *)
Definition record : callback (list bytes) :=
  fun content _ s => (None, s ++ [content]).

Definition stop : error := foreignError (bs "stop").

Definition failOn (bad : bytes) : callback (list bytes) :=
  fun content _ s =>
    if bytes_eqb content bad then (Some stop, s ++ [content]) else (None, s ++ [content]).

Definition zero : float64 := {| f64bits := 0 |}.

Definition options (model : bytes) (streaming noFormat : bool)
           (onDelta : option (callback (list bytes))) : ChatOptions (list bytes) :=
  {| Model := model; Prompt := bs "describe"; SystemPrompt := [];
     Stream := streaming; Think := false; Temperature := zero; TopP := zero;
     Format := []; NoResponseFormat := noFormat; Images := []; Options := [];
     OnDelta := onDelta |}.

(** 0.5 as a [float64]. *)
Definition half : float64 := {| f64bits := 4602678819172646912 |}.

(** Options with a temperature and a schema, and the suppress-format
    flag set. *)
Definition suppressed : ChatOptions (list bytes) :=
  {| Model := bs "m"; Prompt := bs "describe"; SystemPrompt := [];
     Stream := false; Think := false; Temperature := half; TopP := zero;
     Format := bs "{}"; NoResponseFormat := true; Images := []; Options := [];
     OnDelta := Some record |}.

Definition gemini (auth : bytes) : Gemini :=
  {| client := Some {| Timeout := 120 |};
     baseURL := bs "https://example.test/v1beta";
     apiKey := bs "k 1";
     authType := auth |}.

(** Exact fractions as a stand-in for the decimal library, with a parser
    of plain decimal integers (anything else parses to zero). *)
Definition fraction : Type := Z * Z.

Fixpoint digitsVal (acc : Z) (s : bytes) : option Z :=
  match s with
  | [] => Some acc
  | c :: r =>
      if byteIn "0" "9" c
      then digitsVal (acc * 10 + (Z.of_N (Byte.to_N c) - 48))%Z r
      else None
  end.

Definition parseInt (s : bytes) : fraction :=
  match s with
  | [] => (0, 1)%Z
  | "-"%byte :: (_ :: _) as r =>
      match digitsVal 0 (tl r) with
      | Some v => (- v, 1)%Z
      | None => (0, 1)%Z
      end
  | _ =>
      match digitsVal 0 s with
      | Some v => (v, 1)%Z
      | None => (0, 1)%Z
      end
  end.

Definition fromInt (z : Z) : fraction := (z, 1%Z).
Definition mul (a b : fraction) : fraction := (fst a * fst b, snd a * snd b)%Z.
Definition div (a b : fraction) : fraction := (fst a * snd b, snd a * fst b)%Z.
Definition intPart (a : fraction) : Z := Z.quot (fst a) (snd a).

Definition denormalize : bytes -> bytes -> bytes -> bytes -> Z -> Z -> Z -> option (Z * Z * Z * Z) :=
  DenormalizeBbox parseInt fromInt mul div intPart.

End Sample.

(* ===================================================================== *)
(** ** Further reference definitions                                     *)
(* ===================================================================== *)

Section Shapes.

Variable P : Platform.

(** The inline-data part [buildContents] makes of an image: the sniffed
    MIME type, or [image/png] when the sniffed type is no image type. *)
Definition imagePart (img : bytes) : geminiPart :=
  let mime := DetectContentType P img in
  let mime := if negb (HasPrefix mime (bs "image/")) then bs "image/png" else mime in
  {| Text := []; InlineData := Some {| MimeType := mime; Data := base64Encode P img |} |}.

(** The events of reading a response body and handing it on. *)
Definition isBodyEvent (e : event) : bool :=
  match e with
  | EvRead | EvDispatch _ | EvDelta _ _ _ => true
  | _ => false
  end.

Definition isHTTP (e : event) : bool :=
  match e with EvHTTP _ => true | _ => false end.

(** The payloads that a blank line completes, in order; the buffer still
    pending after the last line is left out. *)
Fixpoint sseCompleted (ls : list bytes) (acc : bytes) : list bytes :=
  match ls with
  | [] => []
  | l :: rest =>
      let l := TrimRight l CRLF in
      if HasPrefix l dataPrefix then
        let remainder := TrimSpace (TrimPrefix l dataPrefix) in
        sseCompleted rest (match acc with [] => remainder | _ :: _ => acc ++ [x0a] ++ remainder end)
      else
        match l, acc with
        | [], _ :: _ => acc :: sseCompleted rest []
        | _, _ => sseCompleted rest acc
        end
  end.

(** A request with its [Accept] header set, as [stream] and [nonStream]
    send it. *)
Definition withAccept (req : Request) (accept : bytes) : Request :=
  {| Method := Method req; URL := URL req;
     Header := headerSet (Header req) (bs "Accept") accept;
     req_Body := req_Body req |}.

(** The [Accept] header of the two modes of [Chat]. *)
Definition acceptOf (streaming : bool) : bytes :=
  if streaming then bs "text/event-stream" else bs "application/json".

End Shapes.

Section TraceShapes.

Variable St : Type.

(** Every event of every run of [m] satisfies [Q]. *)
Definition only (Q : event -> bool) (A : Type) (m : M St A) : Prop :=
  forall s, forallb Q (snd (m s)) = true.

End TraceShapes.

(** Transports that fail, for the worked runs. *)
Module Faults.

Definition withTransport (P : Platform) (transport : Request -> error + Response) : Platform :=
  {| jsonUnmarshalResponse := jsonUnmarshalResponse P;
     jsonUnmarshalError := jsonUnmarshalError P;
     jsonUnmarshalAny := jsonUnmarshalAny P;
     jsonEncode := jsonEncode P;
     jsonDecodeBody := jsonDecodeBody P;
     DetectContentType := DetectContentType P;
     base64Encode := base64Encode P;
     ToLower := ToLower P;
     Quote := Quote P;
     Atoi := Atoi P;
     float32ToInt := float32ToInt P;
     float64ToInt := float64ToInt P;
     int32ToInt := int32ToInt P;
     int64ToInt := int64ToInt P;
     urlParseError := urlParseError P;
     httpDo := transport;
     ollamaServe := ollamaServe P;
     openaiNew := openaiNew P;
     openaiStreaming := openaiStreaming P |}.

(** A server that answers 429 with an error object. *)
Definition rejected : Response :=
  {| StatusCode := 429; resp_Body := {| chunks := [bs "!quota"]; final := io_EOF |} |}.

Definition rejecting : Platform := withTransport Sample.platform (fun _ => inr rejected).

(** A 200 answer whose body is one response object with two text parts. *)
Definition answered : Response :=
  {| StatusCode := 200; resp_Body := {| chunks := [bs "Hel|lo"]; final := io_EOF |} |}.

Definition answering : Platform := withTransport Sample.platform (fun _ => inr answered).

(** The request [newRequest] builds for the sample client in query-key
    mode. *)
Definition endpoint : bytes := bs "https://example.test/v1beta/models/m:generateContent".

Definition request : Request :=
  {| Method := bs "POST";
     URL := endpoint ++ bs "?key=k+1";
     Header := [(bs "Content-Type", bs "application/json");
                (bs "User-Agent", browserUserAgent)];
     req_Body := bs "{}" |}.

Definition reset : error := foreignError (bs "connection reset").

(** A stream cut by the connection after one event and a further data
    line. *)
Definition cut : Body :=
  {| chunks := [bs "data: a"; [x0a; x0a]; bs "data: b"; [x0a]]; final := reset |}.

End Faults.

(** The contents [handleStreamingChat] hands on: of every streamed chunk
    with a choice, the trimmed content of the first choice, unless it is
    empty. *)
Definition streamContents (chs : list ChatCompletion) : list bytes :=
  filter (fun c => negb (isEmpty c))
         (flat_map (fun ch => match Choices ch with
                              | [] => []
                              | c0 :: _ => [TrimSpace c0]
                              end) chs).

Definition isNext (e : event) : bool :=
  match e with EvNext => true | _ => false end.

(** The trace without the polls of the stream. *)
Definition noNexts (t : list event) : list event :=
  filter (fun e => negb (isNext e)) t.

(* ===================================================================== *)
(** ** The OpenAI constructor and error report                           *)
(* ===================================================================== *)

(** The request options [NewOpenAI] hands to [openai.NewClient]. *)
Inductive RequestOption :=
| WithAPIKey (key : bytes)
| WithHeader (key value : bytes)
| WithBaseURL (base : bytes).

(** [NewOpenAI], by the options its client is made of; it returns no
    error. *)
Definition NewOpenAI (cfg : ProviderConfig) : list RequestOption :=
  let opts :=
    if negb (isEmpty (TrimSpace (APIKey cfg)))
    then [WithAPIKey (APIKey cfg); WithHeader (bs "X-Api-Key") (APIKey cfg)]
    else [] in
  let opts :=
    let b := TrimSpace (BaseURL cfg) in
    if negb (isEmpty b) then
      let b := TrimRight b (bs "/") in
      let b := if negb (HasSuffix b (bs "/v1")) then b ++ bs "/v1" else b in
      opts ++ [WithBaseURL b]
    else opts in
  opts ++ [WithHeader (bs "User-Agent") browserUserAgent].

(** [http.Header]: a map from keys to lists of values, in the order a
    [range] visits it. *)
Definition httpHeader : Type := list (bytes * list bytes).

(** An [io.ReadCloser] by what [io.ReadAll] and [Close] return on it. *)
Record ReadCloser := {
  rc_data : bytes;
  rc_readErr : option error;
  rc_closeErr : option error
}.

(** [io.NopCloser(strings.NewReader(body))]. *)
Definition NopCloser (body : bytes) : ReadCloser :=
  {| rc_data := body; rc_readErr := None; rc_closeErr := None |}.

Record httpResponse := {
  hr_Header : httpHeader;
  hr_Body : option ReadCloser
}.

(** [openai.Error], by the fields the report reads. *)
Record openaiError := {
  oe_StatusCode : Z;
  oe_Response : option httpResponse
}.

(** [a < b] on Go strings: the order of their bytes. *)
Fixpoint bytes_ltb (a b : bytes) : bool :=
  match a, b with
  | _, [] => false
  | [], _ :: _ => true
  | x :: a', y :: b' =>
      if (Byte.to_N x <? Byte.to_N y)%N then true
      else if (Byte.to_N y <? Byte.to_N x)%N then false
      else bytes_ltb a' b'
  end.

Fixpoint insertString (k : bytes) (l : list bytes) : list bytes :=
  match l with
  | [] => [k]
  | h :: t => if bytes_ltb h k then h :: insertString k t else k :: l
  end.

(** [sort.Strings]: the strings in increasing order. *)
Definition sortStrings (l : list bytes) : list bytes :=
  fold_right insertString [] l.

(** [header[key]]. *)
Fixpoint headerValues (header : httpHeader) (key : bytes) : list bytes :=
  match header with
  | [] => []
  | (k, vs) :: r => if bytes_eqb k key then vs else headerValues r key
  end.

Section OpenAIReport.

(** [errors.As(err, &apiErr)]: [None] when no error of the chain is an
    [*openai.Error], and the pointer found otherwise ([Some None] is a nil
    pointer).  [StatusText] is [http.StatusText], and [errorText] the text
    of an error as the [%v] verb prints it. *)
Variable errorsAs : error -> option (option openaiError).
Variable StatusText : Z -> bytes.
Variable errorText : error -> bytes.

Definition wrapNonOpenAIError (context : bytes) (err : error) : error :=
  if isEmpty context then err
  else wrapError (context ++ bs ": ") err.

Definition resolveOpenAIErrorLabel (context : bytes) : bytes :=
  if negb (isEmpty context) then context
  else bs "providers/openai: api error".

Definition extractResponseHeader (apiErr : option openaiError) : httpHeader :=
  match apiErr with
  | None => []
  | Some a =>
      match oe_Response a with
      | None => []
      | Some r => hr_Header r
      end
  end.

Definition readResponseBody (body : option ReadCloser) : bytes * option error :=
  match body with
  | None => ([], None)
  | Some b =>
      match rc_readErr b with
      | Some err => ([], Some err)
      | None =>
          match rc_closeErr b with
          | Some err => ([], Some err)
          | None => (rc_data b, None)
          end
      end
  end.

(** [formatResponseBody]: the text, and the error value as the call
    leaves it (a body that was read is replaced by a reader over the
    bytes read). *)
Definition formatResponseBody (apiErr : option openaiError) : bytes * option openaiError :=
  let head := bs "body:" ++ [x0a] in
  let empty := head ++ bs "  <empty>" ++ [x0a] in
  match apiErr with
  | None => (empty, apiErr)
  | Some a =>
      match oe_Response a with
      | None => (empty, apiErr)
      | Some r =>
          match hr_Body r with
          | None => (empty, apiErr)
          | Some b =>
              match readResponseBody (Some b) with
              | (_, Some readErr) =>
                  (head ++ bs "  <error reading body: " ++ errorText readErr
                        ++ bs ">" ++ [x0a], apiErr)
              | (body, None) =>
                  let apiErr' :=
                    Some {| oe_StatusCode := oe_StatusCode a;
                            oe_Response :=
                              Some {| hr_Header := hr_Header r;
                                      hr_Body := Some (NopCloser body) |} |} in
                  if isEmpty body then (empty, apiErr')
                  else if negb (HasSuffix body [x0a]) then (head ++ body ++ [x0a], apiErr')
                  else (head ++ body, apiErr')
              end
          end
      end
  end.

Definition extractStatusInfo (apiErr : option openaiError) : bytes :=
  match apiErr with
  | None => []
  | Some a =>
      if (oe_StatusCode a =? 0)%Z then []
      else
        let statusText := StatusText (oe_StatusCode a) in
        if negb (isEmpty statusText)
        then bs "status: " ++ itoa (oe_StatusCode a) ++ bs " " ++ statusText ++ [x0a]
        else bs "status: " ++ itoa (oe_StatusCode a) ++ [x0a]
  end.

Definition formatHeaders (header : httpHeader) : bytes :=
  let head := bs "headers:" ++ [x0a] in
  match header with
  | [] => head ++ bs "  <none>" ++ [x0a]
  | _ :: _ =>
      let headerKeys := sortStrings (map fst header) in
      head ++
      flat_map
        (fun key =>
           match headerValues header key with
           | [] => bs "  " ++ key ++ bs ":" ++ [x0a]
           | values =>
               flat_map (fun value => bs "  " ++ key ++ bs ": " ++ value ++ [x0a]) values
           end)
        headerKeys
  end.

(** [buildOpenAIAPIErrorDetail]: the report, and the error value as the
    call leaves it. *)
Definition buildOpenAIAPIErrorDetail (context : bytes) (apiErr : option openaiError)
  : bytes * option openaiError :=
  let label := resolveOpenAIErrorLabel context ++ [x0a] in
  let status := extractStatusInfo apiErr in
  let headers := formatHeaders (extractResponseHeader apiErr) in
  let '(body, apiErr') := formatResponseBody apiErr in
  (label ++ status ++ headers ++ body, apiErr').

(** [formatOpenAIAPIError]; a nil error is [None]. *)
Definition formatOpenAIAPIError (context : bytes) (err : option error) : option error :=
  match err with
  | None => None
  | Some err =>
      match errorsAs err with
      | None => Some (wrapNonOpenAIError context err)
      | Some apiErr =>
          let detail := fst (buildOpenAIAPIErrorDetail context apiErr) in
          let detail := if negb (HasSuffix detail [x0a]) then detail ++ [x0a] else detail in
          Some (wrapError detail err)
      end
  end.

End OpenAIReport.

(* ===================================================================== *)
(** ** Functional options ([option.go])                                  *)
(* ===================================================================== *)

Section FunctionalOptions.

Variable St : Type.

Local Notation ChatOptions := (ChatOptions St).

(** [Option]: a function that updates the options in place. *)
Definition Option : Type := ChatOptions -> ChatOptions.

(** [NewChatOptions]; a nil option is [None]. *)
Definition NewChatOptions (model prompt : bytes) (fns : list (option Option)) : ChatOptions :=
  let co := {| Model := model; Prompt := prompt; SystemPrompt := [];
               Stream := false; Think := false;
               Temperature := {| f64bits := 0 |}; TopP := {| f64bits := 0 |};
               Format := []; NoResponseFormat := false; Images := []; Options := [];
               OnDelta := None |} in
  fold_left (fun co fn => match fn with Some f => f co | None => co end) fns co.

Definition WithTemperature (v : float64) : Option := fun c =>
  {| Model := Model c; Prompt := Prompt c; SystemPrompt := SystemPrompt c;
     Stream := Stream c; Think := Think c; Temperature := v; TopP := TopP c;
     Format := Format c; NoResponseFormat := NoResponseFormat c; Images := Images c;
     Options := Options c; OnDelta := OnDelta c |}.

Definition WithTopP (v : float64) : Option := fun c =>
  {| Model := Model c; Prompt := Prompt c; SystemPrompt := SystemPrompt c;
     Stream := Stream c; Think := Think c; Temperature := Temperature c; TopP := v;
     Format := Format c; NoResponseFormat := NoResponseFormat c; Images := Images c;
     Options := Options c; OnDelta := OnDelta c |}.

Definition WithStream (b : bool) : Option := fun c =>
  {| Model := Model c; Prompt := Prompt c; SystemPrompt := SystemPrompt c;
     Stream := b; Think := Think c; Temperature := Temperature c; TopP := TopP c;
     Format := Format c; NoResponseFormat := NoResponseFormat c; Images := Images c;
     Options := Options c; OnDelta := OnDelta c |}.

Definition WithThink (b : bool) : Option := fun c =>
  {| Model := Model c; Prompt := Prompt c; SystemPrompt := SystemPrompt c;
     Stream := Stream c; Think := b; Temperature := Temperature c; TopP := TopP c;
     Format := Format c; NoResponseFormat := NoResponseFormat c; Images := Images c;
     Options := Options c; OnDelta := OnDelta c |}.

Definition WithSystemPrompt (s : bytes) : Option := fun c =>
  {| Model := Model c; Prompt := Prompt c; SystemPrompt := s;
     Stream := Stream c; Think := Think c; Temperature := Temperature c; TopP := TopP c;
     Format := Format c; NoResponseFormat := NoResponseFormat c; Images := Images c;
     Options := Options c; OnDelta := OnDelta c |}.

Definition WithImages (imgs : list bytes) : Option := fun c =>
  {| Model := Model c; Prompt := Prompt c; SystemPrompt := SystemPrompt c;
     Stream := Stream c; Think := Think c; Temperature := Temperature c; TopP := TopP c;
     Format := Format c; NoResponseFormat := NoResponseFormat c; Images := imgs;
     Options := Options c; OnDelta := OnDelta c |}.

Definition WithFormat (raw : bytes) : Option := fun c =>
  {| Model := Model c; Prompt := Prompt c; SystemPrompt := SystemPrompt c;
     Stream := Stream c; Think := Think c; Temperature := Temperature c; TopP := TopP c;
     Format := raw; NoResponseFormat := NoResponseFormat c; Images := Images c;
     Options := Options c; OnDelta := OnDelta c |}.

Definition WithSchemaString (s : bytes) : Option := WithFormat s.

Definition WithNoResponseFormat (b : bool) : Option := fun c =>
  {| Model := Model c; Prompt := Prompt c; SystemPrompt := SystemPrompt c;
     Stream := Stream c; Think := Think c; Temperature := Temperature c; TopP := TopP c;
     Format := Format c; NoResponseFormat := b; Images := Images c;
     Options := Options c; OnDelta := OnDelta c |}.

Definition setOptions (c : ChatOptions) (m : list (bytes * any)) : ChatOptions :=
  {| Model := Model c; Prompt := Prompt c; SystemPrompt := SystemPrompt c;
     Stream := Stream c; Think := Think c; Temperature := Temperature c; TopP := TopP c;
     Format := Format c; NoResponseFormat := NoResponseFormat c; Images := Images c;
     Options := m; OnDelta := OnDelta c |}.

(** [WithOptions]: the entries of [m] are copied over the options, in
    the order the [range] over [m] visits them. *)
Definition WithOptions (m : list (bytes * any)) : Option := fun c =>
  match m with
  | [] => c
  | _ :: _ => setOptions c (fold_left (fun o kv => mapSet o (fst kv) (snd kv)) m (Options c))
  end.

Definition WithExtraOption (k : bytes) (v : any) : Option := fun c =>
  setOptions c (mapSet (Options c) k v).

Definition WithOnDelta (fn : option (callback St)) : Option := fun c =>
  {| Model := Model c; Prompt := Prompt c; SystemPrompt := SystemPrompt c;
     Stream := Stream c; Think := Think c; Temperature := Temperature c; TopP := TopP c;
     Format := Format c; NoResponseFormat := NoResponseFormat c; Images := Images c;
     Options := Options c; OnDelta := fn |}.

(** The options the package provides. *)
Inductive provided : Option -> Prop :=
| provided_Temperature v : provided (WithTemperature v)
| provided_TopP v : provided (WithTopP v)
| provided_Stream b : provided (WithStream b)
| provided_Think b : provided (WithThink b)
| provided_SystemPrompt s : provided (WithSystemPrompt s)
| provided_Images imgs : provided (WithImages imgs)
| provided_Format raw : provided (WithFormat raw)
| provided_SchemaString s : provided (WithSchemaString s)
| provided_NoResponseFormat b : provided (WithNoResponseFormat b)
| provided_Options m : provided (WithOptions m)
| provided_ExtraOption k v : provided (WithExtraOption k v)
| provided_OnDelta fn : provided (WithOnDelta fn).

End FunctionalOptions.

(* ===================================================================== *)
(** ** Package [utils]: drawing                                          *)
(* ===================================================================== *)

(** [image.Rectangle]: the points with [MinX <= x < MaxX] and
    [MinY <= y < MaxY]. *)
Record Rectangle := {
  MinX : Z;
  MinY : Z;
  MaxX : Z;
  MaxY : Z
}.

(** The values [lo], [lo+1], ..., [hi] a counting loop visits. *)
Definition rangeZ (lo hi : Z) : list Z :=
  map (fun i => (lo + Z.of_nat i)%Z) (seq 0 (Z.to_nat (hi - lo + 1))).

Section Drawing.

(** [color.Color] values, the pixels of an [image.RGBA], and the
    conversion [color.RGBAModel.Convert] that [Set] applies. *)
Variable Color : Type.
Variable Pixel : Type.
Variable convert : Color -> Pixel.

(** [image.RGBA]: its bounds and the pixel at each point. *)
Record RGBAImage := {
  Rect : Rectangle;
  Pix : Z -> Z -> Pixel
}.

(** The closure [set] of [DrawRect]. *)
Definition set (img : RGBAImage) (c : Color) (x y : Z) : RGBAImage :=
  let b := Rect img in
  if (x <? MinX b)%Z || (x >=? MaxX b)%Z || (y <? MinY b)%Z || (y >=? MaxY b)%Z
  then img
  else {| Rect := Rect img;
          Pix := fun x' y' => if (x' =? x)%Z && (y' =? y)%Z then convert c
                              else Pix img x' y' |}.

(** [DrawRect].  A loop [for x := x1; x <= x2; x++] whose bound is the
    largest [int] never ends: [None] is a call that does not return. *)
Definition DrawRect (img : RGBAImage) (x1 y1 x2 y2 : Z) (c : Color) (thickness : Z)
  : option RGBAImage :=
  if (0 <? thickness)%Z
     && (((x1 <=? x2)%Z && (x2 =? maxInt)%Z) || ((y1 <=? y2)%Z && (y2 =? maxInt)%Z))
  then None
  else
    Some
      (fold_left
         (fun img t =>
            let img :=
              fold_left
                (fun img x => set (set img c x (wrapInt (y1 + t))) c x (wrapInt (y2 - t)))
                (rangeZ x1 x2) img in
            fold_left
              (fun img y => set (set img c (wrapInt (x1 + t)) y) c (wrapInt (x2 - t)) y)
              (rangeZ y1 y2) img)
         (rangeZ 0 (thickness - 1)) img).

(** The points of the outline: on one of the [thickness] nested
    rectangles. *)
Definition onOutline (x1 y1 x2 y2 thickness x y : Z) : Prop :=
  exists t, (0 <= t < thickness)%Z
            /\ (((x1 <= x <= x2)%Z /\ (y = wrapInt (y1 + t) \/ y = wrapInt (y2 - t)))
                \/ ((y1 <= y <= y2)%Z /\ (x = wrapInt (x1 + t) \/ x = wrapInt (x2 - t)))).

Definition inRect (b : Rectangle) (x y : Z) : Prop :=
  (MinX b <= x < MaxX b)%Z /\ (MinY b <= y < MaxY b)%Z.

(** [img] is [img0] with the points of [S] inside the bounds set to the
    colour [c], and nothing else changed. *)
Definition painted (img0 img : RGBAImage) (c : Color) (S : Z -> Z -> Prop) : Prop :=
  Rect img = Rect img0
  /\ forall x y,
       (inRect (Rect img0) x y /\ S x y -> Pix img x y = convert c)
       /\ (~ (inRect (Rect img0) x y /\ S x y) -> Pix img x y = Pix img0 x y).

End Drawing.

(* ===================================================================== *)
(** ** Package [cmd]: colours and the exported boxes                     *)
(* ===================================================================== *)

(** [color.RGBA]. *)
Module color.
Record RGBA := { R : Z; G : Z; B : Z; A : Z }.
End color.

(** [lower] of [strconv]: the byte with bit 5 set. *)
Definition lower (c : byte) : N := N.lor (Byte.to_N c) 32.

(** The value of a digit in [strconv.ParseUint]. *)
Definition digitVal (c : byte) : option Z :=
  if byteIn "0" "9" c then Some (Z.of_N (Byte.to_N c) - 48)%Z
  else if (97 <=? lower c)%N && (lower c <=? 122)%N then Some (Z.of_N (lower c) - 97 + 10)%Z
  else None.

(** The loop of [strconv.ParseUint(h, 16, 8)]: a byte that is no digit
    below the base is a syntax error, a value above 255 a range error.
    The loop goes on only while [n] is at most 255, so its test of [n]
    against the 64-bit cutoff never fires and is left out. *)
Fixpoint parseUintLoop (s : bytes) (n : Z) : option Z :=
  match s with
  | [] => Some n
  | c :: r =>
      match digitVal c with
      | None => None
      | Some d =>
          if (d >=? 16)%Z then None
          else
            let n1 := (n * 16 + d)%Z in
            if (n1 >? 255)%Z then None else parseUintLoop r n1
      end
  end.

(** [hexToByte] of [parseHexColor]. *)
Definition hexToByte (h : bytes) : option Z :=
  match h with
  | [] => None
  | _ :: _ => parseUintLoop h 0
  end.

(** [s[i:j]]. *)
Definition slice (s : bytes) (i j : nat) : bytes := firstn (j - i) (skipn i s).

(** [parseHexColor]; [None] is the result [false]. *)
Definition parseHexColor (s : bytes) : option color.RGBA :=
  let s := TrimSpace s in
  if isEmpty s then None
  else
    let s := TrimPrefix s (bs "#") in
    if negb (length s =? 6)%nat && negb (length s =? 8)%nat then None
    else
      match hexToByte (slice s 0 2) with
      | None => None
      | Some r =>
          match hexToByte (slice s 2 4) with
          | None => None
          | Some g =>
              match hexToByte (slice s 4 6) with
              | None => None
              | Some b =>
                  if (length s =? 8)%nat then
                    match hexToByte (slice s 6 8) with
                    | None => None
                    | Some a => Some {| color.R := r; color.G := g; color.B := b; color.A := a |}
                    end
                  else Some {| color.R := r; color.G := g; color.B := b; color.A := 255 |}
              end
          end
      end.

Definition defaultColorsHex : list bytes :=
  [bs "#00FF00"; bs "#FF0000"; bs "#0000FF"; bs "#FFD700"; bs "#800080";
   bs "#00FFFF"; bs "#FF69B4"; bs "#008080"; bs "#FFA500"; bs "#4B0082";
   bs "#ADFF2F"; bs "#A52A2A"; bs "#1E90FF"; bs "#DC143C"; bs "#7FFFD4";
   bs "#8B4513"; bs "#4682B4"; bs "#FF4500"; bs "#708090"; bs "#D2691E"].

(** [defaultColorsHex[i]] parsed; the outer [None] is the panic of an
    index out of range. *)
Definition paletteAt (i : Z) : option (option color.RGBA) :=
  if (i <? 0)%Z then None
  else
    match nth_error defaultColorsHex (Z.to_nat i) with
    | None => None
    | Some hex => Some (parseHexColor hex)
    end.

(** [colorFromPaletteIndex]; Go's [%] is [Z.rem]. *)
Definition colorFromPaletteIndex (i : Z) : option (option color.RGBA) :=
  let n := Z.of_nat (length defaultColorsHex) in
  if (n =? 0)%Z then Some None
  else paletteAt (Z.rem i n).

(** [colorFromPaletteHash]: the bytes of [s] are summed in an [int]. *)
Definition colorFromPaletteHash (s : bytes) : option (option color.RGBA) :=
  let n := Z.of_nat (length defaultColorsHex) in
  if (n =? 0)%Z then Some None
  else
    let sum := fold_left (fun sum c => wrapInt (sum + Z.of_N (Byte.to_N c))) s 0%Z in
    paletteAt (Z.rem sum n).

(** The box [runCmd] exports and draws: the corners ordered, then
    clamped to the bounds of the image. *)
Definition exportBox (x1 y1 x2 y2 : Z) (bounds : Rectangle) : Z * Z * Z * Z :=
  let '(x1, x2) := if (x1 >? x2)%Z then (x2, x1) else (x1, x2) in
  let '(y1, y2) := if (y1 >? y2)%Z then (y2, y1) else (y1, y2) in
  let x1 := Clamp x1 (MinX bounds) (wrapInt (MaxX bounds - 1)) in
  let x2 := Clamp x2 (MinX bounds) (wrapInt (MaxX bounds - 1)) in
  let y1 := Clamp y1 (MinY bounds) (wrapInt (MaxY bounds - 1)) in
  let y2 := Clamp y2 (MinY bounds) (wrapInt (MaxY bounds - 1)) in
  (x1, y1, x2, y2).

(** Two upper-case hexadecimal digits of a byte value, and a colour
    written with them. *)
Definition hex2 (v : Z) : bytes :=
  [upperhex (Z.to_N v / 16); upperhex (Z.to_N v mod 16)].

Definition isHexDigit (c : byte) : bool :=
  byteIn "0" "9" c || byteIn "a" "f" c || byteIn "A" "F" c.

(** An ASCII byte that is no white space. *)
Definition plain (c : byte) : bool :=
  (Byte.to_N c <? 128)%N && negb (asciiSpace c).

(** One callback call per pair of content and thinking, in order, up to
    the first call that returns an error. *)
Fixpoint deliverPairs (St : Type) (frags : list (bytes * bytes)) (onDelta : callback St)
  : M St (option error) :=
  match frags with
  | [] => ret None
  | (content, thinking) :: rest =>
      err <- call onDelta content thinking ;;
      match err with
      | Some e => ret (Some e)
      | None => deliverPairs rest onDelta
      end
  end.

(* ===================================================================== *)
(** ** Package [utils]: image files                                      *)
(* ===================================================================== *)

(** The scan of [filepath.Ext], from the end of the path towards its
    start ([r] is what is left of the reversed path, [acc] what was
    passed): it stops at the first dot, and gives up at a separator.  The
    separator is that of Unix. *)
Fixpoint extScan (r : bytes) (acc : bytes) : bytes :=
  match r with
  | [] => []
  | c :: r' =>
      if Byte.eqb c "/" then []
      else if Byte.eqb c "." then c :: acc
      else extScan r' (c :: acc)
  end.

(** [filepath.Ext]. *)
Definition Ext (path : bytes) : bytes := extScan (rev path) [].

Section ImageFiles.

Variable P : Platform.

Definition IsImageFile (p : bytes) : bool :=
  let ext := ToLower P (Ext p) in
  existsb (bytes_eqb ext)
          [bs ".jpg"; bs ".jpeg"; bs ".png"; bs ".bmp"; bs ".gif"; bs ".webp"].

End ImageFiles.

(** *** Colours of labels *)

Definition white : color.RGBA :=
  {| color.R := 255; color.G := 255; color.B := 255; color.A := 255 |}.

Definition rgb (r g b : Z) : color.RGBA :=
  {| color.R := r; color.G := g; color.B := b; color.A := 255 |}.

Definition namedColors : list (bytes * color.RGBA) :=
  [(bs "red", rgb 255 0 0); (bs "green", rgb 0 255 0); (bs "blue", rgb 0 0 255);
   (bs "yellow", rgb 255 255 0); (bs "magenta", rgb 255 0 255); (bs "cyan", rgb 0 255 255);
   (bs "orange", rgb 255 165 0); (bs "purple", rgb 128 0 128); (bs "pink", rgb 255 105 180);
   (bs "white", rgb 255 255 255); (bs "black", rgb 0 0 0); (bs "darkgreen", rgb 0 128 0)].

(** [namedColors[k]]. *)
Fixpoint namedColor (m : list (bytes * color.RGBA)) (k : bytes) : option color.RGBA :=
  match m with
  | [] => None
  | (k', c) :: r => if bytes_eqb k' k then Some c else namedColor r k
  end.

Section LabelColours.

Variable P : Platform.

(** [colorFromColorsAt]; a nil slice is the empty list, and [None] the
    result [false]. *)
Definition colorFromColorsAt (colors : list bytes) (i : Z) : option color.RGBA :=
  if (i <? 0)%Z || (i >=? Z.of_nat (length colors))%Z then None
  else
    match nth_error colors (Z.to_nat i) with
    | None => None
    | Some entry =>
        let v := TrimSpace entry in
        match parseHexColor v with
        | Some clr => Some clr
        | None => namedColor namedColors (ToLower P v)
        end
    end.

(** The loop of [colorForLabel] over the classes from index [i] on, and
    the fallback after it.  The outer [None] is a panic of the palette
    lookup. *)
Fixpoint classLoop (lower : bytes) (colors : list bytes) (classes : list bytes) (i : Z)
  : option color.RGBA :=
  match classes with
  | [] =>
      match colorFromPaletteHash lower with
      | None => None
      | Some (Some clr) => Some clr
      | Some None => Some white
      end
  | c :: rest =>
      if negb (bytes_eqb (ToLower P (TrimSpace c)) lower) then classLoop lower colors rest (i + 1)
      else
        match colorFromColorsAt colors i with
        | Some clr => Some clr
        | None =>
            match colorFromPaletteIndex i with
            | None => None
            | Some (Some clr) => Some clr
            | Some None => Some white
            end
        end
  end.

Definition colorForLabel (label : bytes) (classes colors : list bytes) : option color.RGBA :=
  if isEmpty (TrimSpace label) then Some white
  else classLoop (ToLower P (TrimSpace label)) colors classes 0.

End LabelColours.

(* ===================================================================== *)
(** ** The decimal library, by the numbers its values denote             *)
(* ===================================================================== *)

(** Truncation towards zero, and rounding half away from zero. *)
Definition truncate (q : Q) : Z :=
  if Qle_bool 0 q then Qfloor q else Qceiling q.

Definition roundHalfAway (q : Q) : Z :=
  if Qle_bool 0 q then Qfloor (q + (1 # 2))%Q else Qceiling (q - (1 # 2))%Q.

(** [decimal.DivisionPrecision]: the digits after the decimal point that
    a quotient keeps. *)
Definition DivisionPrecision : Z := 16.

(** A number rounded to [DivisionPrecision] digits after the point. *)
Definition roundDiv (q : Q) : Q :=
  (inject_Z (roundHalfAway (q * inject_Z (10 ^ DivisionPrecision)))
   / inject_Z (10 ^ DivisionPrecision))%Q.

Section DecimalMeaning.

Variable Decimal : Type.
Variable NewFromString : bytes -> Decimal.
Variable NewFromInt : Z -> Decimal.
Variable Mul : Decimal -> Decimal -> Decimal.
Variable Div : Decimal -> Decimal -> Decimal.
Variable IntPart : Decimal -> Z.

(** The number a decimal stands for. *)
Variable value : Decimal -> Q.



End DecimalMeaning.

(** The decimal operations on the rationals themselves, with a parser of
    plain decimal integers, for the worked runs. *)
Module Rounded.

Definition parse (s : bytes) : Q := inject_Z (fst (Sample.parseInt s)).
Definition div (a b : Q) : Q := roundDiv (a / b)%Q.

Definition denormalize : bytes -> bytes -> bytes -> bytes -> Z -> Z -> Z -> option (Z * Z * Z * Z) :=
  DenormalizeBbox parse inject_Z Qmult div truncate.


End Rounded.

Unset Implicit Arguments.

(* ===================================================================== *)
(** ** Properties of the byte-string functions                           *)
(* ===================================================================== *)

Lemma byte_eqb_refl (c : byte) : Byte.eqb c c = true.
Proof. now apply Byte.byte_dec_lb. Qed.

Lemma byte_eqb_eq (a b : byte) : Byte.eqb a b = true <-> a = b.
Proof. split; [apply Byte.byte_dec_bl | apply Byte.byte_dec_lb]. Qed.

Lemma bytes_eqb_eq (a b : bytes) : bytes_eqb a b = true <-> a = b.
Proof.
  revert b; induction a as [|x a IH]; intros [|y b]; simpl; split; intro H;
    try reflexivity; try discriminate.
  - apply andb_prop in H as [Hx Hab].
    apply byte_eqb_eq in Hx. apply IH in Hab. now subst.
  - injection H as -> ->. rewrite byte_eqb_refl. now apply IH.
Qed.

Lemma bytes_eqb_neq (a b : bytes) : bytes_eqb a b = false <-> a <> b.
Proof.
  split; intro H.
  - intro E. apply bytes_eqb_eq in E. congruence.
  - destruct (bytes_eqb a b) eqn:E; [|reflexivity].
    apply bytes_eqb_eq in E. contradiction.
Qed.

Lemma isEmpty_nil (s : bytes) : isEmpty s = true <-> s = [].
Proof. destruct s; simpl; split; congruence. Qed.

Lemma isEmpty_nil' (s : bytes) : s <> [] -> isEmpty s = false.
Proof. destruct s; [contradiction | reflexivity]. Qed.

Lemma HasPrefix_app (s p : bytes) : HasPrefix s p = true -> exists r, s = p ++ r.
Proof.
  revert s; induction p as [|c p IH]; intros s H.
  - now exists s.
  - destruct s as [|d s]; simpl in H; [discriminate|].
    apply andb_prop in H as [Hc Hp]. apply byte_eqb_eq in Hc. subst d.
    destruct (IH _ Hp) as [r ->]. now exists r.
Qed.

Lemma HasSuffix_app (s suf : bytes) : HasSuffix s suf = true -> exists r, s = r ++ suf.
Proof.
  unfold HasSuffix. intro H. apply HasPrefix_app in H as [r Hr].
  exists (rev r). rewrite <- (rev_involutive s), Hr, rev_app_distr.
  now rewrite rev_involutive.
Qed.

(** A string whose last byte is outside the cutset is left as it is. *)
Lemma TrimRight_last (s cutset : bytes) (c : byte) :
  inCutset cutset c = false -> TrimRight (s ++ [c]) cutset = s ++ [c].
Proof.
  intro H. unfold TrimRight. rewrite rev_app_distr. simpl. rewrite H.
  change (c :: rev s) with (rev [c] ++ rev s).
  now rewrite <- rev_app_distr, rev_involutive.
Qed.

(* ===================================================================== *)
(** ** Package [utils]: the bounding box                                 *)
(* ===================================================================== *)

(** *** Rounding respects the equality of rationals *)





Section UtilsFacts.

Variable Decimal : Type.
Variable NewFromString : bytes -> Decimal.
Variable NewFromInt : Z -> Decimal.
Variable Mul : Decimal -> Decimal -> Decimal.
Variable Div : Decimal -> Decimal -> Decimal.
Variable IntPart : Decimal -> Z.

Local Open Scope Z_scope.

Lemma Clamp_bounds (v lo hi : Z) : lo <= hi -> lo <= Clamp v lo hi <= hi.
Proof.
  intro H. unfold Clamp.
  destruct (Z.ltb_spec v lo); [lia|].
  destruct (Z.gtb_spec v hi); lia.
Qed.

Lemma Clamp_mono (a b lo hi : Z) : a <= b -> lo <= hi -> Clamp a lo hi <= Clamp b lo hi.
Proof.
  intros Hab H. unfold Clamp.
  destruct (Z.ltb_spec a lo), (Z.ltb_spec b lo); try lia;
    destruct (Z.gtb_spec a hi), (Z.gtb_spec b hi); lia.
Qed.

Lemma wrapInt_inInt (z : Z) : inInt z -> wrapInt z = z.
Proof.
  unfold inInt, minInt, maxInt, wrapInt. intro H.
  rewrite Z.mod_small; lia.
Qed.

(** The swap of [DenormalizeBbox] orders a pair. *)
Lemma swap_orders (a b : Z) :
  (if a >? b then (b, a) else (a, b)) = (Z.min a b, Z.max a b).
Proof. destruct (Z.gtb_spec a b); f_equal; lia. Qed.



End UtilsFacts.

(** The repository's own test cases, on the sample decimal instance. *)
Example DenormalizeBbox_RectFull :
  Sample.denormalize (bs "0") (bs "0") (bs "999") (bs "999") 1920 1080 1000
  = Some (0, 0, 1918, 1078)%Z.
Proof. vm_compute. reflexivity. Qed.

Example DenormalizeBbox_OrderSwap :
  Sample.denormalize (bs "800") (bs "300") (bs "200") (bs "100") 1000 500 1000
  = Some (200, 50, 800, 150)%Z.
Proof. vm_compute. reflexivity. Qed.



(** The run of the witness in numbers: 750 and 250 of a thousand on 640
    pixels, 100 and 900 of a thousand on 480. *)
Example DenormalizeBbox_scales :
  Rounded.denormalize (bs "750") (bs "100") (bs "250") (bs "900") 640 480 1000
  = Some (160, 48, 480, 432)%Z.
Proof. vm_compute. reflexivity. Qed.

(* ===================================================================== *)
(** ** The Gemini client: endpoint, authentication, error classification *)
(* ===================================================================== *)

Section RequestFacts.

Variable St : Type.
Variable P : Platform.

Lemma HasSuffix_self (s suf : bytes) : HasSuffix (s ++ suf) suf = true.
Proof.
  unfold HasSuffix. rewrite rev_app_distr.
  induction (rev suf) as [|c r IH]; simpl; [now destruct (rev s)|].
  now rewrite byte_eqb_refl.
Qed.

(** A normalised base URL ends in a version segment. *)
Lemma normalizeGeminiBaseURL_versioned (base : bytes) :
  versioned (normalizeGeminiBaseURL base) = true.
Proof.
  unfold normalizeGeminiBaseURL.
  destruct (isEmpty (TrimSpace base)); [vm_compute; reflexivity|].
  fold (versioned (TrimRight (TrimSpace base) (bs "/"))).
  destruct (versioned (TrimRight (TrimSpace base) (bs "/"))) eqn:E; [exact E|].
  unfold versioned. rewrite (HasSuffix_self _ (bs "/v1beta")).
  now rewrite orb_true_r.
Qed.

(** A string that ends in a version segment has no trailing slash. *)
Lemma versioned_TrimRight (b : bytes) :
  versioned b = true -> TrimRight b (bs "/") = b.
Proof.
  unfold versioned. intro H.
  apply orb_prop in H as [H|H]; [apply orb_prop in H as [H|H]|];
    apply HasSuffix_app in H as [r ->].
  - change (r ++ bs "/v1") with (r ++ bs "/v" ++ ["1"%byte]).
    rewrite app_assoc. now apply TrimRight_last.
  - change (r ++ bs "/v1beta") with (r ++ bs "/v1bet" ++ ["a"%byte]).
    rewrite app_assoc. now apply TrimRight_last.
  - change (r ++ bs "/v1beta1") with (r ++ bs "/v1beta" ++ ["1"%byte]).
    rewrite app_assoc. now apply TrimRight_last.
Qed.

Lemma NewGemini_baseURL (cfg : ProviderConfig) (g : Gemini) :
  NewGemini P cfg = inr g -> baseURL g = normalizeGeminiBaseURL (BaseURL cfg).
Proof.
  unfold NewGemini. intro H.
  destruct (isEmpty (TrimSpace (APIKey cfg))); [discriminate|].
  match type of H with (if ?c then _ else _) = _ => destruct c end; [discriminate|].
  now injection H as <-.
Qed.

(** C9, as the code has it.  A client built by [NewGemini] answers a
    model that is blank after trimming with a configuration error, and any
    other model with the normalised base URL, ["/models/"], the
    path-escaped trimmed model, and the streaming suffix with the SSE
    query or the single-shot suffix with no query.  Normalisation trims
    surrounding white space; a blank base gives the default base URL; any
    other base loses its trailing slashes, is kept when it then ends in
    [/v1], [/v1beta] or [/v1beta1], and gets [/v1beta] appended
    otherwise. *)
Theorem buildEndpoint_shape :
  forall (cfg : ProviderConfig) (g : Gemini) (model : bytes) (streaming : bool),
    NewGemini P cfg = inr g ->
    buildEndpoint g model streaming =
      (if isEmpty (TrimSpace model)
       then inl (errorString (bs "providers/gemini: model is required"))
       else inr (normalizeGeminiBaseURL (BaseURL cfg) ++ bs "/models/"
                 ++ PathEscape (TrimSpace model)
                 ++ (if streaming then geminiStreamingPath ++ bs "?alt=sse"
                     else geminiNonStreamPath)))
    /\ (forall base : bytes,
          let b := TrimRight (TrimSpace base) (bs "/") in
          (TrimSpace base = [] -> normalizeGeminiBaseURL base = defaultGeminiBaseURL)
          /\ (TrimSpace base <> [] -> versioned b = true -> normalizeGeminiBaseURL base = b)
          /\ (TrimSpace base <> [] -> versioned b = false ->
              normalizeGeminiBaseURL base = b ++ bs "/v1beta")).
Proof.
  intros cfg g model streaming Hg. split.
  - unfold buildEndpoint. destruct (isEmpty (TrimSpace model)); [reflexivity|].
    rewrite (NewGemini_baseURL cfg g Hg).
    rewrite (versioned_TrimRight _ (normalizeGeminiBaseURL_versioned _)).
    destruct streaming; [|now rewrite app_nil_r]. reflexivity.
  - intros base b. unfold normalizeGeminiBaseURL.
    fold (versioned (TrimRight (TrimSpace base) (bs "/"))). fold b.
    repeat split.
    + intros ->. reflexivity.
    + intros Hne Hv. destruct (TrimSpace base); [contradiction|]. simpl. now rewrite Hv.
    + intros Hne Hv. destruct (TrimSpace base); [contradiction|]. simpl. now rewrite Hv.
Qed.

(** C5.  Every request [newRequest] builds places the key exactly once:
    in bearer mode ([auth_token]) the Authorization header is
    ["Bearer " + key] and the URL is the endpoint as given; in any other
    mode there is no Authorization header and the URL is the endpoint
    followed by [?key=] (or [&key=] when the endpoint already has a
    query) and the query-escaped key. *)
Theorem newRequest_auth_placement :
  forall (g : Gemini) (endpoint body : bytes) (req : Request),
    newRequest P g endpoint body = inr req ->
    (authType g = bs "auth_token"
     /\ headerGet (Header req) (bs "Authorization") = Some (bs "Bearer " ++ apiKey g)
     /\ URL req = endpoint)
    \/
    (authType g <> bs "auth_token"
     /\ headerGet (Header req) (bs "Authorization") = None
     /\ URL req = endpoint ++ (if Contains endpoint (bs "?") then bs "&key=" else bs "?key=")
                  ++ QueryEscape (apiKey g)).
Proof.
  intros g endpoint body req. unfold newRequest, attachAPIKey.
  destruct (bytes_eqb (authType g) (bs "auth_token")) eqn:Ea.
  - apply bytes_eqb_eq in Ea.
    destruct (urlParseError P endpoint); [discriminate|].
    intro H. injection H as <-. left.
    split; [exact Ea | split; reflexivity].
  - apply bytes_eqb_neq in Ea.
    destruct (Contains endpoint (bs "?"));
      match goal with |- context [urlParseError P ?u] => destruct (urlParseError P u) end;
      try discriminate; intro H; injection H as <-; right;
      (split; [exact Ea | split; reflexivity]).
Qed.

(** C8.  [checkGeminiResponse] returns no error and reads nothing for a
    status below 400; from 400 on it reads the body and returns the
    structured error of the envelope (code, status token and message)
    when the body parses as one, and otherwise the generic error made of
    the status code and the trimmed body. *)
Theorem checkGeminiResponse_classifies :
  forall (resp : Response) (s : St),
    let body := concat (chunks (resp_Body resp)) in
    let generic :=
      errorString (bs "providers/gemini: http " ++ itoa (StatusCode resp) ++ bs ": "
                   ++ TrimSpace body) in
    ((StatusCode resp < 400)%Z -> checkGeminiResponse P resp s = (None, s, []))
    /\ ((400 <= StatusCode resp)%Z ->
        forall p : geminiErrorPayload,
          jsonUnmarshalError P body = inr {| env_Error := Some p |} ->
          fst (fst (checkGeminiResponse P resp s)) = Some (upstreamError p))
    /\ ((400 <= StatusCode resp)%Z ->
        (forall p, jsonUnmarshalError P body <> inr {| env_Error := Some p |}) ->
        fst (fst (checkGeminiResponse P resp s)) = Some generic).
Proof.
  intros resp s body generic. unfold checkGeminiResponse, httpStatusClientErr.
  repeat split.
  - intro H. apply Z.ltb_lt in H. now rewrite H.
  - intros H p Hp. apply Z.ltb_ge in H. rewrite H.
    unfold bind, ReadAll. fold body. rewrite Hp. reflexivity.
  - intros H Hp. apply Z.ltb_ge in H. rewrite H.
    unfold bind, ReadAll. fold body.
    destruct (jsonUnmarshalError P body) as [e|[[p|]]] eqn:E; try reflexivity.
    exfalso. now apply (Hp p).
Qed.

End RequestFacts.

Lemma buildEndpoint_shape_witness :
  NewGemini Sample.platform
            {| APIKey := bs "k"; BaseURL := bs " https://example.test/api/ "; AuthType := [] |}
  = inr {| client := Some {| Timeout := 120 |};
           baseURL := bs "https://example.test/api/v1beta";
           apiKey := bs "k"; authType := bs "api_key" |}
  /\ buildEndpoint {| client := Some {| Timeout := 120 |};
                      baseURL := bs "https://example.test/api/v1beta";
                      apiKey := bs "k"; authType := bs "api_key" |}
                   (bs " gemini 2/pro ") true
     = inr (bs "https://example.test/api/v1beta/models/gemini%202%2Fpro:streamGenerateContent?alt=sse").
Proof.
  split; [vm_compute; reflexivity|].
  refine (eq_trans
            (proj1 (buildEndpoint_shape Sample.platform
                      {| APIKey := bs "k"; BaseURL := bs " https://example.test/api/ ";
                         AuthType := [] |} _ (bs " gemini 2/pro ") true eq_refl)) _).
  vm_compute. reflexivity.
Defined.

(** The specification's sentence read literally fails on a blank model (no
    endpoint at all),
    on a padded model (it is trimmed before it is escaped) and on a blank
    or padded base URL. *)
Lemma buildEndpoint_counterexample :
  buildEndpoint (Sample.gemini (bs "api_key")) [] true
  = inl (errorString (bs "providers/gemini: model is required"))
  /\ buildEndpoint (Sample.gemini (bs "api_key")) (bs " m ") false
     = inr (bs "https://example.test/v1beta/models/m:generateContent")
  /\ PathEscape (bs " m ") = bs "%20m%20"
  /\ normalizeGeminiBaseURL [] = bs "https://generativelanguage.googleapis.com/v1beta"
  /\ normalizeGeminiBaseURL (bs " http://h/ ") = bs "http://h/v1beta".
Proof. vm_compute. repeat split; reflexivity. Qed.

Lemma newRequest_auth_placement_witness :
  newRequest Sample.platform (Sample.gemini (bs "api_key")) (bs "https://h/m:x?alt=sse") (bs "{}")
  = inr {| Method := bs "POST";
           URL := bs "https://h/m:x?alt=sse&key=k+1";
           Header := [(bs "Content-Type", bs "application/json");
                      (bs "User-Agent", browserUserAgent)];
           req_Body := bs "{}" |}
  /\ (bs "api_key" <> bs "auth_token"
      /\ headerGet [(bs "Content-Type", bs "application/json");
                    (bs "User-Agent", browserUserAgent)] (bs "Authorization") = None).
Proof.
  split; [vm_compute; reflexivity|].
  destruct (newRequest_auth_placement Sample.platform (Sample.gemini (bs "api_key"))
              (bs "https://h/m:x?alt=sse") (bs "{}") _ eq_refl) as [[H _]|(H1 & H2 & _)].
  - vm_compute in H. discriminate H.
  - split; [exact H1|exact H2].
Defined.

Lemma checkGeminiResponse_classifies_witness :
  (400 <= 429)%Z /\
  fst (fst (checkGeminiResponse Sample.platform
              {| StatusCode := 429;
                 resp_Body := {| chunks := [bs "!quota"]; final := io_EOF |} |}
              (@nil bytes)))
  = Some (upstreamError {| Code := 429; Status := bs "RESOURCE_EXHAUSTED";
                           Message := bs "quota" |}).
Proof.
  split; [lia|].
  apply (proj1 (proj2 (checkGeminiResponse_classifies (list bytes) Sample.platform
                         {| StatusCode := 429;
                            resp_Body := {| chunks := [bs "!quota"]; final := io_EOF |} |}
                         [])));
    [simpl; lia | reflexivity].
Defined.

(* ===================================================================== *)
(** ** Dispatch, model check and response format                         *)
(* ===================================================================== *)

Section DispatchFacts.

Variable St : Type.
Variable P : Platform.
Variable formatOpenAIAPIError : bytes -> error -> error.

Local Notation callback := (callback St).

Lemma deliver_app (a b : list bytes) (onDelta : callback) (s : St) :
  deliver (a ++ b) onDelta s =
    (let '(r, s1, t1) := deliver a onDelta s in
     match r with
     | Some e => (Some e, s1, t1)
     | None => let '(r2, s2, t2) := deliver b onDelta s1 in (r2, s2, t1 ++ t2)
     end).
Proof.
  revert s. induction a as [|f a IH]; intro s; simpl.
  - unfold ret. now destruct (deliver b onDelta s) as [[r2 s2] t2].
  - unfold bind, call.
    destruct (onDelta f [] s) as [[e|] s1].
    + reflexivity.
    + rewrite IH. destruct (deliver a onDelta s1) as [[[e|] s2] t2]; simpl.
      * reflexivity.
      * now destruct (deliver b onDelta s2) as [[r3 s3] t3].
Qed.

Lemma emitParts_deliver (parts : list geminiPart) (onDelta : callback) (s : St) :
  emitParts parts onDelta s
  = deliver (filter (fun t => negb (isEmpty t)) (map Text parts)) onDelta s.
Proof.
  revert s. induction parts as [|p parts IH]; intro s; simpl; [reflexivity|].
  destruct (isEmpty (Text p)); simpl; [apply IH|].
  unfold bind, call. destruct (onDelta (Text p) [] s) as [[e|] s1]; [reflexivity|].
  now rewrite IH.
Qed.

(** [emitGeminiCandidates] is one callback call per text fragment. *)
Lemma emitGeminiCandidates_deliver (cands : list geminiCandidate) (onDelta : callback) (s : St) :
  emitGeminiCandidates cands onDelta s = deliver (textFragments cands) onDelta s.
Proof.
  revert s. induction cands as [|c cands IH]; intro s; simpl; [reflexivity|].
  unfold textFragments in *. simpl. rewrite deliver_app.
  unfold bind. rewrite emitParts_deliver.
  destruct (deliver _ onDelta s) as [[[e|] s1] t1]; simpl.
  - now rewrite app_nil_r.
  - rewrite IH. now destruct (deliver _ onDelta s1) as [[r2 s2] t2].
Qed.

(** The calls [deliver] makes: the fragments in order with an empty
    thinking argument, all of them unless a call returned an error. *)
Lemma deliver_calls (frags : list bytes) (onDelta : callback) (s : St) :
  exists k,
    deltas (snd (deliver frags onDelta s)) = map (fun f => (f, [])) (firstn k frags)
    /\ length (snd (deliver frags onDelta s)) = k
    /\ (fst (fst (deliver frags onDelta s)) = None -> k = length frags).
Proof.
  revert s. induction frags as [|f frags IH]; intro s; simpl.
  - exists 0. auto.
  - unfold bind, call. destruct (onDelta f [] s) as [[e|] s1].
    + exists 1. simpl. repeat split. discriminate.
    + destruct (IH s1) as (k & Hd & Hl & Hk).
      destruct (deliver frags onDelta s1) as [[r2 s2] t2]. simpl in *.
      exists (S k). simpl. rewrite Hd, Hl. repeat split. intro H. now rewrite Hk.
Qed.

(** C2.  [dispatchSSEData] trims the payload; an empty payload and
    ["[DONE]"] return no error without calling the callback; any other
    payload is decoded as one response object; a decoding failure and an
    embedded error are returned without a callback call; otherwise the
    callback is called once per non-empty text part, in candidate order
    and part order, with an empty thinking argument (up to a call that
    returns an error). *)
Theorem dispatchSSEData_spec :
  forall (payload : bytes) (onDelta : callback) (s : St),
    let trimmed := TrimSpace payload in
    let run := dispatchSSEData P payload onDelta s in
    (trimmed = [] \/ trimmed = bs "[DONE]" -> run = (None, s, [EvDispatch payload]))
    /\ (trimmed <> [] -> trimmed <> bs "[DONE]" ->
        match jsonUnmarshalResponse P trimmed with
        | inl err =>
            run = (Some (wrapError (bs "providers/gemini: decode stream chunk: ") err),
                   s, [EvDispatch payload])
        | inr chunk =>
            match resp_Error chunk with
            | Some e => run = (Some (upstreamError e), s, [EvDispatch payload])
            | None =>
                let frags := textFragments (Candidates chunk) in
                run = (let '(r, s', t) := deliver frags onDelta s in
                       (r, s', EvDispatch payload :: t))
                /\ exists k,
                    deltas (snd run) = map (fun f => (f, [])) (firstn k frags)
                    /\ length (snd run) = S k
                    /\ (fst (fst run) = None -> k = length frags)
            end
        end).
Proof.
  intros payload onDelta s trimmed run. subst run. unfold dispatchSSEData.
  fold trimmed. split.
  - intros [E|E]; rewrite E; reflexivity.
  - intros Hne Hdone.
    apply isEmpty_nil' in Hne. apply bytes_eqb_neq in Hdone.
    rewrite Hne, Hdone. simpl.
    destruct (jsonUnmarshalResponse P trimmed) as [err|chunk]; [reflexivity|].
    destruct (resp_Error chunk); [reflexivity|].
    unfold bind, emit. rewrite emitGeminiCandidates_deliver.
    destruct (deliver_calls (textFragments (Candidates chunk)) onDelta s) as (k & Hd & Hl & Hk).
    destruct (deliver _ onDelta s) as [[r s'] t]. simpl in *.
    split; [reflexivity|]. exists k. now rewrite Hl.
Qed.

(** The Ollama request carries a format whatever the options say. *)
Lemma ensureFormat_nonempty (f : bytes) : ensureFormat f <> [].
Proof. destruct f; discriminate. Qed.

Lemma ollamaRequest_Format (opts : ChatOptions St) :
  api_Format (ollamaRequest opts) = ensureFormat (Format opts).
Proof. reflexivity. Qed.

(** With the suppress-format flag set, the Gemini generation config has
    neither a response MIME type nor a schema, and the OpenAI parameters
    have no response format. *)
Lemma buildGenerationConfig_suppressed (opts : ChatOptions St) :
  NoResponseFormat opts = true ->
  match buildGenerationConfig P opts with
  | None => True
  | Some cfg => ResponseMimeType cfg = [] /\ ResponseSchema cfg = anyNil
  end.
Proof.
  intro H. unfold buildGenerationConfig. rewrite H.
  match goal with |- context [cfg_isEmpty ?c] => destruct (cfg_isEmpty c) end;
    [exact I | split; reflexivity].
Qed.

Lemma openaiParams_suppressed (opts : ChatOptions St) :
  NoResponseFormat opts = true -> ResponseFormat (openaiParams P opts) = formatUnset.
Proof. intro H. unfold openaiParams. simpl. now rewrite H. Qed.

(** C6, as the code has it.  The Gemini client answers a model that is
    empty (or blank) with a configuration error, without any event: no
    request is built or sent and the callback is not called.  The Ollama
    and OpenAI clients do not look at the model: with a client in place
    their first step hands the request to the SDK. *)
Theorem Gemini_Chat_requires_model :
  forall (g : option Gemini) (opts : ChatOptions St) (s : St),
    TrimSpace (Model opts) = [] ->
    (failsBeforeIO (Gemini_Chat P g opts s)
     /\ snd (Gemini_Chat P g opts s) = []
     /\ snd (fst (Gemini_Chat P g opts s)) = s
     /\ (fst (fst (Gemini_Chat P g opts s))
           = Some (errorString (bs "providers/gemini: model is required"))
         \/ fst (fst (Gemini_Chat P g opts s))
           = Some (errorString (bs "providers/gemini: nil client"))))
    /\ (forall c : apiClient,
          exists t, snd (Ollama_Chat P (Some {| o_client := Some c |}) opts s)
                    = EvOllamaChat (ollamaRequest opts) :: t)
    /\ (forall o : OpenAI,
          exists t, snd (OpenAI_Chat P formatOpenAIAPIError (Some o) opts s)
                    = (if Stream opts then EvOpenAIStreaming (openaiParams P opts)
                       else EvOpenAINew (openaiParams P opts)) :: t).
Proof.
  intros g opts s Hm. split; [|split].
  - unfold Gemini_Chat, failsBeforeIO.
    destruct g as [g|]; [destruct (client g)|]; rewrite ?Hm; simpl;
      (split; [split; [eexists; reflexivity | reflexivity]|]); auto.
  - intro c. unfold Ollama_Chat, apiClient_Chat. simpl. unfold bind at 1. simpl.
    match goal with |- context [bind ?m ?k s] => destruct (bind m k s) as [[r s1] t1] end.
    now exists t1.
  - intro o. unfold OpenAI_Chat. destruct (Stream opts).
    + unfold handleStreamingChat. unfold bind at 1. simpl.
      match goal with |- context [deferClose ?m s] => destruct (deferClose m s) as [[r s1] t1] end.
      now exists t1.
    + unfold bind at 1. simpl.
      match goal with |- context [match ?x with inl _ => _ | inr _ => _ end s] =>
        destruct x as [err|resp] end.
      * now eexists.
      * destruct (Choices resp); [now eexists|].
        match goal with |- context [call ?f ?a ?b s] => destruct (call f a b s) as [[r s1] t1] end.
        now exists t1.
Qed.

End DispatchFacts.

Lemma Gemini_Chat_requires_model_witness :
  TrimSpace (Model (Sample.options [] true false (Some Sample.record))) = []
  /\ failsBeforeIO (Gemini_Chat Sample.platform (Some (Sample.gemini (bs "api_key")))
                                (Sample.options [] true false (Some Sample.record)) []).
Proof.
  split; [reflexivity|].
  exact (proj1 (proj1 (Gemini_Chat_requires_model (list bytes) Sample.platform Sample.formatError
                         (Some (Sample.gemini (bs "api_key")))
                         (Sample.options [] true false (Some Sample.record)) [] eq_refl))).
Defined.

(** With an empty model the Ollama and the OpenAI client reach their
    transport and, on a server that answers, return no error at all. *)
Lemma Chat_empty_model_counterexample :
  (fst (fst (Ollama_Chat Sample.platform (Some {| o_client := Some {| host := [] |} |})
                         (Sample.options [] true false (Some Sample.record)) [])) = None
   /\ existsb isNetwork
        (snd (Ollama_Chat Sample.platform (Some {| o_client := Some {| host := [] |} |})
                          (Sample.options [] true false (Some Sample.record)) [])) = true)
  /\ (fst (fst (OpenAI_Chat Sample.platform Sample.formatError (Some {| openai_client := tt |})
                            (Sample.options [] false false (Some Sample.record)) [])) = None
      /\ existsb isNetwork
           (snd (OpenAI_Chat Sample.platform Sample.formatError (Some {| openai_client := tt |})
                             (Sample.options [] false false (Some Sample.record)) [])) = true).
Proof. vm_compute. repeat split; reflexivity. Qed.

(** C7 at the failing input: with the suppress-format flag set and no
    format given, the request [Ollama.Chat] hands to the SDK still carries
    the format ["json"]; the Gemini and OpenAI requests built from the
    same options carry none. *)
Example Ollama_Chat_keeps_format :
  NoResponseFormat (Sample.options (bs "m") false true (Some Sample.record)) = true
  /\ (exists t,
        snd (Ollama_Chat Sample.platform (Some {| o_client := Some {| host := [] |} |})
                         (Sample.options (bs "m") false true (Some Sample.record)) [])
        = EvOllamaChat (ollamaRequest (Sample.options (bs "m") false true (Some Sample.record)))
            :: t)
  /\ api_Format (ollamaRequest (Sample.options (bs "m") false true (Some Sample.record)))
     = [x22] ++ bs "json" ++ [x22]
  /\ buildGenerationConfig Sample.platform
       (Sample.options (bs "m") false true (Some Sample.record)) = None
  /\ ResponseFormat (openaiParams Sample.platform
                       (Sample.options (bs "m") false true (Some Sample.record))) = formatUnset.
Proof.
  split; [reflexivity|]. split; [eexists; vm_compute; reflexivity|].
  vm_compute. repeat split; reflexivity.
Qed.

(* ===================================================================== *)
(** ** Callback errors short-circuit the run                             *)
(* ===================================================================== *)

Section AbortFacts.

Variable St : Type.
Variable P : Platform.
Variable formatOpenAIAPIError : bytes -> error -> error.

Local Notation callback := (callback St).
Local Notation M := (M St).
Local Notation Good := (@Good St).

Lemma noFailure_app (t1 t2 : list event) :
  noFailure (t1 ++ t2) = noFailure t1 && noFailure t2.
Proof. apply forallb_app. Qed.

Lemma reads_noFailure (t : list event) : forallb isRead t = true -> noFailure t = true.
Proof.
  unfold noFailure. induction t as [|e t IH]; simpl; [reflexivity|].
  intro H. apply andb_prop in H as [He Ht]. rewrite (IH Ht).
  now destruct e.
Qed.

Lemma closes_noFailure (t : list event) : forallb isClose t = true -> noFailure t = true.
Proof.
  unfold noFailure. induction t as [|e t IH]; simpl; [reflexivity|].
  intro H. apply andb_prop in H as [He Ht]. rewrite (IH Ht).
  now destruct e.
Qed.

Lemma aborted_nil (r : option error) : aborted r [].
Proof. now left. Qed.

Lemma aborted_quiet (r : option error) (t : list event) : noFailure t = true -> aborted r t.
Proof. now left. Qed.

(** Events that hold no failed call may come first. *)
Lemma aborted_prefix (r : option error) (t0 t : list event) :
  noFailure t0 = true -> aborted r t -> aborted r (t0 ++ t).
Proof.
  intros H0 [H|(pre & c & th & e & post & -> & Hpre & Hpost & ->)].
  - left. now rewrite noFailure_app, H0, H.
  - right. exists (t0 ++ pre), c, th, e, post.
    rewrite app_assoc. repeat split; auto.
    now rewrite noFailure_app, H0, Hpre.
Qed.

(** A run that returned no error held no failed call. *)
Lemma aborted_None (t : list event) : aborted None t -> noFailure t = true.
Proof. intros [H|(pre & c & th & e & post & _ & _ & _ & H)]; [exact H | discriminate]. Qed.

(** The release of the response may follow. *)
Lemma aborted_close (r : option error) (t : list event) :
  aborted r t -> aborted r (t ++ [EvClose]).
Proof.
  intros [H|(pre & c & th & e & post & -> & Hpre & Hpost & ->)].
  - left. now rewrite noFailure_app, H.
  - right. exists pre, c, th, e, (post ++ [EvClose]).
    rewrite <- app_assoc. simpl. repeat split; auto.
    now rewrite forallb_app, Hpost.
Qed.

(** The invariant gives the property in its plain form. *)
Lemma aborted_shortCircuits (r : option error) (t : list event) :
  aborted r t -> shortCircuits r t.
Proof.
  intros [H|(pre' & c' & th' & e' & post' & -> & Hpre & Hpost & ->)]
         pre c th e post E.
  - exfalso. subst t. rewrite noFailure_app in H. simpl in H.
    apply andb_prop in H as [_ H]. discriminate H.
  - revert pre E. induction pre' as [|x pre' IH]; intros pre E.
    + destruct pre as [|y pre]; simpl in E.
      * inversion E; subst. auto.
      * exfalso. inversion E; subst.
        rewrite forallb_app in Hpost. simpl in Hpost.
        apply andb_prop in Hpost as [_ Hpost]. discriminate Hpost.
    + destruct pre as [|y pre]; simpl in E.
      * exfalso. inversion E; subst. simpl in Hpre. discriminate Hpre.
      * inversion E; subst. simpl in Hpre. apply andb_prop in Hpre as [_ Hpre].
        exact (IH Hpre pre H1).
Qed.

Lemma Good_ret (r : option error) : Good (ret r).
Proof. intro s. apply aborted_nil. Qed.

Lemma Good_call (onDelta : callback) (c th : bytes) : Good (call onDelta c th).
Proof.
  intro s. unfold call. destruct (onDelta c th s) as [[e|] s1]; simpl.
  - right. exists [], c, th, e, []. auto.
  - now left.
Qed.

Lemma Good_deliver (frags : list bytes) (onDelta : callback) : Good (deliver frags onDelta).
Proof.
  induction frags as [|f frags IH]; intro s; simpl; [apply aborted_nil|].
  unfold bind, call. destruct (onDelta f [] s) as [[e|] s1]; simpl.
  - right. exists [], f, [], e, []. auto.
  - specialize (IH s1). destruct (deliver frags onDelta s1) as [[r2 s2] t2]. simpl in *.
    now apply (aborted_prefix r2 [EvDelta f [] None] t2).
Qed.

Lemma Good_emitGeminiCandidates (cands : list geminiCandidate) (onDelta : callback) :
  Good (emitGeminiCandidates cands onDelta).
Proof.
  intro s. rewrite emitGeminiCandidates_deliver. apply Good_deliver.
Qed.

Lemma Good_dispatchSSEData (payload : bytes) (onDelta : callback) :
  Good (dispatchSSEData P payload onDelta).
Proof.
  intro s. unfold dispatchSSEData, bind, emit.
  destruct (isEmpty (TrimSpace payload) || bytes_eqb (TrimSpace payload) (bs "[DONE]"));
    [now left|].
  destruct (jsonUnmarshalResponse P (TrimSpace payload)) as [err|chunk]; [now left|].
  destruct (resp_Error chunk); [now left|].
  pose proof (Good_emitGeminiCandidates (Candidates chunk) onDelta s) as H.
  destruct (emitGeminiCandidates (Candidates chunk) onDelta s) as [[r s1] t1]. simpl in *.
  now apply (aborted_prefix r [EvDispatch payload] t1).
Qed.

Lemma processSSELine_aborted (line dataBuf : bytes) (onDelta : callback) (s : St) :
  aborted (snd (fst (fst (fst (processSSELine P line dataBuf onDelta s)))))
          (snd (processSSELine P line dataBuf onDelta s)).
Proof.
  unfold processSSELine.
  destruct (HasPrefix (TrimRight line CRLF) dataPrefix); [now left|].
  destruct (isEmpty (TrimRight line CRLF) && negb (isEmpty dataBuf)); [|now left].
  unfold bind. pose proof (Good_dispatchSSEData dataBuf onDelta s) as H.
  destruct (dispatchSSEData P dataBuf onDelta s) as [[[e|] s1] t1]; simpl in *;
    now rewrite app_nil_r.
Qed.

Lemma Good_handleSSEReadError (err : error) (dataBuf : bytes) (onDelta : callback) :
  Good (handleSSEReadError P err dataBuf onDelta).
Proof.
  intro s. unfold handleSSEReadError.
  destruct (errorsIsEOF err); [|now left].
  destruct (isEmpty dataBuf); [now left|]. apply Good_dispatchSSEData.
Qed.

(** Reading a line only reads: it leaves the callback's state alone. *)
Lemma readMore_reads (cs : list bytes) (acc : bytes) (tries : nat) (fin : error) (s : St) :
  forallb isRead (snd (readMore acc tries cs fin s)) = true
  /\ snd (fst (readMore acc tries cs fin s)) = s.
Proof.
  revert acc tries. induction cs as [|c cs IH]; intros acc tries; simpl.
  - now split.
  - unfold bind, emit. simpl. destruct c as [|b c].
    + destruct tries as [|[|t]]; simpl; try now split.
      specialize (IH acc (S t)).
      destruct (readMore acc (S t) cs fin s) as [[r s1] t1]. simpl in *. exact IH.
    + destruct (splitLine (b :: c)) as [[l rem]|]; simpl; [now split|].
      specialize (IH (acc ++ b :: c) maxConsecutiveEmptyReads).
      destruct (readMore _ _ cs fin s) as [[r s1] t1]. simpl in *. exact IH.
Qed.

Lemma ReadString_reads (r : bufioReader) (s : St) :
  forallb isRead (snd (ReadString r s)) = true /\ snd (fst (ReadString r s)) = s.
Proof.
  unfold ReadString. destruct (splitLine (buf r)) as [[l rem]|]; [now split|].
  apply readMore_reads.
Qed.

(** One turn of the loop, as a run. *)
Lemma sseLoop_S (fuel : nat) (reader : bufioReader) (dataBuf : bytes)
      (onDelta : callback) (s : St) :
  sseLoop P (S fuel) reader dataBuf onDelta s =
    match ReadString reader s with
    | (line, Some e, reader', s1, t1) =>
        match handleSSEReadError P e dataBuf onDelta s1 with
        | (r, s2, t2) => (Some r, s2, t1 ++ t2)
        end
    | (line, None, reader', s1, t1) =>
        match processSSELine P line dataBuf onDelta s1 with
        | (done, err, dataBuf', s2, t2) =>
            if done || match err with Some _ => true | None => false end
            then (Some err, s2, t1 ++ t2)
            else
              match sseLoop P fuel reader' dataBuf' onDelta s2 with
              | (r, s3, t3) => (r, s3, t1 ++ t2 ++ t3)
              end
        end
    end.
Proof.
  simpl. unfold bind, ret.
  destruct (ReadString reader s) as [[[[line [e|]] reader'] s1] t1].
  - destruct (handleSSEReadError P e dataBuf onDelta s1) as [[r s2] t2].
    now rewrite app_nil_r.
  - destruct (processSSELine P line dataBuf onDelta s1) as [[[[done err] dataBuf'] s2] t2].
    destruct (done || match err with Some _ => true | None => false end).
    + now rewrite app_nil_r.
    + now destruct (sseLoop P fuel reader' dataBuf' onDelta s2) as [[r s3] t3].
Qed.

Lemma sseLoop_aborted (fuel : nat) (reader : bufioReader) (dataBuf : bytes)
      (onDelta : callback) (s : St) :
  match fst (fst (sseLoop P fuel reader dataBuf onDelta s)) with
  | Some e => aborted e (snd (sseLoop P fuel reader dataBuf onDelta s))
  | None => noFailure (snd (sseLoop P fuel reader dataBuf onDelta s)) = true
  end.
Proof.
  revert reader dataBuf s. induction fuel as [|fuel IH]; intros reader dataBuf s;
    [reflexivity|].
  rewrite sseLoop_S.
  destruct (ReadString_reads reader s) as [Hr _].
  destruct (ReadString reader s) as [[[[line err] reader'] s1] t1]. simpl in Hr.
  apply reads_noFailure in Hr.
  destruct err as [e|].
  - pose proof (Good_handleSSEReadError e dataBuf onDelta s1) as H.
    destruct (handleSSEReadError P e dataBuf onDelta s1) as [[r s2] t2]. simpl in *.
    now apply aborted_prefix.
  - pose proof (processSSELine_aborted line dataBuf onDelta s1) as H.
    destruct (processSSELine P line dataBuf onDelta s1) as [[[[done err] dataBuf'] s2] t2].
    simpl in H.
    destruct (done || match err with Some _ => true | None => false end) eqn:Hd.
    + simpl. now apply aborted_prefix.
    + assert (err = None) as -> by (destruct err; [now rewrite orb_true_r in Hd | reflexivity]).
      apply aborted_None in H.
      specialize (IH reader' dataBuf' s2).
      destruct (sseLoop P fuel reader' dataBuf' onDelta s2) as [[[r|] s3] t3]; simpl in *.
      * rewrite app_assoc. apply aborted_prefix; [|exact IH].
        now rewrite noFailure_app, Hr, H.
      * now rewrite !noFailure_app, Hr, H, IH.
Qed.

Lemma Good_readSSEStream (body : Body) (onDelta : callback) :
  Good (readSSEStream P body onDelta).
Proof.
  intro s. unfold readSSEStream, bind.
  pose proof (sseLoop_aborted (S (bodySize body)) (NewReader body) [] onDelta s) as H.
  destruct (sseLoop P (S (bodySize body)) (NewReader body) [] onDelta s) as [[[r|] s1] t1];
    simpl in *; rewrite app_nil_r; [exact H | now left].
Qed.

Lemma checkGeminiResponse_quiet (resp : Response) (s : St) :
  noFailure (snd (checkGeminiResponse P resp s)) = true.
Proof.
  unfold checkGeminiResponse. destruct (StatusCode resp <? httpStatusClientErr)%Z; [reflexivity|].
  unfold bind, ReadAll.
  assert (H : noFailure (repeat EvRead (S (length (chunks (resp_Body resp))))) = true).
  { apply reads_noFailure. induction (S _) as [|n IH]; simpl; auto. }
  destruct (jsonUnmarshalError P _) as [e|env]; [|destruct (env_Error env)];
    simpl; now rewrite app_nil_r.
Qed.

Lemma Good_deferClose (m : M (option error)) : Good m -> Good (deferClose m).
Proof.
  intros H s. specialize (H s). unfold deferClose, bind, emit, ret.
  destruct (m s) as [[r s1] t1]. simpl in *. now apply aborted_close.
Qed.

(** A step that holds no failed call, then a good one. *)
Lemma Good_bind_quiet (A : Type) (m : M A) (k : A -> M (option error)) :
  (forall s, noFailure (snd (m s)) = true) ->
  (forall a, Good (k a)) ->
  Good (bind m k).
Proof.
  intros Hm Hk s. unfold bind. specialize (Hm s).
  destruct (m s) as [[a s1] t1]. specialize (Hk a s1).
  destruct (k a s1) as [[r s2] t2]. simpl in *. now apply aborted_prefix.
Qed.

Lemma emit_quiet (e : event) (s : St) :
  isFailedDelta e = false -> noFailure (snd (emit e s)) = true.
Proof. intro H. simpl. now rewrite H. Qed.

Lemma Good_stream (g : Gemini) (endpoint body : bytes) (onDelta : callback) :
  Good (stream P g endpoint body onDelta).
Proof.
  unfold stream. destruct (newRequest P g endpoint body) as [err|req]; [apply Good_ret|].
  apply Good_bind_quiet; [intro s; now apply emit_quiet|]. intros _.
  destruct (httpDo P _) as [err|resp]; [apply Good_ret|].
  apply Good_deferClose, Good_bind_quiet; [apply checkGeminiResponse_quiet|].
  intros [e|]; [apply Good_ret | apply Good_readSSEStream].
Qed.

Lemma Good_nonStream (g : Gemini) (endpoint body : bytes) (onDelta : callback) :
  Good (nonStream P g endpoint body onDelta).
Proof.
  unfold nonStream. destruct (newRequest P g endpoint body) as [err|req]; [apply Good_ret|].
  apply Good_bind_quiet; [intro s; now apply emit_quiet|]. intros _.
  destruct (httpDo P _) as [err|resp]; [apply Good_ret|].
  apply Good_deferClose, Good_bind_quiet; [apply checkGeminiResponse_quiet|].
  intros [e|]; [apply Good_ret|].
  destruct (jsonDecodeBody P (resp_Body resp)) as [err|out];
    [apply Good_ret | apply Good_emitGeminiCandidates].
Qed.

Lemma Good_Gemini_Chat (g : option Gemini) (opts : ChatOptions St) :
  Good (Gemini_Chat P g opts).
Proof.
  unfold Gemini_Chat.
  destruct g as [g|]; [|apply Good_ret]. destruct (client g); [|apply Good_ret].
  destruct (isEmpty (TrimSpace (Model opts))); [apply Good_ret|].
  destruct (buildRequestBody P opts) as [err|body]; [apply Good_ret|].
  destruct (buildEndpoint g (Model opts) (Stream opts)) as [err|endpoint]; [apply Good_ret|].
  destruct (Stream opts); [apply Good_stream | apply Good_nonStream].
Qed.

Lemma Good_streamingLoop (chs : list ChatCompletion) (onDelta : callback) :
  Good (streamingLoop chs onDelta).
Proof.
  induction chs as [|ch chs IH]; simpl;
    (apply Good_bind_quiet; [intro s; now apply emit_quiet|]; intros _);
    [apply Good_ret|].
  destruct (Choices ch) as [|c0 cs]; [exact IH|].
  destruct (isEmpty (TrimSpace c0)); [exact IH|].
  intro s. unfold bind, call. destruct (onDelta (TrimSpace c0) [] s) as [[e|] s1]; simpl.
  - right. exists [], (TrimSpace c0), [], e, []. auto.
  - specialize (IH s1). destruct (streamingLoop chs onDelta s1) as [[r s2] t2]. simpl in *.
    now apply (aborted_prefix r [EvDelta (TrimSpace c0) [] None] t2).
Qed.

Lemma Good_handleStreamingChat (params : ChatCompletionNewParams) (onDelta : callback) :
  Good (handleStreamingChat P formatOpenAIAPIError params onDelta).
Proof.
  unfold handleStreamingChat.
  apply Good_bind_quiet; [intro s; now apply emit_quiet|]. intros _.
  apply Good_deferClose. intro s. unfold bind.
  pose proof (Good_streamingLoop (fst (openaiStreaming P params)) onDelta s) as Hs.
  destruct (streamingLoop _ onDelta s) as [[[e|] s1] t1]; simpl in *.
  - now rewrite app_nil_r.
  - apply aborted_None in Hs. left.
    destruct (snd (openaiStreaming P params)); simpl; now rewrite app_nil_r.
Qed.

Lemma Good_OpenAI_Chat (o : option OpenAI) (opts : ChatOptions St) :
  Good (OpenAI_Chat P formatOpenAIAPIError o opts).
Proof.
  unfold OpenAI_Chat. destruct o as [o|]; [|apply Good_ret].
  destruct (Stream opts); [apply Good_handleStreamingChat|].
  apply Good_bind_quiet; [intro s; now apply emit_quiet|]. intros _.
  destruct (openaiNew P (openaiParams P opts)) as [err|resp]; [apply Good_ret|].
  destruct (Choices resp) as [|c0 cs]; [apply Good_ret | apply Good_call].
Qed.

(** C3.  In every run of the Gemini client (streaming and single-shot)
    and of the OpenAI client, a callback call that returns an error is
    the last thing the run does but for releasing the response: no read
    of the body, no [stream.Next], no dispatch and no callback call
    follows it, and the run returns the callback's error itself, not a
    wrapped or reformatted one.  The handler [Ollama.Chat] gives the SDK
    returns the callback's result as it is. *)
Theorem callback_error_short_circuits :
  forall (g : option Gemini) (o : option OpenAI) (opts : ChatOptions St) (s : St),
    shortCircuits (fst (fst (Gemini_Chat P g opts s))) (snd (Gemini_Chat P g opts s))
    /\ shortCircuits (fst (fst (OpenAI_Chat P formatOpenAIAPIError o opts s)))
                     (snd (OpenAI_Chat P formatOpenAIAPIError o opts s))
    /\ (forall (body : Body) (onDelta : callback),
          shortCircuits (fst (fst (readSSEStream P body onDelta s)))
                        (snd (readSSEStream P body onDelta s)))
    /\ (forall resp : apiChatResponse,
          respFunc opts resp s
          = call (onDeltaOrNoop (OnDelta opts))
                 (msg_Content (api_Message resp)) (msg_Thinking (api_Message resp)) s).
Proof.
  intros g o opts s. split; [|split; [|split]].
  - apply aborted_shortCircuits, Good_Gemini_Chat.
  - apply aborted_shortCircuits, Good_OpenAI_Chat.
  - intros body onDelta. apply aborted_shortCircuits, Good_readSSEStream.
  - intro resp. reflexivity.
Qed.

End AbortFacts.

(* ===================================================================== *)
(** ** The SSE reader: lines, not reads                                  *)
(* ===================================================================== *)

Section ReaderFacts.

Variable St : Type.
Variable P : Platform.

Local Notation callback := (callback St).
Local Notation M := (M St).

(** *** Lines of a byte string *)

Lemma splitLine_Some (s l rest : bytes) :
  splitLine s = Some (l, rest) ->
  s = l ++ rest /\ l <> []
  /\ lines s = (l :: fst (lines rest), snd (lines rest)).
Proof.
  revert l rest. induction s as [|c s IH]; intros l rest H; simpl in H; [discriminate|].
  simpl. destruct (Byte.eqb c x0a).
  - injection H as <- <-. repeat split; [discriminate|].
    now destruct (lines s).
  - destruct (splitLine s) as [[l' rest']|]; [|discriminate].
    injection H as <- <-. destruct (IH l' rest' eq_refl) as (-> & Hne & Hl).
    repeat split; [discriminate|]. rewrite Hl. reflexivity.
Qed.

Lemma splitLine_None (s : bytes) : splitLine s = None -> lines s = ([], s).
Proof.
  induction s as [|c s IH]; intro H; simpl in *; [reflexivity|].
  destruct (Byte.eqb c x0a); [discriminate|].
  destruct (splitLine s) as [[l rest]|]; [discriminate|].
  now rewrite IH.
Qed.

Lemma splitLine_app_Some (a b l rest : bytes) :
  splitLine a = Some (l, rest) -> splitLine (a ++ b) = Some (l, rest ++ b).
Proof.
  revert l rest. induction a as [|c a IH]; intros l rest H; simpl in *; [discriminate|].
  destruct (Byte.eqb c x0a); [now injection H as <- <-|].
  destruct (splitLine a) as [[l' rest']|]; [|discriminate].
  injection H as <- <-. now rewrite (IH l' rest' eq_refl).
Qed.

Lemma splitLine_app_None (a b : bytes) :
  splitLine a = None ->
  splitLine (a ++ b) =
    match splitLine b with
    | Some (l, rest) => Some (a ++ l, rest)
    | None => None
    end.
Proof.
  induction a as [|c a IH]; intro H; simpl in *; [now destruct (splitLine b) as [[l rest]|]|].
  destruct (Byte.eqb c x0a); [discriminate|].
  destruct (splitLine a) as [[l rest]|]; [discriminate|].
  rewrite (IH eq_refl). now destruct (splitLine b) as [[l rest]|].
Qed.

(** *** [ReadString] returns the next line whatever the chunking *)

Lemma noReads_app (t1 t2 : list event) : noReads (t1 ++ t2) = noReads t1 ++ noReads t2.
Proof. apply filter_app. Qed.

Lemma noReads_reads (t : list event) : forallb isRead t = true -> noReads t = [].
Proof.
  induction t as [|e t IH]; simpl; [reflexivity|].
  intro H. apply andb_prop in H as [He Ht]. rewrite He. simpl. now apply IH.
Qed.

Lemma readMore_spec (cs : list bytes) (acc : bytes) (tries : nat) (fin : error) (s : St) :
  progresses tries cs = true ->
  match splitLine (concat cs) with
  | Some (l, rest) =>
      exists r',
        fst (fst (readMore acc tries cs fin s)) = (acc ++ l, None, r')
        /\ holds r' rest fin
  | None =>
      exists r', fst (fst (readMore acc tries cs fin s)) = (acc ++ concat cs, Some fin, r')
  end.
Proof.
  revert acc tries. induction cs as [|c cs IH]; intros acc tries Hp.
  - simpl. eexists. now rewrite app_nil_r.
  - destruct c as [|b c].
    + destruct tries as [|[|t]]; try discriminate Hp.
      cbn [readMore concat app]. unfold bind, emit. cbn [fst snd].
      specialize (IH acc (S t) Hp).
      destruct (readMore acc (S t) cs fin s) as [[res s1] t1]. exact IH.
    + cbn [readMore concat]. unfold bind, emit. cbn [fst snd].
      simpl in Hp.
      destruct (splitLine (b :: c)) as [[l rem]|] eqn:E.
      * rewrite (splitLine_app_Some _ (concat cs) _ _ E).
        eexists. split; [reflexivity|]. repeat split. exact Hp.
      * rewrite (splitLine_app_None _ (concat cs) E).
        specialize (IH (acc ++ b :: c) maxConsecutiveEmptyReads Hp).
        destruct (readMore (acc ++ b :: c) maxConsecutiveEmptyReads cs fin s) as [[res s1] t1].
        cbn [fst snd] in *.
        destruct (splitLine (concat cs)) as [[l rest]|].
        -- destruct IH as (r' & -> & Hh). exists r'. now rewrite <- app_assoc.
        -- destruct IH as (r' & ->). exists r'. now rewrite <- app_assoc.
Qed.

(** Reads that all return data make progress. *)
Lemma nonempty_progresses (cs : list bytes) (tries : nat) :
  Forall (fun c : bytes => c <> []) cs -> progresses tries cs = true.
Proof.
  intro H. revert tries. induction H as [|c cs Hc Hcs IH]; intro tries; [reflexivity|].
  destruct c; [contradiction|]. simpl. apply IH.
Qed.

Lemma ReadString_spec (r : bufioReader) (str : bytes) (fin : error) (s : St) :
  holds r str fin ->
  match splitLine str with
  | Some (l, rest) =>
      exists r', fst (fst (ReadString r s)) = (l, None, r') /\ holds r' rest fin
  | None => exists r', fst (fst (ReadString r s)) = (str, Some fin, r')
  end.
Proof.
  intros (<- & Hne & <-). unfold ReadString.
  destruct (splitLine (buf r)) as [[l rem]|] eqn:E.
  - rewrite (splitLine_app_Some _ _ _ _ E). eexists. split; [reflexivity|].
    repeat split. exact Hne.
  - rewrite (splitLine_app_None _ _ E).
    pose proof (readMore_spec (chunks (rd r)) (buf r) maxConsecutiveEmptyReads
                              (final (rd r)) s Hne) as H.
    destruct (splitLine (concat (chunks (rd r)))) as [[l rest]|]; exact H.
Qed.

(** *** The loop is the run over the lines *)

Lemma sseLoop_spec (fin : error) (onDelta : callback) (fuel : nat) :
  forall (r : bufioReader) (str dataBuf : bytes) (s : St),
    holds r str fin ->
    length str < fuel ->
    observe (sseLoop P fuel r dataBuf onDelta) s =
      (let '(res, s', t) := observe (sseRun P (fst (lines str)) fin dataBuf onDelta) s in
       (Some res, s', t)).
Proof.
  induction fuel as [|fuel IH]; intros r str dataBuf s Hh Hlen; [lia|].
  unfold observe. rewrite sseLoop_S.
  pose proof (ReadString_spec r str fin s Hh) as Hr.
  destruct (ReadString_reads St r s) as [Hreads Hs].
  destruct (ReadString r s) as [[[[line err] r1] s1] t1]. simpl in Hreads, Hs. subst s1.
  apply noReads_reads in Hreads.
  destruct (splitLine str) as [[l rest]|] eqn:E.
  - destruct Hr as (r' & Hr & Hh'). simpl in Hr. injection Hr as -> -> ->.
    destruct (splitLine_Some _ _ _ E) as (-> & Hl & Hlines). rewrite Hlines. simpl.
    unfold bind.
    destruct (processSSELine P l dataBuf onDelta s) as [[[[done err] dataBuf'] s2] t2].
    destruct (done || match err with Some _ => true | None => false end).
    + simpl. now rewrite !noReads_app, Hreads, app_nil_r.
    + assert (Hlen' : length rest < fuel).
      { rewrite length_app in Hlen. destruct l; [contradiction|]. simpl in Hlen. lia. }
      specialize (IH r' rest dataBuf' s2 Hh' Hlen'). unfold observe in IH.
      destruct (sseLoop P fuel r' dataBuf' onDelta s2) as [[res s3] t3].
      destruct (sseRun P (fst (lines rest)) fin dataBuf' onDelta s2) as [[res' s3'] t3'].
      injection IH as -> -> Ht. now rewrite !noReads_app, Hreads, Ht.
  - destruct Hr as (r' & Hr). simpl in Hr. injection Hr as -> -> ->.
    rewrite (splitLine_None _ E). simpl.
    destruct (handleSSEReadError P fin dataBuf onDelta s) as [[res s2] t2].
    now rewrite noReads_app, Hreads.
Qed.

(** [readSSEStream] never runs out of fuel, and is the run over the
    complete lines of the body. *)
Lemma readSSEStream_sseRun (body : Body) (onDelta : callback) (s : St) :
  progresses maxConsecutiveEmptyReads (chunks body) = true ->
  observe (readSSEStream P body onDelta) s
  = observe (sseRun P (fst (lines (concat (chunks body)))) (final body) [] onDelta) s.
Proof.
  intro Hne. unfold readSSEStream.
  assert (Hh : holds (NewReader body) (concat (chunks body)) (final body))
    by (split; [reflexivity | split; [exact Hne | reflexivity]]).
  pose proof (sseLoop_spec (final body) onDelta (S (bodySize body)) (NewReader body)
                           (concat (chunks body)) [] s Hh (Nat.lt_succ_diag_r _)) as H.
  unfold observe in *. unfold bind.
  destruct (sseLoop P (S (bodySize body)) (NewReader body) [] onDelta s) as [[res s1] t1].
  destruct (sseRun P _ (final body) [] onDelta s) as [[res' s1'] t1'].
  injection H as -> -> Ht. simpl. now rewrite app_nil_r, Ht.
Qed.

(** *** The run over the lines is the machine of the specification *)

Lemma sseRun_sseMachine (fin : error) (onDelta : callback) (ls : list bytes) :
  errorsIsEOF fin = true ->
  forall (acc : bytes) (s : St),
    sseRun P ls fin acc onDelta s = sseMachine P ls acc onDelta s.
Proof.
  intro Hfin. induction ls as [|l ls IH]; intros acc s; simpl.
  - unfold handleSSEReadError. now rewrite Hfin.
  - unfold processSSELine.
    destruct (HasPrefix (TrimRight l CRLF) dataPrefix).
    + unfold bind, ret. simpl. rewrite IH.
      destruct acc as [|a acc]; simpl.
      * now destruct (sseMachine P ls _ onDelta s) as [[r s1] t1].
      * rewrite <- app_assoc. simpl.
        now destruct (sseMachine P ls _ onDelta s) as [[r s1] t1].
    + destruct (TrimRight l CRLF) as [|c l'], acc as [|a acc]; simpl;
        try (unfold bind, ret; simpl; rewrite IH;
             now destruct (sseMachine P ls _ onDelta s) as [[r s1] t1]).
      unfold bind, ret.
      destruct (dispatchSSEData P (a :: acc) onDelta s) as [[[e|] s1] t1]; simpl.
      * now rewrite !app_nil_r.
      * rewrite IH. destruct (sseMachine P ls [] onDelta s1) as [[r s2] t2].
        now rewrite app_nil_r.
Qed.

(** *** Dispatched payloads *)

Lemma dispatched_app (t1 t2 : list event) :
  dispatched (t1 ++ t2) = dispatched t1 ++ dispatched t2.
Proof. apply flat_map_app. Qed.

Lemma deltas_app (t1 t2 : list event) : deltas (t1 ++ t2) = deltas t1 ++ deltas t2.
Proof. apply flat_map_app. Qed.

Lemma dispatched_noReads (t : list event) : dispatched (noReads t) = dispatched t.
Proof.
  induction t as [|e t IH]; simpl; [reflexivity|].
  destruct e; simpl; now rewrite ?IH.
Qed.

Lemma deltas_noReads (t : list event) : deltas (noReads t) = deltas t.
Proof.
  induction t as [|e t IH]; simpl; [reflexivity|].
  destruct e; simpl; now rewrite ?IH.
Qed.

Lemma deliver_dispatched (frags : list bytes) (onDelta : callback) (s : St) :
  dispatched (snd (deliver frags onDelta s)) = [].
Proof.
  revert s. induction frags as [|f frags IH]; intro s; simpl; [reflexivity|].
  unfold bind, call. destruct (onDelta f [] s) as [[e|] s1]; [reflexivity|].
  specialize (IH s1). now destruct (deliver frags onDelta s1) as [[r s2] t2].
Qed.

(** One dispatch is one payload. *)
Lemma dispatchSSEData_dispatched (payload : bytes) (onDelta : callback) (s : St) :
  dispatched (snd (dispatchSSEData P payload onDelta s)) = [payload].
Proof.
  unfold dispatchSSEData, bind, emit.
  destruct (isEmpty (TrimSpace payload) || bytes_eqb (TrimSpace payload) (bs "[DONE]"));
    [reflexivity|].
  destruct (jsonUnmarshalResponse P (TrimSpace payload)) as [err|chunk]; [reflexivity|].
  destruct (resp_Error chunk); [reflexivity|].
  rewrite emitGeminiCandidates_deliver.
  pose proof (deliver_dispatched (textFragments (Candidates chunk)) onDelta s) as H.
  destruct (deliver _ onDelta s) as [[r s1] t1]. simpl in *. now rewrite H.
Qed.

(** The machine dispatches the payloads of the lines, each once and in
    order, up to a dispatch that fails. *)
Lemma sseMachine_payloads (onDelta : callback) (ls : list bytes) :
  forall (acc : bytes) (s : St),
    exists k,
      dispatched (snd (sseMachine P ls acc onDelta s)) = firstn k (ssePayloads ls acc)
      /\ (fst (fst (sseMachine P ls acc onDelta s)) = None ->
          dispatched (snd (sseMachine P ls acc onDelta s)) = ssePayloads ls acc).
Proof.
  induction ls as [|l ls IH]; intros acc s; simpl.
  - destruct acc as [|a acc]; simpl.
    + exists 0. auto.
    + exists 1. rewrite dispatchSSEData_dispatched. auto.
  - destruct (HasPrefix (TrimRight l CRLF) dataPrefix); [apply IH|].
    destruct (TrimRight l CRLF) as [|c l'], acc as [|a acc]; try apply IH.
    unfold bind.
    pose proof (dispatchSSEData_dispatched (a :: acc) onDelta s) as Hd.
    destruct (dispatchSSEData P (a :: acc) onDelta s) as [[[e|] s1] t1]; simpl in *.
    + exists 1. rewrite app_nil_r, Hd. split; [reflexivity | discriminate].
    + destruct (IH [] s1) as (k & Hk & Hall).
      destruct (sseMachine P ls [] onDelta s1) as [[r s2] t2]. simpl in *.
      exists (S k). rewrite dispatched_app, Hd, Hk. split; [reflexivity|].
      intro Hr. now rewrite <- Hk, (Hall Hr).
Qed.

(** C1.  Over a body that ends with [io.EOF] and whose reads make
    progress (as all reads that return data do), [readSSEStream] is the
    state machine of the specification run over the complete lines of the
    body: a data line adds its trimmed remainder to the buffer, after a
    line feed when the buffer holds content; a blank line with a non-empty
    buffer dispatches and clears it; any other line is ignored; at the
    end of input a non-empty buffer is dispatched and an empty one gives
    no error.  Each payload is dispatched once, in order: the payloads
    dispatched are those of the lines, all of them when the run returns no
    error.  A line is what [ReadString] returns with its line feed: the
    bytes after the last line feed of the body come back together with
    [io.EOF] and are discarded, so a last data line without its line feed
    is neither added to the buffer nor dispatched. *)
Theorem readSSEStream_sseMachine :
  forall (body : Body) (onDelta : callback) (s : St),
    progresses maxConsecutiveEmptyReads (chunks body) = true ->
    errorsIsEOF (final body) = true ->
    let ls := fst (lines (concat (chunks body))) in
    observe (readSSEStream P body onDelta) s = observe (sseMachine P ls [] onDelta) s
    /\ (exists k,
          dispatched (snd (readSSEStream P body onDelta s)) = firstn k (ssePayloads ls []))
    /\ (fst (fst (readSSEStream P body onDelta s)) = None ->
        dispatched (snd (readSSEStream P body onDelta s)) = ssePayloads ls []).
Proof.
  intros body onDelta s Hne Hfin ls.
  pose proof (readSSEStream_sseRun body onDelta s Hne) as H. fold ls in H.
  unfold observe in H. rewrite (sseRun_sseMachine (final body) onDelta ls Hfin) in H.
  destruct (sseMachine_payloads onDelta ls [] s) as (k & Hk & Hall).
  unfold observe.
  destruct (readSSEStream P body onDelta s) as [[r s1] t1].
  destruct (sseMachine P ls [] onDelta s) as [[r' s1'] t1'].
  injection H as -> -> Ht. simpl in *.
  assert (Hd : dispatched t1 = dispatched t1')
    by now rewrite <- (dispatched_noReads t1), Ht, dispatched_noReads.
  split; [now rewrite Ht|]. split.
  - exists k. now rewrite Hd.
  - intro Hr. rewrite Hd. now apply Hall.
Qed.

(** C4.  The run of [readSSEStream] does not depend on how the body is
    cut into reads: two bodies with the same bytes and the same ending,
    each cut into reads in any way (byte by byte, in one read, with empty
    reads in between, short of the hundred in a row at which [bufio]
    gives up), give the same result, the same final callback state, the
    same dispatched payloads and the same callback calls in the same
    order. *)
Theorem readSSEStream_chunk_independent :
  forall (cs1 cs2 : list bytes) (fin : error) (onDelta : callback) (s : St),
    progresses maxConsecutiveEmptyReads cs1 = true ->
    progresses maxConsecutiveEmptyReads cs2 = true ->
    concat cs1 = concat cs2 ->
    let run1 := readSSEStream P {| chunks := cs1; final := fin |} onDelta s in
    let run2 := readSSEStream P {| chunks := cs2; final := fin |} onDelta s in
    fst run1 = fst run2
    /\ dispatched (snd run1) = dispatched (snd run2)
    /\ deltas (snd run1) = deltas (snd run2)
    /\ noReads (snd run1) = noReads (snd run2).
Proof.
  intros cs1 cs2 fin onDelta s H1 H2 E run1 run2.
  pose proof (readSSEStream_sseRun {| chunks := cs1; final := fin |} onDelta s H1) as R1.
  pose proof (readSSEStream_sseRun {| chunks := cs2; final := fin |} onDelta s H2) as R2.
  simpl in R1, R2. rewrite E in R1. rewrite <- R2 in R1. clear R2.
  unfold observe in R1. fold run1 run2 in R1.
  destruct run1 as [[r1 s1] t1], run2 as [[r2 s2] t2].
  injection R1 as -> -> Ht. simpl.
  repeat split.
  - now rewrite <- (dispatched_noReads t1), Ht, dispatched_noReads.
  - now rewrite <- (deltas_noReads t1), Ht, deltas_noReads.
  - exact Ht.
Qed.

End ReaderFacts.

(* ===================================================================== *)
(** ** Worked runs                                                       *)
(* ===================================================================== *)

(** A final event without its blank line, cut in the middle of a data
    field: both events are dispatched, each once. *)
Lemma readSSEStream_sseMachine_witness :
  (progresses maxConsecutiveEmptyReads
              [bs "data: Hel" ++ [x0a; x0a] ++ bs "da"; []; bs "ta: lo" ++ [x0a]] = true
   /\ errorsIsEOF io_EOF = true)
  /\ dispatched
       (snd (readSSEStream Sample.platform
               {| chunks := [bs "data: Hel" ++ [x0a; x0a] ++ bs "da"; [];
                             bs "ta: lo" ++ [x0a]];
                  final := io_EOF |}
               Sample.record []))
     = [bs "Hel"; bs "lo"].
Proof.
  split; [split; reflexivity|].
  exact (proj2 (proj2 (readSSEStream_sseMachine (list bytes) Sample.platform
                         {| chunks := [bs "data: Hel" ++ [x0a; x0a] ++ bs "da"; [];
                                       bs "ta: lo" ++ [x0a]];
                            final := io_EOF |}
                         Sample.record [] eq_refl eq_refl))
               eq_refl).
Defined.

(** A last data line that the body ends without a line feed.  Were it a
    line like the others, the machine would add it to the buffer and
    dispatch it at the end of input; [readSSEStream] dispatches the first
    event only and returns no error. *)
Lemma readSSEStream_unterminated_counterexample :
  observe (readSSEStream Sample.platform
             {| chunks := [bs "data: a" ++ [x0a; x0a] ++ bs "data: b"]; final := io_EOF |}
             Sample.record) []
  = (None, [bs "a"], [EvDispatch (bs "a"); EvDelta (bs "a") [] None])
  /\ observe (sseMachine Sample.platform
                [bs "data: a" ++ [x0a]; [x0a]; bs "data: b"] [] Sample.record) []
     = (None, [bs "a"; bs "b"],
        [EvDispatch (bs "a"); EvDelta (bs "a") [] None;
         EvDispatch (bs "b"); EvDelta (bs "b") [] None]).
Proof. split; vm_compute; reflexivity. Qed.

(** The stream of the specification's second testable property, with the
    stand-in decoder: delivered in one read and byte by byte. *)
Lemma readSSEStream_chunk_independent_witness :
  (progresses maxConsecutiveEmptyReads
     (map (fun b => [b]) (bs "data: Hel" ++ [x0a; x0a] ++ bs "data: lo" ++ [x0a; x0a])) = true
   /\ progresses maxConsecutiveEmptyReads
        [bs "data: Hel" ++ [x0a; x0a] ++ bs "data: lo" ++ [x0a; x0a]] = true
   /\ concat (map (fun b => [b]) (bs "data: Hel" ++ [x0a; x0a] ++ bs "data: lo" ++ [x0a; x0a]))
      = concat [bs "data: Hel" ++ [x0a; x0a] ++ bs "data: lo" ++ [x0a; x0a]])
  /\ deltas
       (snd (readSSEStream Sample.platform
               {| chunks := map (fun b => [b])
                                (bs "data: Hel" ++ [x0a; x0a] ++ bs "data: lo" ++ [x0a; x0a]);
                  final := io_EOF |}
               Sample.record []))
     = deltas
         (snd (readSSEStream Sample.platform
                 {| chunks := [bs "data: Hel" ++ [x0a; x0a] ++ bs "data: lo" ++ [x0a; x0a]];
                    final := io_EOF |}
                 Sample.record [])).
Proof.
  split; [repeat split; reflexivity|].
  exact (proj1 (proj2 (proj2 (readSSEStream_chunk_independent (list bytes) Sample.platform
                                (map (fun b => [b])
                                     (bs "data: Hel" ++ [x0a; x0a] ++ bs "data: lo"
                                      ++ [x0a; x0a]))
                                [bs "data: Hel" ++ [x0a; x0a] ++ bs "data: lo" ++ [x0a; x0a]]
                                io_EOF Sample.record [] eq_refl eq_refl eq_refl)))).
Defined.

Example readSSEStream_byte_by_byte :
  deltas
    (snd (readSSEStream Sample.platform
            {| chunks := map (fun b => [b])
                             (bs "data: Hel" ++ [x0a; x0a] ++ bs "data: lo" ++ [x0a; x0a]);
               final := io_EOF |}
            Sample.record []))
  = [(bs "Hel", []); (bs "lo", [])].
Proof. vm_compute. reflexivity. Qed.

(** A done sentinel is dispatched and calls nothing. *)
Example dispatchSSEData_done :
  dispatchSSEData Sample.platform (bs " [DONE] ") Sample.record []
  = (None, [], [EvDispatch (bs " [DONE] ")]).
Proof. vm_compute. reflexivity. Qed.

(** The callback fails on the first fragment: the second event of the
    body is never read, and the error comes back as it is. *)
Example Gemini_Chat_callback_abort :
  exists req,
    Gemini_Chat Sample.platform (Some (Sample.gemini (bs "auth_token")))
                (Sample.options (bs "m") true false (Some (Sample.failOn (bs "Hel")))) []
    = (Some Sample.stop, [bs "Hel"],
       [EvHTTP req; EvRead; EvRead; EvDispatch (bs "Hel");
        EvDelta (bs "Hel") [] (Some Sample.stop); EvClose]).
Proof. eexists. vm_compute. reflexivity. Qed.

(* ===================================================================== *)
(** ** Further facts                                                     *)
(* ===================================================================== *)

Section FurtherFacts.

Variable St : Type.
Variable P : Platform.

Local Notation callback := (callback St).

(** A client built by [NewGemini] is in one of the two modes, and in
    query-key mode when the configuration names none. *)
Lemma NewGemini_authType (cfg : ProviderConfig) (g : Gemini) :
  NewGemini P cfg = inr g ->
  (authType g = bs "api_key" \/ authType g = bs "auth_token")
  /\ (ToLower P (TrimSpace (AuthType cfg)) = [] -> authType g = bs "api_key").
Proof.
  unfold NewGemini. destruct (isEmpty (TrimSpace (APIKey cfg))); [discriminate|].
  set (a := if isEmpty (ToLower P (TrimSpace (AuthType cfg))) then bs "api_key"
            else ToLower P (TrimSpace (AuthType cfg))).
  assert (Hd : ToLower P (TrimSpace (AuthType cfg)) = [] -> a = bs "api_key")
    by (intro E; subst a; now rewrite E).
  destruct (bytes_eqb a (bs "api_key")) eqn:E1; simpl.
  - intro H. injection H as <-. simpl. apply bytes_eqb_eq in E1. auto.
  - destruct (bytes_eqb a (bs "auth_token")) eqn:E2; simpl; [|discriminate].
    intro H. injection H as <-. simpl. apply bytes_eqb_eq in E2. auto.
Qed.

(** With the suppress-format flag set, the Gemini request has no
    generation config or one without response MIME type and schema, and
    the OpenAI parameters have no response format. *)
Theorem NoResponseFormat_Gemini_OpenAI :
  forall opts : ChatOptions St,
    NoResponseFormat opts = true ->
    match buildGenerationConfig P opts with
    | None => True
    | Some cfg => ResponseMimeType cfg = [] /\ ResponseSchema cfg = anyNil
    end
    /\ ResponseFormat (openaiParams P opts) = formatUnset.
Proof.
  intros opts H. split.
  - now apply buildGenerationConfig_suppressed.
  - now apply openaiParams_suppressed.
Qed.

(** What follows the last line feed of the body does not count: two
    bodies with the same complete lines run alike. *)
Theorem readSSEStream_ignores_tail :
  forall (cs1 cs2 : list bytes) (fin : error) (onDelta : callback) (s : St),
    progresses maxConsecutiveEmptyReads cs1 = true ->
    progresses maxConsecutiveEmptyReads cs2 = true ->
    fst (lines (concat cs1)) = fst (lines (concat cs2)) ->
    observe (readSSEStream P {| chunks := cs1; final := fin |} onDelta) s
    = observe (readSSEStream P {| chunks := cs2; final := fin |} onDelta) s.
Proof.
  intros cs1 cs2 fin onDelta s H1 H2 E.
  rewrite (readSSEStream_sseRun St P {| chunks := cs1; final := fin |} onDelta s H1).
  rewrite (readSSEStream_sseRun St P {| chunks := cs2; final := fin |} onDelta s H2).
  simpl. now rewrite E.
Qed.

End FurtherFacts.

Lemma NoResponseFormat_Gemini_OpenAI_witness :
  NoResponseFormat Sample.suppressed = true
  /\ buildGenerationConfig Sample.platform Sample.suppressed
     = Some {| cfg_Temperature := Some Sample.half; cfg_TopP := None; cfg_TopK := None;
               ResponseMimeType := []; ResponseSchema := anyNil |}
  /\ ResponseFormat (openaiParams Sample.platform Sample.suppressed) = formatUnset.
Proof.
  split; [reflexivity|]. split; [vm_compute; reflexivity|].
  exact (proj2 (NoResponseFormat_Gemini_OpenAI (list bytes) Sample.platform
                  Sample.suppressed eq_refl)).
Defined.

Lemma readSSEStream_ignores_tail_witness :
  (progresses maxConsecutiveEmptyReads [bs "data: a" ++ [x0a]; bs "data: b"] = true
   /\ progresses maxConsecutiveEmptyReads [bs "data: a" ++ [x0a]] = true
   /\ fst (lines (concat [bs "data: a" ++ [x0a]; bs "data: b"]))
      = fst (lines (concat [bs "data: a" ++ [x0a]])))
  /\ observe (readSSEStream Sample.platform
                {| chunks := [bs "data: a" ++ [x0a]; bs "data: b"]; final := io_EOF |}
                Sample.record) []
     = observe (readSSEStream Sample.platform
                  {| chunks := [bs "data: a" ++ [x0a]]; final := io_EOF |}
                  Sample.record) [].
Proof.
  split; [repeat split; reflexivity|].
  exact (readSSEStream_ignores_tail (list bytes) Sample.platform
           [bs "data: a" ++ [x0a]; bs "data: b"] [bs "data: a" ++ [x0a]] io_EOF
           Sample.record [] eq_refl eq_refl eq_refl).
Defined.

(** A data line that the body ends without a line feed is not delivered. *)
Example readSSEStream_unterminated_line :
  readSSEStream Sample.platform {| chunks := [bs "data: x"]; final := io_EOF |}
                Sample.record []
  = (None, [], [EvRead; EvRead]).
Proof. vm_compute. reflexivity. Qed.

(** A hundred empty reads in a row end the stream with a read error. *)
Example readSSEStream_no_progress :
  fst (fst (readSSEStream Sample.platform
              {| chunks := repeat [] 100 ++ [bs "data: x" ++ [x0a]]; final := io_EOF |}
              Sample.record []))
  = Some (wrapError (bs "providers/gemini: read stream: ") io_ErrNoProgress).
Proof. vm_compute. reflexivity. Qed.

(* ===================================================================== *)
(** ** The Gemini client: construction, request body, transport          *)
(* ===================================================================== *)

Section GeminiFacts.

Variable St : Type.
Variable P : Platform.

Local Notation callback := (callback St).
Local Notation M := (M St).

(** [NewGemini] accepts a configuration exactly when its key is not blank
    and its auth type, trimmed and lower-cased, is empty, [api_key] or
    [auth_token].  The client it builds holds the trimmed key, the mode
    ([api_key] when none is named), a base URL that ends in a version
    segment and has no trailing slash, and an HTTP client whose timeout
    is [geminiHTTPTimeout], two minutes. *)
Theorem NewGemini_accepts :
  forall cfg : ProviderConfig,
    let key := TrimSpace (APIKey cfg) in
    let auth := ToLower P (TrimSpace (AuthType cfg)) in
    match NewGemini P cfg with
    | inr g =>
        key <> []
        /\ (auth = [] \/ auth = bs "api_key" \/ auth = bs "auth_token")
        /\ apiKey g = key
        /\ authType g = (if isEmpty auth then bs "api_key" else auth)
        /\ baseURL g = normalizeGeminiBaseURL (BaseURL cfg)
        /\ TrimRight (baseURL g) (bs "/") = baseURL g
        /\ versioned (baseURL g) = true
        /\ client g = Some {| Timeout := 120 |}
    | inl err =>
        (key = [] /\ err = errorString (bs "providers/gemini: missing api key"))
        \/ (key <> [] /\ auth <> [] /\ auth <> bs "api_key" /\ auth <> bs "auth_token"
            /\ err = errorString (bs "providers/gemini: unsupported auth type "
                                  ++ Quote P (AuthType cfg)))
    end.
Proof.
  intros cfg key auth. unfold NewGemini. fold key. fold auth.
  destruct key as [|k key'] eqn:Ek; simpl isEmpty; cbv iota.
  - left. split; reflexivity.
  - destruct auth as [|a auth'] eqn:Ea; simpl isEmpty; cbv iota.
    + simpl. repeat split; try discriminate; auto.
      * apply versioned_TrimRight, normalizeGeminiBaseURL_versioned.
      * apply normalizeGeminiBaseURL_versioned.
    + destruct (bytes_eqb (a :: auth') (bs "api_key")) eqn:E1.
      * simpl. apply bytes_eqb_eq in E1. repeat split; try discriminate; auto.
        -- apply versioned_TrimRight, normalizeGeminiBaseURL_versioned.
        -- apply normalizeGeminiBaseURL_versioned.
      * destruct (bytes_eqb (a :: auth') (bs "auth_token")) eqn:E2.
        -- simpl. apply bytes_eqb_eq in E2. repeat split; try discriminate; auto.
           ++ apply versioned_TrimRight, normalizeGeminiBaseURL_versioned.
           ++ apply normalizeGeminiBaseURL_versioned.
        -- simpl. right. apply bytes_eqb_neq in E1, E2.
           repeat split; try discriminate; auto.
Qed.

(** *** The request body *)

Lemma fold_imageParts (imgs : list bytes) (acc : list geminiPart) :
  fold_left
    (fun parts img =>
       if isEmpty img then parts
       else
         let mime := DetectContentType P img in
         let mime := if negb (HasPrefix mime (bs "image/")) then bs "image/png" else mime in
         parts ++ [{| Text := [];
                      InlineData := Some {| MimeType := mime; Data := base64Encode P img |} |}])
    imgs acc
  = acc ++ map (imagePart P) (filter (fun img => negb (isEmpty img)) imgs).
Proof.
  revert acc. induction imgs as [|img imgs IH]; intro acc; simpl.
  - now rewrite app_nil_r.
  - rewrite IH. destruct (isEmpty img); simpl; [reflexivity|].
    now rewrite <- app_assoc.
Qed.

(** [buildContents] fails exactly when the prompt is blank and every
    image is empty.  Otherwise it gives one content with role [user]
    whose parts are the trimmed prompt, when it is not blank, followed by
    one inline part for every non-empty image, in order, each with a MIME
    type that starts with [image/]; the system instruction is the trimmed
    system prompt, and absent when that is blank. *)
Theorem buildContents_shape :
  forall opts : ChatOptions St,
    let prompt := TrimSpace (Prompt opts) in
    let system := TrimSpace (SystemPrompt opts) in
    let parts :=
      (if isEmpty prompt then [] else [{| Text := prompt; InlineData := None |}])
      ++ map (imagePart P) (filter (fun img => negb (isEmpty img)) (Images opts)) in
    buildContents P opts =
      match parts with
      | [] => inl (errorString (bs "providers/gemini: prompt or images are required"))
      | _ :: _ =>
          inr ([{| Role := bs "user"; Parts := parts |}],
               if isEmpty system then None
               else Some {| Role := [];
                            Parts := [{| Text := system; InlineData := None |}] |})
      end
    /\ Forall (fun p => match InlineData p with
                        | Some d => HasPrefix (MimeType d) (bs "image/") = true
                        | None => True
                        end) parts.
Proof.
  intros opts prompt system parts. split.
  - unfold buildContents. fold prompt. fold system. rewrite fold_imageParts.
    replace (if negb (isEmpty prompt) then [{| Text := prompt; InlineData := None |}] else [])
      with (if isEmpty prompt then [] else [{| Text := prompt; InlineData := None |}])
      by now destruct (isEmpty prompt).
    fold parts. destruct parts; [reflexivity|].
    now destruct (isEmpty system).
  - subst parts. apply Forall_app. split.
    + destruct (isEmpty prompt); repeat constructor.
    + apply Forall_forall. intros p Hp. apply in_map_iff in Hp as (img & <- & _).
      unfold imagePart. simpl.
      destruct (HasPrefix (DetectContentType P img) (bs "image/")) eqn:E; simpl;
        [exact E | reflexivity].
Qed.

(** The generation config is left out exactly when format negotiation
    is suppressed and no sampling value is set.  A config that is sent
    carries the temperature and top-p only when they are not zero, the
    top-k of the options, and, unless suppressed, the JSON MIME type,
    with the decoded format as schema when a format is given and
    decodes. *)
Theorem buildGenerationConfig_spec :
  forall opts : ChatOptions St,
    (buildGenerationConfig P opts = None <->
     NoResponseFormat opts = true
     /\ f64_nonzero (Temperature opts) = false
     /\ f64_nonzero (TopP opts) = false
     /\ extractTopK P (Options opts) = None)
    /\ (forall cfg,
          buildGenerationConfig P opts = Some cfg ->
          cfg_Temperature cfg
            = (if f64_nonzero (Temperature opts) then Some (Temperature opts) else None)
          /\ cfg_TopP cfg = (if f64_nonzero (TopP opts) then Some (TopP opts) else None)
          /\ cfg_TopK cfg = extractTopK P (Options opts)
          /\ ResponseMimeType cfg
             = (if NoResponseFormat opts then [] else bs "application/json")
          /\ ResponseSchema cfg
             = (if NoResponseFormat opts || isEmpty (Format opts) then anyNil
                else match jsonUnmarshalAny P (Format opts) with
                     | inr schema => schema
                     | inl _ => anyNil
                     end)).
Proof.
  intro opts. unfold buildGenerationConfig, cfg_isEmpty.
  destruct (NoResponseFormat opts), (f64_nonzero (Temperature opts)),
    (f64_nonzero (TopP opts)), (extractTopK P (Options opts)) as [k|],
    (isEmpty (Format opts)); simpl;
    try destruct (jsonUnmarshalAny P (Format opts)) as [e|[]]; simpl;
    (split;
     [ split;
       [ intro H; try discriminate H; auto
       | intros (H0 & H1 & H2 & H3); try discriminate; reflexivity ]
     | intros cfg H; try discriminate H; injection H as <-; simpl; auto 10 ]).
Qed.

End GeminiFacts.

(* ===================================================================== *)
(** ** The Gemini client: what a run does on the wire                    *)
(* ===================================================================== *)

Section WireFacts.

Variable St : Type.
Variable P : Platform.

Local Notation callback := (callback St).
Local Notation M := (M St).
Local Notation only := (@only St).

Lemma only_ret (Q : event -> bool) (A : Type) (a : A) : only Q (ret a).
Proof. intro s. reflexivity. Qed.

Lemma only_bind (Q : event -> bool) (A B : Type) (m : M A) (k : A -> M B) :
  only Q m -> (forall a, only Q (k a)) -> only Q (bind m k).
Proof.
  intros Hm Hk s. unfold bind. specialize (Hm s).
  destruct (m s) as [[a s1] t1]. specialize (Hk a s1).
  destruct (k a s1) as [[b s2] t2]. simpl in *. now rewrite forallb_app, Hm, Hk.
Qed.

Lemma only_emit (Q : event -> bool) (e : event) : Q e = true -> only Q (emit e).
Proof. intros H s. simpl. now rewrite H. Qed.

Lemma only_call (Q : event -> bool) (onDelta : callback) (c th : bytes) :
  (forall r, Q (EvDelta c th r) = true) -> only Q (call onDelta c th).
Proof.
  intros H s. unfold call. destruct (onDelta c th s) as [r s1]. simpl. now rewrite H.
Qed.

Lemma only_weaken (Q R : event -> bool) (A : Type) (m : M A) :
  (forall e, Q e = true -> R e = true) -> only Q m -> only R m.
Proof.
  intros H Hm s. specialize (Hm s). revert Hm.
  induction (snd (m s)) as [|e t IH]; simpl; [reflexivity|].
  intro Ht. apply andb_prop in Ht as [He Ht]. now rewrite (H e He), IH.
Qed.

Lemma body_deliver (frags : list bytes) (onDelta : callback) :
  only isBodyEvent (deliver frags onDelta).
Proof.
  induction frags as [|f frags IH]; simpl; [apply only_ret|].
  apply only_bind; [now apply only_call|].
  intros [e|]; [apply only_ret | exact IH].
Qed.

Lemma body_emitGeminiCandidates (cands : list geminiCandidate) (onDelta : callback) :
  only isBodyEvent (emitGeminiCandidates cands onDelta).
Proof.
  intro s. rewrite emitGeminiCandidates_deliver. apply body_deliver.
Qed.

Lemma body_dispatchSSEData (payload : bytes) (onDelta : callback) :
  only isBodyEvent (dispatchSSEData P payload onDelta).
Proof.
  unfold dispatchSSEData. apply only_bind; [now apply only_emit|]. intros _.
  destruct (_ || _); [apply only_ret|].
  destruct (jsonUnmarshalResponse P _) as [err|chunk]; [apply only_ret|].
  destruct (resp_Error chunk); [apply only_ret | apply body_emitGeminiCandidates].
Qed.

Lemma body_processSSELine (line dataBuf : bytes) (onDelta : callback) :
  only isBodyEvent (processSSELine P line dataBuf onDelta).
Proof.
  unfold processSSELine.
  destruct (HasPrefix _ _); [apply only_ret|].
  destruct (_ && _); [|apply only_ret].
  apply only_bind; [apply body_dispatchSSEData|].
  intros [e|]; apply only_ret.
Qed.

Lemma body_handleSSEReadError (err : error) (dataBuf : bytes) (onDelta : callback) :
  only isBodyEvent (handleSSEReadError P err dataBuf onDelta).
Proof.
  unfold handleSSEReadError. destruct (errorsIsEOF err); [|apply only_ret].
  destruct (isEmpty dataBuf); [apply only_ret | apply body_dispatchSSEData].
Qed.

Lemma body_ReadString (r : bufioReader) : only isBodyEvent (@ReadString St r).
Proof.
  apply (only_weaken isRead); [now intros []|].
  intro s. apply ReadString_reads.
Qed.

Lemma body_sseLoop (fuel : nat) (onDelta : callback) :
  forall (r : bufioReader) (dataBuf : bytes),
    only isBodyEvent (sseLoop P fuel r dataBuf onDelta).
Proof.
  induction fuel as [|fuel IH]; intros r dataBuf; simpl; [apply only_ret|].
  apply only_bind; [apply body_ReadString|].
  intros [[line [e|]] r'].
  - apply only_bind; [apply body_handleSSEReadError | intro; apply only_ret].
  - apply only_bind; [apply body_processSSELine|].
    intros [[done err] dataBuf'].
    destruct (_ || _); [apply only_ret | apply IH].
Qed.

Lemma body_readSSEStream (body : Body) (onDelta : callback) :
  only isBodyEvent (readSSEStream P body onDelta).
Proof.
  unfold readSSEStream. apply only_bind; [apply body_sseLoop|].
  intros [r|]; apply only_ret.
Qed.

Lemma body_checkGeminiResponse (resp : Response) :
  only isBodyEvent (checkGeminiResponse P resp).
Proof.
  unfold checkGeminiResponse. destruct (_ <? _)%Z; [apply only_ret|].
  apply only_bind.
  - intro s. unfold ReadAll. simpl. induction (length _) as [|n IH]; simpl; auto.
  - intro body. destruct (jsonUnmarshalError P body) as [e|env];
      [|destruct (env_Error env)]; apply only_ret.
Qed.

(** The shape of a run of [stream] or [nonStream]: nothing when the
    request cannot be built, the request alone when the transport fails,
    and otherwise the request, the handling of the body, and the release
    of the response. *)
Lemma transport_shape (g : Gemini) (endpoint body accept : bytes) (msg : bytes)
      (handle : Response -> M (option error)) (s : St) :
  (forall resp, only isBodyEvent (handle resp)) ->
  let run :=
    match newRequest P g endpoint body with
    | inl err => ret (Some err)
    | inr req =>
        _ <- emit (EvHTTP (withAccept req accept)) ;;
        match httpDo P (withAccept req accept) with
        | inl err => ret (Some (wrapError msg err))
        | inr resp => deferClose (handle resp)
        end
    end s in
  match newRequest P g endpoint body with
  | inl err => run = (Some err, s, [])
  | inr req =>
      match httpDo P (withAccept req accept) with
      | inl err => run = (Some (wrapError msg err), s, [EvHTTP (withAccept req accept)])
      | inr resp =>
          run = (fst (fst (handle resp s)), snd (fst (handle resp s)),
                 EvHTTP (withAccept req accept) :: snd (handle resp s) ++ [EvClose])
          /\ forallb isBodyEvent (snd (handle resp s)) = true
      end
  end.
Proof.
  intros Hh run. subst run.
  destruct (newRequest P g endpoint body) as [err|req]; [reflexivity|].
  unfold bind, emit.
  destruct (httpDo P (withAccept req accept)) as [err|resp]; [reflexivity|].
  unfold deferClose, bind, emit, ret. specialize (Hh resp s).
  destruct (handle resp s) as [[r s1] t1]. simpl in *.
  split; [reflexivity | exact Hh].
Qed.

Lemma headerGet_app (h1 h2 : list (bytes * bytes)) (k : bytes) :
  headerGet (h1 ++ h2) k
  = match headerGet h1 k with Some v => Some v | None => headerGet h2 k end.
Proof.
  induction h1 as [|[k' v] h1 IH]; simpl; [reflexivity|].
  now destruct (bytes_eqb k' k).
Qed.

Lemma headerGet_set_same (h : list (bytes * bytes)) (k v : bytes) :
  headerGet (headerSet h k v) k = Some v.
Proof.
  unfold headerSet. rewrite headerGet_app.
  assert (H : headerGet (filter (fun kv => negb (bytes_eqb (fst kv) k)) h) k = None).
  { induction h as [|[k' v'] h IH]; simpl; [reflexivity|].
    destruct (bytes_eqb k' k) eqn:E; simpl; [exact IH | now rewrite E]. }
  rewrite H. simpl. assert (E : bytes_eqb k k = true) by now apply bytes_eqb_eq.
  now rewrite E.
Qed.

Lemma headerGet_set_other (h : list (bytes * bytes)) (k k' v : bytes) :
  bytes_eqb k k' = false ->
  headerGet (headerSet h k v) k' = headerGet h k'.
Proof.
  intro Hk. unfold headerSet. rewrite headerGet_app. simpl. rewrite Hk.
  assert (H : headerGet (filter (fun kv => negb (bytes_eqb (fst kv) k)) h) k' = headerGet h k').
  { induction h as [|[k0 v0] h IH]; simpl; [reflexivity|].
    destruct (bytes_eqb k0 k) eqn:E; simpl.
    - apply bytes_eqb_eq in E. subst k0. now rewrite Hk.
    - now rewrite IH. }
  rewrite H. now destruct (headerGet h k').
Qed.

(** What [newRequest] fixes of a request, whatever the credentials. *)
Lemma newRequest_headers (g : Gemini) (endpoint body : bytes) (req : Request) :
  newRequest P g endpoint body = inr req ->
  Method req = bs "POST" /\ URL req = attachAPIKey g endpoint /\ req_Body req = body
  /\ headerGet (Header req) (bs "Content-Type") = Some (bs "application/json")
  /\ headerGet (Header req) (bs "User-Agent") = Some browserUserAgent
  /\ headerGet (Header req) (bs "Accept") = None.
Proof.
  unfold newRequest. destruct (urlParseError P _); [discriminate|].
  intro H. injection H as <-. simpl.
  destruct (bytes_eqb (authType g) (bs "auth_token")); repeat split; reflexivity.
Qed.

Lemma body_streamHandler (resp : Response) (onDelta : callback) :
  only isBodyEvent
       (err <- checkGeminiResponse P resp ;;
        match err with
        | Some e => ret (Some e)
        | None => readSSEStream P (resp_Body resp) onDelta
        end).
Proof.
  apply only_bind; [apply body_checkGeminiResponse|].
  intros [e|]; [apply only_ret | apply body_readSSEStream].
Qed.

Lemma body_nonStreamHandler (resp : Response) (onDelta : callback) :
  only isBodyEvent
       (err <- checkGeminiResponse P resp ;;
        match err with
        | Some e => ret (Some e)
        | None =>
            match jsonDecodeBody P (resp_Body resp) with
            | inl err => ret (Some (wrapError (bs "providers/gemini: decode response: ") err))
            | inr out => emitGeminiCandidates (Candidates out) onDelta
            end
        end).
Proof.
  apply only_bind; [apply body_checkGeminiResponse|].
  intros [e|]; [apply only_ret|].
  destruct (jsonDecodeBody P _); [apply only_ret | apply body_emitGeminiCandidates].
Qed.

Lemma transport_wire (streaming : bool) (g : Gemini) (endpoint body : bytes)
      (onDelta : callback) (s : St) :
  let run := (if streaming then stream P g endpoint body onDelta
              else nonStream P g endpoint body onDelta) s in
  match newRequest P g endpoint body with
  | inl err => run = (Some err, s, [])
  | inr req0 =>
      let req := withAccept req0 (acceptOf streaming) in
      match httpDo P req with
      | inl err => snd run = [EvHTTP req] /\ snd (fst run) = s
                   /\ exists msg, fst (fst run) = Some (wrapError msg err)
      | inr resp =>
          exists t, snd run = EvHTTP req :: t ++ [EvClose]
                    /\ forallb isBodyEvent t = true
      end
  end.
Proof.
  destruct streaming; unfold acceptOf.
  - pose proof (transport_shape g endpoint body (bs "text/event-stream")
                  (bs "providers/gemini: stream request failed: ")
                  (fun resp => err <- checkGeminiResponse P resp ;;
                               match err with
                               | Some e => ret (Some e)
                               | None => readSSEStream P (resp_Body resp) onDelta
                               end) s
                  (fun resp => body_streamHandler resp onDelta)) as H.
    change (stream P g endpoint body onDelta s) with
      (match newRequest P g endpoint body with
       | inl err => ret (Some err)
       | inr req =>
           _ <- emit (EvHTTP (withAccept req (bs "text/event-stream"))) ;;
           match httpDo P (withAccept req (bs "text/event-stream")) with
           | inl err => ret (Some (wrapError (bs "providers/gemini: stream request failed: ") err))
           | inr resp =>
               deferClose (err <- checkGeminiResponse P resp ;;
                           match err with
                           | Some e => ret (Some e)
                           | None => readSSEStream P (resp_Body resp) onDelta
                           end)
           end
       end s).
    cbv zeta in *.
    destruct (newRequest P g endpoint body) as [err|req0]; [exact H|].
    destruct (httpDo P _) as [err|resp].
    + rewrite H. simpl. eauto.
    + destruct H as [H Hb]. rewrite H. simpl. eauto.
  - pose proof (transport_shape g endpoint body (bs "application/json")
                  (bs "providers/gemini: request failed: ")
                  (fun resp =>
                     err <- checkGeminiResponse P resp ;;
                     match err with
                     | Some e => ret (Some e)
                     | None =>
                         match jsonDecodeBody P (resp_Body resp) with
                         | inl err =>
                             ret (Some (wrapError (bs "providers/gemini: decode response: ") err))
                         | inr out => emitGeminiCandidates (Candidates out) onDelta
                         end
                     end) s
                  (fun resp => body_nonStreamHandler resp onDelta)) as H.
    change (nonStream P g endpoint body onDelta s) with
      (match newRequest P g endpoint body with
       | inl err => ret (Some err)
       | inr req =>
           _ <- emit (EvHTTP (withAccept req (bs "application/json"))) ;;
           match httpDo P (withAccept req (bs "application/json")) with
           | inl err => ret (Some (wrapError (bs "providers/gemini: request failed: ") err))
           | inr resp =>
               deferClose (err <- checkGeminiResponse P resp ;;
                           match err with
                           | Some e => ret (Some e)
                           | None =>
                               match jsonDecodeBody P (resp_Body resp) with
                               | inl err =>
                                   ret (Some (wrapError (bs "providers/gemini: decode response: ") err))
                               | inr out => emitGeminiCandidates (Candidates out) onDelta
                               end
                           end)
           end
       end s).
    cbv zeta in *.
    destruct (newRequest P g endpoint body) as [err|req0]; [exact H|].
    destruct (httpDo P _) as [err|resp].
    + rewrite H. simpl. eauto.
    + destruct H as [H Hb]. rewrite H. simpl. eauto.
Qed.

(** A run of [Chat] either fails without touching the network and
    the callback, or sends exactly one request, first of all: a POST of
    the encoded request body to the endpoint with the credentials
    attached, with the JSON content type, the browser user agent and the
    [Accept] header of its mode.  When the transport fails nothing else
    happens and its error is returned wrapped; otherwise only reads,
    dispatches and callback calls follow, and the response body is closed
    once, at the very end. *)
Theorem Gemini_Chat_wire (g : option Gemini) (opts : ChatOptions St) (s : St) :
  let run := Gemini_Chat P g opts s in
  (snd run = [] /\ snd (fst run) = s /\ fst (fst run) <> None)
  \/ exists g' endpoint body req,
       g = Some g'
       /\ buildRequestBody P opts = inr body
       /\ buildEndpoint g' (Model opts) (Stream opts) = inr endpoint
       /\ Method req = bs "POST"
       /\ URL req = attachAPIKey g' endpoint
       /\ req_Body req = body
       /\ headerGet (Header req) (bs "Content-Type") = Some (bs "application/json")
       /\ headerGet (Header req) (bs "User-Agent") = Some browserUserAgent
       /\ headerGet (Header req) (bs "Accept") = Some (acceptOf (Stream opts))
       /\ match httpDo P req with
          | inl err =>
              snd run = [EvHTTP req] /\ snd (fst run) = s
              /\ exists msg, fst (fst run) = Some (wrapError msg err)
          | inr resp =>
              exists t, snd run = EvHTTP req :: t ++ [EvClose]
                        /\ forallb isBodyEvent t = true
          end.
Proof.
  intro run. subst run.
  assert (Hl : forall e : error,
             snd (@ret St _ (Some e) s) = [] /\ snd (fst (@ret St _ (Some e) s)) = s
             /\ fst (fst (@ret St _ (Some e) s)) <> None)
    by (intro e; simpl; repeat split; discriminate).
  destruct g as [g'|]; [|left; apply Hl]. simpl.
  destruct (client g'); [|left; apply Hl].
  destruct (isEmpty (TrimSpace (Model opts))); [left; apply Hl|].
  destruct (buildRequestBody P opts) as [err|body] eqn:Eb; [left; apply Hl|].
  destruct (buildEndpoint g' (Model opts) (Stream opts)) as [err|endpoint] eqn:Ee;
    [left; apply Hl|].
  pose proof (transport_wire (Stream opts) g' endpoint body
                (onDeltaOrNoop (OnDelta opts)) s) as H.
  cbv zeta in H.
  destruct (newRequest P g' endpoint body) as [err|req0] eqn:Er.
  - left. rewrite H. apply Hl.
  - right. exists g', endpoint, body, (withAccept req0 (acceptOf (Stream opts))).
    destruct (newRequest_headers g' endpoint body req0 Er) as (Hm & Hu & Hb & Hc & Ha & _).
    split; [reflexivity|]. split; [reflexivity|]. split; [exact Ee|].
    split; [exact Hm|]. split; [exact Hu|]. split; [exact Hb|].
    split; [simpl; rewrite headerGet_set_other; [exact Hc | reflexivity]|].
    split; [simpl; rewrite headerGet_set_other; [exact Ha | reflexivity]|].
    split; [simpl; apply headerGet_set_same|].
    exact H.
Qed.

(** An answer with status 400 or more, on either path: the body is
    read to its end, the response is closed, the callback is not called
    and its state is untouched, and the run returns the error
    [checkGeminiResponse] makes of the answer. *)
Theorem Gemini_error_status_skips_callback
        (streaming : bool) (g : Gemini) (endpoint body : bytes) (onDelta : callback)
        (s : St) (req : Request) (resp : Response) :
  newRequest P g endpoint body = inr req ->
  httpDo P (withAccept req (acceptOf streaming)) = inr resp ->
  (httpStatusClientErr <= StatusCode resp)%Z ->
  let run := (if streaming then stream P g endpoint body onDelta
              else nonStream P g endpoint body onDelta) s in
  snd run = EvHTTP (withAccept req (acceptOf streaming))
              :: repeat EvRead (S (length (chunks (resp_Body resp)))) ++ [EvClose]
  /\ snd (fst run) = s
  /\ fst (fst run) = fst (fst (checkGeminiResponse P resp s))
  /\ fst (fst run) <> None.
Proof.
  intros Hr Hd Hs run. subst run.
  assert (Hlt : (StatusCode resp <? httpStatusClientErr)%Z = false) by now apply Z.ltb_ge.
  destruct streaming; unfold stream, nonStream, acceptOf in *; rewrite Hr;
    fold (withAccept req (bs "text/event-stream"));
    fold (withAccept req (bs "application/json"));
    unfold bind, emit; rewrite Hd;
    unfold deferClose, bind, emit, ret, checkGeminiResponse, ReadAll, bind; rewrite Hlt;
    (destruct (jsonUnmarshalError P _) as [e|env]; [|destruct (env_Error env)]);
    simpl; rewrite ?app_nil_r; repeat split; discriminate.
Qed.

(** A non-streaming answer below status 400: when the body decodes,
    the text fragments of its candidates are delivered to the callback in
    order up to the first call that fails, whatever error object the body
    carries beside them; when it does not decode, the decoder's error is
    returned wrapped and the callback is not called.  The response is
    closed in both cases. *)
Theorem nonStream_delivers
        (g : Gemini) (endpoint body : bytes) (onDelta : callback)
        (s : St) (req : Request) (resp : Response) :
  newRequest P g endpoint body = inr req ->
  httpDo P (withAccept req (bs "application/json")) = inr resp ->
  (StatusCode resp < httpStatusClientErr)%Z ->
  match jsonDecodeBody P (resp_Body resp) with
  | inl err =>
      nonStream P g endpoint body onDelta s
      = (Some (wrapError (bs "providers/gemini: decode response: ") err), s,
         [EvHTTP (withAccept req (bs "application/json")); EvClose])
  | inr out =>
      nonStream P g endpoint body onDelta s
      = (fst (fst (deliver (textFragments (Candidates out)) onDelta s)),
         snd (fst (deliver (textFragments (Candidates out)) onDelta s)),
         EvHTTP (withAccept req (bs "application/json"))
           :: snd (deliver (textFragments (Candidates out)) onDelta s) ++ [EvClose])
  end.
Proof.
  intros Hr Hd Hs.
  assert (Hlt : (StatusCode resp <? httpStatusClientErr)%Z = true) by now apply Z.ltb_lt.
  unfold nonStream. rewrite Hr. fold (withAccept req (bs "application/json")).
  unfold bind at 1. unfold emit. rewrite Hd.
  unfold deferClose, checkGeminiResponse. rewrite Hlt.
  destruct (jsonDecodeBody P (resp_Body resp)) as [err|out]; [reflexivity|].
  unfold bind, emit, ret. simpl.
  rewrite emitGeminiCandidates_deliver.
  destruct (deliver (textFragments (Candidates out)) onDelta s) as [[r s1] t1].
  simpl. rewrite ?app_nil_r. reflexivity.
Qed.

Lemma sseRun_truncated (fin : error) (onDelta : callback) (ls : list bytes) :
  errorsIsEOF fin = false ->
  forall (acc : bytes) (s : St),
    (fst (fst (sseRun P ls fin acc onDelta s))
     = Some (wrapError (bs "providers/gemini: read stream: ") fin)
     /\ dispatched (snd (sseRun P ls fin acc onDelta s)) = sseCompleted ls acc)
    \/ exists pre p post e s',
         sseCompleted ls acc = pre ++ p :: post
         /\ dispatched (snd (sseRun P ls fin acc onDelta s)) = pre ++ [p]
         /\ fst (fst (dispatchSSEData P p onDelta s')) = Some e
         /\ fst (fst (sseRun P ls fin acc onDelta s)) = Some e.
Proof.
  intro Hfin. induction ls as [|l ls IH]; intros acc s; simpl.
  - left. unfold handleSSEReadError. rewrite Hfin. split; reflexivity.
  - unfold processSSELine.
    destruct (HasPrefix (TrimRight l CRLF) dataPrefix).
    + unfold bind, ret. simpl.
      destruct acc as [|a acc]; simpl.
      * specialize (IH (TrimSpace (TrimPrefix (TrimRight l CRLF) dataPrefix)) s).
        now destruct (sseRun P ls fin _ onDelta s) as [[r s1] t1].
      * rewrite <- app_assoc. simpl.
        specialize (IH (a :: acc ++ x0a :: TrimSpace (TrimPrefix (TrimRight l CRLF) dataPrefix)) s).
        now destruct (sseRun P ls fin _ onDelta s) as [[r s1] t1].
    + destruct (TrimRight l CRLF) as [|c l'], acc as [|a acc]; simpl;
        try (unfold bind, ret; simpl; specialize (IH [] s);
             now destruct (sseRun P ls fin _ onDelta s) as [[r s1] t1]);
        try (unfold bind, ret; simpl; specialize (IH (a :: acc) s);
             now destruct (sseRun P ls fin _ onDelta s) as [[r s1] t1]).
      unfold bind, ret.
      pose proof (dispatchSSEData_dispatched St P (a :: acc) onDelta s) as Hd.
      destruct (dispatchSSEData P (a :: acc) onDelta s) as [[[e|] s1] t1] eqn:Ed;
        cbn [fst snd] in *.
      * right. exists [], (a :: acc), (sseCompleted ls []), e, s.
        rewrite Ed. cbn -[dispatched dispatchSSEData bs]. rewrite ?app_nil_r. repeat split; auto.
      * specialize (IH [] s1). cbn -[dispatched dispatchSSEData bs].
        destruct (sseRun P ls fin [] onDelta s1) as [[r s2] t2]. cbn [fst snd] in *.
        rewrite app_nil_r, dispatched_app, Hd.
        destruct IH as [[Hr Ht]|(pre & p & post & e & s' & Hc & Ht & He & Hr)].
        -- left. rewrite Ht. split; [exact Hr | reflexivity].
        -- right. exists ((a :: acc) :: pre), p, post, e, s'.
           rewrite Hc, Ht. repeat split; auto.
Qed.

(** A stream whose body ends with an error other than end of input
    never succeeds, and the data lines after its last blank line are never
    dispatched.  Either every event completed by a blank line was
    dispatched and the run returns the read error wrapped, or the run
    stopped at a dispatch that failed and returns that dispatch's error. *)
Theorem readSSEStream_truncated (body : Body) (onDelta : callback) (s : St) :
  progresses maxConsecutiveEmptyReads (chunks body) = true ->
  errorsIsEOF (final body) = false ->
  let run := readSSEStream P body onDelta s in
  let completed := sseCompleted (fst (lines (concat (chunks body)))) [] in
  (fst (fst run) = Some (wrapError (bs "providers/gemini: read stream: ") (final body))
   /\ dispatched (snd run) = completed)
  \/ exists pre p post e s',
       completed = pre ++ p :: post
       /\ dispatched (snd run) = pre ++ [p]
       /\ fst (fst (dispatchSSEData P p onDelta s')) = Some e
       /\ fst (fst run) = Some e.
Proof.
  intros Hp Hfin run completed. subst run completed.
  pose proof (readSSEStream_sseRun St P body onDelta s Hp) as H.
  pose proof (sseRun_truncated (final body) onDelta (fst (lines (concat (chunks body))))
                Hfin [] s) as Hrun.
  unfold observe in H.
  destruct (readSSEStream P body onDelta s) as [[r s1] t1].
  destruct (sseRun P _ (final body) [] onDelta s) as [[r' s1'] t1'].
  injection H as -> -> Ht. simpl in *.
  rewrite <- (dispatched_noReads t1), Ht, dispatched_noReads. exact Hrun.
Qed.

End WireFacts.

Lemma Gemini_error_status_skips_callback_witness :
  (newRequest Faults.rejecting (Sample.gemini (bs "api_key")) Faults.endpoint (bs "{}")
   = inr Faults.request
   /\ httpDo Faults.rejecting (withAccept Faults.request (acceptOf false)) = inr Faults.rejected
   /\ (httpStatusClientErr <= StatusCode Faults.rejected)%Z)
  /\ snd (nonStream Faults.rejecting (Sample.gemini (bs "api_key")) Faults.endpoint (bs "{}")
                    Sample.record [])
     = [EvHTTP (withAccept Faults.request (acceptOf false)); EvRead; EvRead; EvClose].
Proof.
  split; [split; [reflexivity | split; [reflexivity | discriminate]]|].
  refine (proj1 (Gemini_error_status_skips_callback (list bytes) Faults.rejecting false
                   (Sample.gemini (bs "api_key")) Faults.endpoint (bs "{}") Sample.record []
                   Faults.request Faults.rejected eq_refl eq_refl _)).
  discriminate.
Defined.

Lemma nonStream_delivers_witness :
  (newRequest Faults.answering (Sample.gemini (bs "api_key")) Faults.endpoint (bs "{}")
   = inr Faults.request
   /\ httpDo Faults.answering (withAccept Faults.request (bs "application/json"))
      = inr Faults.answered
   /\ (StatusCode Faults.answered < httpStatusClientErr)%Z)
  /\ nonStream Faults.answering (Sample.gemini (bs "api_key")) Faults.endpoint (bs "{}")
               Sample.record []
     = (None, [bs "Hel"; bs "lo"],
        [EvHTTP (withAccept Faults.request (bs "application/json"));
         EvDelta (bs "Hel") [] None; EvDelta (bs "lo") [] None; EvClose]).
Proof.
  split; [split; [reflexivity | split; reflexivity]|].
  exact (nonStream_delivers (list bytes) Faults.answering (Sample.gemini (bs "api_key"))
           Faults.endpoint (bs "{}") Sample.record [] Faults.request Faults.answered
           eq_refl eq_refl eq_refl).
Defined.

Lemma readSSEStream_truncated_witness :
  (progresses maxConsecutiveEmptyReads (chunks Faults.cut) = true
   /\ errorsIsEOF (final Faults.cut) = false)
  /\ ((fst (fst (readSSEStream Sample.platform Faults.cut Sample.record []))
       = Some (wrapError (bs "providers/gemini: read stream: ") Faults.reset)
       /\ dispatched (snd (readSSEStream Sample.platform Faults.cut Sample.record []))
          = [bs "a"])
      \/ exists pre p post e s',
           [bs "a"] = pre ++ p :: post
           /\ dispatched (snd (readSSEStream Sample.platform Faults.cut Sample.record []))
              = pre ++ [p]
           /\ fst (fst (dispatchSSEData Sample.platform p Sample.record s')) = Some e
           /\ fst (fst (readSSEStream Sample.platform Faults.cut Sample.record [])) = Some e).
Proof.
  split; [split; reflexivity|].
  exact (readSSEStream_truncated (list bytes) Sample.platform Faults.cut Sample.record []
           eq_refl eq_refl).
Defined.

(** The stream cut after one event: the event is delivered, the data
    line that followed it is not, and the read error is returned. *)
Example readSSEStream_cut :
  observe (readSSEStream Sample.platform Faults.cut Sample.record) []
  = (Some (wrapError (bs "providers/gemini: read stream: ") Faults.reset), [bs "a"],
     [EvDispatch (bs "a"); EvDelta (bs "a") [] None]).
Proof. vm_compute. reflexivity. Qed.

(* ===================================================================== *)
(** ** The Ollama options and the OpenAI client                          *)
(* ===================================================================== *)

Section OptionFacts.

Lemma mapGet_app (m1 m2 : list (bytes * any)) (k : bytes) :
  mapGet (m1 ++ m2) k
  = match mapGet m1 k with Some v => Some v | None => mapGet m2 k end.
Proof.
  induction m1 as [|[k' v] m1 IH]; simpl; [reflexivity|].
  now destruct (bytes_eqb k' k).
Qed.

Lemma mapGet_mapSet_same (m : list (bytes * any)) (k : bytes) (v : any) :
  mapGet (mapSet m k v) k = Some v.
Proof.
  unfold mapSet. rewrite mapGet_app.
  assert (H : mapGet (filter (fun kv => negb (bytes_eqb (fst kv) k)) m) k = None).
  { induction m as [|[k' v'] m IH]; simpl; [reflexivity|].
    destruct (bytes_eqb k' k) eqn:E; simpl; [exact IH | now rewrite E]. }
  rewrite H. simpl. assert (E : bytes_eqb k k = true) by now apply bytes_eqb_eq.
  now rewrite E.
Qed.

Lemma mapGet_mapSet_other (m : list (bytes * any)) (k k' : bytes) (v : any) :
  bytes_eqb k k' = false ->
  mapGet (mapSet m k v) k' = mapGet m k'.
Proof.
  intro Hk. unfold mapSet. rewrite mapGet_app. simpl. rewrite Hk.
  assert (H : mapGet (filter (fun kv => negb (bytes_eqb (fst kv) k)) m) k' = mapGet m k').
  { induction m as [|[k0 v0] m IH]; simpl; [reflexivity|].
    destruct (bytes_eqb k0 k) eqn:E; simpl.
    - apply bytes_eqb_eq in E. subst k0. now rewrite Hk.
    - now rewrite IH. }
  rewrite H. now destruct (mapGet m k').
Qed.

Lemma mapGet_absent (m : list (bytes * any)) (k : bytes) :
  ~ In k (map fst m) -> mapGet m k = None.
Proof.
  induction m as [|[k' v] m IH]; simpl; [reflexivity|]. intro H.
  destruct (bytes_eqb k' k) eqn:E.
  - apply bytes_eqb_eq in E. tauto.
  - apply IH. tauto.
Qed.

(** Copying a map with distinct keys over another, entry by entry. *)
Lemma mapGet_copy (src : list (bytes * any)) (k : bytes) :
  NoDup (map fst src) ->
  forall m : list (bytes * any),
    mapGet (fold_left (fun m kv => mapSet m (fst kv) (snd kv)) src m) k
    = match mapGet src k with Some v => Some v | None => mapGet m k end.
Proof.
  induction src as [|[k0 v0] src IH]; intros Hnd m; simpl; [reflexivity|].
  inversion Hnd as [|? ? Hk0 Hnd']; subst. rewrite (IH Hnd').
  destruct (bytes_eqb k0 k) eqn:E.
  - apply bytes_eqb_eq in E. subst k0.
    rewrite (mapGet_absent src k Hk0). apply mapGet_mapSet_same.
  - destruct (mapGet src k); [reflexivity|]. now apply mapGet_mapSet_other.
Qed.

End OptionFacts.

Section OllamaOpenAIFacts.

Variable St : Type.
Variable P : Platform.
Variable formatOpenAIAPIError : bytes -> error -> error.

Local Notation callback := (callback St).

(** The options map [mergeOptions] builds for Ollama, read key by key:
    an entry of the user's options wins; otherwise [enable_thinking] is
    the think flag, [temperature] and [top_p] are the sampling values when
    these are not zero, and no other key is present. *)
Theorem mergeOptions_lookup (opts : ChatOptions St) (k : bytes) :
  NoDup (map fst (Options opts)) ->
  mapGet (mergeOptions opts) k
  = match mapGet (Options opts) k with
    | Some v => Some v
    | None =>
        if bytes_eqb k (bs "enable_thinking") then Some (anyBool (Think opts))
        else if bytes_eqb k (bs "temperature")
             then if f64_nonzero (Temperature opts)
                  then Some (anyFloat64 (Temperature opts)) else None
        else if bytes_eqb k (bs "top_p")
             then if f64_nonzero (TopP opts) then Some (anyFloat64 (TopP opts)) else None
        else None
    end.
Proof.
  intro Hnd. unfold mergeOptions. rewrite (mapGet_copy _ k Hnd).
  destruct (mapGet (Options opts) k); [reflexivity|].
  assert (Hsym : forall a b, bytes_eqb a b = bytes_eqb b a).
  { intros a b. destruct (bytes_eqb a b) eqn:E.
    - apply bytes_eqb_eq in E. subst. symmetry. now apply bytes_eqb_eq.
    - symmetry. apply bytes_eqb_neq. apply bytes_eqb_neq in E. congruence. }
  destruct (bytes_eqb k (bs "enable_thinking")) eqn:E1.
  - apply bytes_eqb_eq in E1. subst k.
    destruct (f64_nonzero (Temperature opts)), (f64_nonzero (TopP opts)); reflexivity.
  - destruct (bytes_eqb k (bs "temperature")) eqn:E2.
    + apply bytes_eqb_eq in E2. subst k.
      destruct (f64_nonzero (Temperature opts)), (f64_nonzero (TopP opts)); reflexivity.
    + destruct (bytes_eqb k (bs "top_p")) eqn:E3.
      * apply bytes_eqb_eq in E3. subst k.
        destruct (f64_nonzero (Temperature opts)), (f64_nonzero (TopP opts)); reflexivity.
      * rewrite (Hsym k) in E1, E2, E3.
        destruct (f64_nonzero (Temperature opts)), (f64_nonzero (TopP opts));
          rewrite ?mapGet_mapSet_other by assumption; cbn [mapGet]; now rewrite E1.
Qed.

Lemma noNexts_app (t1 t2 : list event) : noNexts (t1 ++ t2) = noNexts t1 ++ noNexts t2.
Proof. apply filter_app. Qed.

Lemma streamingLoop_deliver (onDelta : callback) (chs : list ChatCompletion) :
  forall s : St,
    fst (streamingLoop chs onDelta s) = fst (deliver (streamContents chs) onDelta s)
    /\ noNexts (snd (streamingLoop chs onDelta s))
       = snd (deliver (streamContents chs) onDelta s).
Proof.
  induction chs as [|ch chs IH]; intro s; [split; reflexivity|].
  unfold streamContents in *. simpl.
  destruct (Choices ch) as [|c0 cs]; simpl.
  - specialize (IH s). unfold bind, emit.
    destruct (streamingLoop chs onDelta s) as [[r s1] t1]. exact IH.
  - destruct (isEmpty (TrimSpace c0)); simpl.
    + specialize (IH s). unfold bind, emit.
      destruct (streamingLoop chs onDelta s) as [[r s1] t1]. exact IH.
    + unfold bind, emit, call.
      destruct (onDelta (TrimSpace c0) [] s) as [[e|] s1]; [split; reflexivity|].
      specialize (IH s1).
      destruct (streamingLoop chs onDelta s1) as [[r s2] t2].
      destruct (deliver _ onDelta s1) as [[r' s2'] t2']. simpl in *.
      destruct IH as [IH1 IH2]. split; [exact IH1 | now rewrite IH2].
Qed.

(** The streaming path of the OpenAI client: the request is opened once,
    the trimmed non-empty first-choice contents of the chunks go to the
    callback in order up to the first call that fails, and the stream is
    closed at the end.  A call that fails gives the result; otherwise the
    error of the stream, if any, is returned formatted, after every chunk
    was delivered. *)
Theorem handleStreamingChat_delivers
        (params : ChatCompletionNewParams) (onDelta : callback) (s : St) :
  let d := deliver (streamContents (fst (openaiStreaming P params))) onDelta s in
  let run := handleStreamingChat P formatOpenAIAPIError params onDelta s in
  noNexts (snd run) = EvOpenAIStreaming params :: snd d ++ [EvClose]
  /\ snd (fst run) = snd (fst d)
  /\ fst (fst run)
     = match fst (fst d) with
       | Some e => Some e
       | None =>
           match snd (openaiStreaming P params) with
           | Some e =>
               Some (formatOpenAIAPIError
                       (bs "providers/openai: streaming chat completion failed") e)
           | None => None
           end
       end.
Proof.
  intros d run. subst d run. unfold handleStreamingChat, deferClose, bind, emit, ret.
  destruct (streamingLoop_deliver onDelta (fst (openaiStreaming P params)) s) as [H1 H2].
  destruct (streamingLoop (fst (openaiStreaming P params)) onDelta s) as [[r s1] t1].
  destruct (deliver _ onDelta s) as [[r' s1'] t1']. simpl in H1, H2.
  injection H1 as <- <-. subst t1'.
  destruct r as [e|]; [|destruct (snd (openaiStreaming P params))];
    simpl; rewrite ?app_nil_r, ?noNexts_app; simpl; auto.
Qed.

(** The response format of the OpenAI parameters: it is unset exactly
    when the suppress-format flag is set, and a schema is sent only for
    a non-empty format that is not the JSON marker and that decodes,
    always under the name [dino_schema] and strict. *)
Theorem openaiParams_ResponseFormat (opts : ChatOptions St) :
  (ResponseFormat (openaiParams P opts) = formatUnset <-> NoResponseFormat opts = true)
  /\ forall name strict schema,
       ResponseFormat (openaiParams P opts) = OfJSONSchema name strict schema ->
       name = bs "dino_schema" /\ strict = true
       /\ jsonUnmarshalAny P (Format opts) = inr schema
       /\ Format opts <> []
       /\ TrimSpace (Format opts) <> jsonLiteral
       /\ TrimSpace (Format opts) <> bs "json".
Proof.
  unfold openaiParams, toResponseFormat. simpl.
  destruct (NoResponseFormat opts); simpl.
  - split; [tauto | discriminate].
  - destruct (Format opts) as [|c f] eqn:Ef; simpl.
    + split; [split; discriminate | discriminate].
    + destruct (bytes_eqb (TrimSpace (c :: f)) jsonLiteral) eqn:E1; simpl.
      * split; [split; discriminate | discriminate].
      * destruct (bytes_eqb (TrimSpace (c :: f)) (bs "json")) eqn:E2; simpl.
        -- split; [split; discriminate | discriminate].
        -- apply bytes_eqb_neq in E1, E2.
           destruct (jsonUnmarshalAny P (c :: f)) as [err|schema].
           ++ split; [split; discriminate | discriminate].
           ++ split; [split; discriminate|].
              intros name strict schema' H. injection H as <- <- <-.
              repeat split; auto; discriminate.
Qed.

End OllamaOpenAIFacts.

Lemma mergeOptions_lookup_witness :
  NoDup (map fst [(bs "temperature", anyInt 1); (bs "top_k", anyInt 40)])
  /\ mapGet (mergeOptions
               {| Model := bs "m"; Prompt := bs "describe"; SystemPrompt := [];
                  Stream := false; Think := true; Temperature := Sample.half;
                  TopP := Sample.zero; Format := []; NoResponseFormat := false;
                  Images := [];
                  Options := [(bs "temperature", anyInt 1); (bs "top_k", anyInt 40)];
                  OnDelta := Some Sample.record |})
            (bs "temperature")
     = Some (anyInt 1).
Proof.
  assert (H : NoDup (map fst [(bs "temperature", anyInt 1); (bs "top_k", anyInt 40)])).
  { simpl. constructor; [|constructor; [|constructor]]; simpl; intuition discriminate. }
  split; [exact H|].
  exact (mergeOptions_lookup (list bytes)
           {| Model := bs "m"; Prompt := bs "describe"; SystemPrompt := [];
              Stream := false; Think := true; Temperature := Sample.half;
              TopP := Sample.zero; Format := []; NoResponseFormat := false;
              Images := [];
              Options := [(bs "temperature", anyInt 1); (bs "top_k", anyInt 40)];
              OnDelta := Some Sample.record |}
           (bs "temperature") H).
Defined.

(* ===================================================================== *)
(** ** The OpenAI error report                                           *)
(* ===================================================================== *)

Lemma HasPrefix_self (p r : bytes) : HasPrefix (p ++ r) p = true.
Proof.
  induction p as [|c p IH]; simpl; [now destruct r|]. now rewrite byte_eqb_refl, IH.
Qed.

Lemma HasPrefix_app_l (s r p : bytes) : HasPrefix s p = true -> HasPrefix (s ++ r) p = true.
Proof.
  revert s. induction p as [|c p IH]; intros s H; [now destruct (s ++ r)|].
  destruct s as [|d s]; [discriminate|]. simpl in *.
  apply andb_prop in H as [H1 H2]. now rewrite H1, IH.
Qed.

Lemma HasSuffix_app_r (a s suf : bytes) : HasSuffix s suf = true -> HasSuffix (a ++ s) suf = true.
Proof.
  unfold HasSuffix. intro H. rewrite rev_app_distr. now apply HasPrefix_app_l.
Qed.

(** *** The order of [sort.Strings] *)

Lemma to_N_inj (x y : byte) : Byte.to_N x = Byte.to_N y -> x = y.
Proof.
  intro H. assert (E : Byte.of_N (Byte.to_N x) = Byte.of_N (Byte.to_N y)) by now rewrite H.
  rewrite !Byte.of_to_N in E. congruence.
Qed.

Lemma bytes_ltb_irrefl (a : bytes) : bytes_ltb a a = false.
Proof.
  induction a as [|x a IH]; simpl; [reflexivity|]. now rewrite N.ltb_irrefl.
Qed.

Lemma bytes_ltb_trans (a b c : bytes) :
  bytes_ltb a b = true -> bytes_ltb b c = true -> bytes_ltb a c = true.
Proof.
  revert b c. induction a as [|x a IH]; intros [|y b] [|z c]; simpl; try discriminate; auto.
  destruct (N.ltb_spec (Byte.to_N x) (Byte.to_N y)), (N.ltb_spec (Byte.to_N y) (Byte.to_N x)),
    (N.ltb_spec (Byte.to_N y) (Byte.to_N z)), (N.ltb_spec (Byte.to_N z) (Byte.to_N y)),
    (N.ltb_spec (Byte.to_N x) (Byte.to_N z)), (N.ltb_spec (Byte.to_N z) (Byte.to_N x));
    try discriminate; try lia; auto.
  apply IH.
Qed.

Lemma bytes_ltb_asym (a b : bytes) : bytes_ltb a b = true -> bytes_ltb b a = false.
Proof.
  intro H. destruct (bytes_ltb b a) eqn:E; [|reflexivity].
  pose proof (bytes_ltb_trans _ _ _ H E) as F. now rewrite bytes_ltb_irrefl in F.
Qed.

Lemma bytes_ltb_total (a b : bytes) :
  bytes_ltb a b = false -> bytes_ltb b a = false -> a = b.
Proof.
  revert b. induction a as [|x a IH]; intros [|y b]; simpl; try discriminate; auto.
  destruct (N.ltb_spec (Byte.to_N x) (Byte.to_N y)), (N.ltb_spec (Byte.to_N y) (Byte.to_N x));
    try discriminate; try lia.
  intros Ha Hb. f_equal; [apply to_N_inj; lia | now apply IH].
Qed.

(** [a <= b]. *)
Local Notation leS := (fun a b : bytes => bytes_ltb b a = false).

Lemma leS_trans (a b c : bytes) :
  bytes_ltb b a = false -> bytes_ltb c b = false -> bytes_ltb c a = false.
Proof.
  intros Hab Hbc. destruct (bytes_ltb c a) eqn:E; [|reflexivity].
  destruct (bytes_ltb a b) eqn:F.
  - pose proof (bytes_ltb_trans _ _ _ E F). congruence.
  - assert (a = b) by now apply bytes_ltb_total. subst. congruence.
Qed.

Lemma insertString_perm (k : bytes) (l : list bytes) :
  Permutation (insertString k l) (k :: l).
Proof.
  induction l as [|h t IH]; simpl; [reflexivity|].
  destruct (bytes_ltb h k); [|reflexivity].
  rewrite IH. apply perm_swap.
Qed.

Lemma sortStrings_perm (l : list bytes) : Permutation (sortStrings l) l.
Proof.
  induction l as [|k l IH]; simpl; [reflexivity|].
  rewrite insertString_perm. now constructor.
Qed.

Lemma insertString_sorted (k : bytes) (l : list bytes) :
  StronglySorted leS l -> StronglySorted leS (insertString k l).
Proof.
  induction l as [|h t IH]; intro Hs; simpl.
  - constructor; constructor.
  - inversion Hs as [|? ? Ht Hh]; subst.
    destruct (bytes_ltb h k) eqn:E.
    + constructor; [now apply IH|].
      refine (Permutation_Forall (Permutation_sym (insertString_perm k t)) _).
      constructor; [now apply bytes_ltb_asym | exact Hh].
    + constructor; [exact Hs|]. constructor; [exact E|].
      revert Hh. apply Forall_impl. intros c Hc. now apply (leS_trans k h c).
Qed.

Lemma sortStrings_sorted (l : list bytes) : StronglySorted leS (sortStrings l).
Proof.
  induction l as [|k l IH]; simpl; [constructor | now apply insertString_sorted].
Qed.

Lemma sorted_perm_eq (l1 l2 : list bytes) :
  StronglySorted leS l1 -> StronglySorted leS l2 -> Permutation l1 l2 -> l1 = l2.
Proof.
  revert l2. induction l1 as [|a l1 IH]; intros l2 H1 H2 Hp.
  - apply Permutation_nil in Hp. now subst.
  - destruct l2 as [|b l2]; [symmetry in Hp; now apply Permutation_nil in Hp|].
    inversion H1 as [|? ? H1' Ha]; subst. inversion H2 as [|? ? H2' Hb]; subst.
    assert (a = b).
    { assert (Hin : In a (b :: l2)) by (apply (Permutation_in _ Hp); now left).
      assert (Hin' : In b (a :: l1)) by (apply (Permutation_in _ (Permutation_sym Hp)); now left).
      destruct Hin as [->|Hin]; [reflexivity|].
      destruct Hin' as [->|Hin']; [reflexivity|].
      rewrite Forall_forall in Ha, Hb.
      apply bytes_ltb_total; [apply (Hb _ Hin) | apply (Ha _ Hin')]. }
    subst b. f_equal. apply IH; auto. now apply Permutation_cons_inv in Hp.
Qed.

(** The sorted keys do not depend on the order they were collected in. *)
Lemma sortStrings_order (l1 l2 : list bytes) :
  Permutation l1 l2 -> sortStrings l1 = sortStrings l2.
Proof.
  intro Hp. apply sorted_perm_eq; try apply sortStrings_sorted.
  now rewrite !sortStrings_perm.
Qed.

Lemma headerValues_absent (h : httpHeader) (key : bytes) :
  ~ In key (map fst h) -> headerValues h key = [].
Proof.
  induction h as [|[k vs] h IH]; simpl; [reflexivity|]. intro H.
  destruct (bytes_eqb k key) eqn:E.
  - apply bytes_eqb_eq in E. tauto.
  - apply IH. tauto.
Qed.

Lemma headerValues_order (h1 h2 : httpHeader) (key : bytes) :
  Permutation h1 h2 -> NoDup (map fst h1) ->
  headerValues h1 key = headerValues h2 key.
Proof.
  induction 1 as [|[k vs] h1 h2 Hp IH|[k1 v1] [k2 v2] h|h1 h2 h3 Hp1 IH1 Hp2 IH2];
    intro Hnd; simpl in *.
  - reflexivity.
  - inversion Hnd; subst. now rewrite IH.
  - inversion Hnd as [|? ? Hk Hnd']; subst.
    destruct (bytes_eqb k2 key) eqn:E2, (bytes_eqb k1 key) eqn:E1; try reflexivity.
    apply bytes_eqb_eq in E1, E2. subst. exfalso. apply Hk. now left.
  - rewrite IH1 by exact Hnd. apply IH2.
    apply (Permutation_NoDup (l := map fst h1)); [now apply Permutation_map | exact Hnd].
Qed.

Section ReportFacts.

Variable errorsAs : error -> option (option openaiError).
Variable StatusText : Z -> bytes.
Variable errorText : error -> bytes.

Lemma formatResponseBody_newline (apiErr : option openaiError) :
  HasSuffix (fst (formatResponseBody errorText apiErr)) [x0a] = true.
Proof.
  assert (He : forall a b : bytes, HasSuffix (a ++ b ++ [x0a]) [x0a] = true)
    by (intros a b; rewrite app_assoc; apply HasSuffix_self).
  unfold formatResponseBody.
  destruct apiErr as [a|]; [|apply He].
  destruct (oe_Response a) as [r|]; [|apply He].
  destruct (hr_Body r) as [b|]; [|apply He].
  unfold readResponseBody.
  destruct (rc_readErr b) as [e|].
  { cbn [fst]. rewrite !app_assoc. apply HasSuffix_self. }
  destruct (rc_closeErr b) as [e|].
  { cbn [fst]. rewrite !app_assoc. apply HasSuffix_self. }
  destruct (isEmpty (rc_data b)); [apply He|].
  destruct (HasSuffix (rc_data b) [x0a]) eqn:E; cbn [negb fst].
  - now apply HasSuffix_app_r.
  - apply He.
Qed.

(** The error [formatOpenAIAPIError] returns always wraps the error it
    was given, and a nil error stays nil.  For an error of the SDK the
    text before the wrapped error is the report, unchanged: the report
    starts with the label line and always ends with a line feed, so the
    line feed the function would add is never needed. *)
Theorem formatOpenAIAPIError_wraps (context : bytes) (err : error) :
  formatOpenAIAPIError errorsAs StatusText errorText context None = None
  /\ match errorsAs err with
     | None =>
         formatOpenAIAPIError errorsAs StatusText errorText context (Some err)
         = Some (if isEmpty context then err else wrapError (context ++ bs ": ") err)
     | Some apiErr =>
         let detail := fst (buildOpenAIAPIErrorDetail StatusText errorText context apiErr) in
         formatOpenAIAPIError errorsAs StatusText errorText context (Some err)
         = Some (wrapError detail err)
         /\ HasSuffix detail [x0a] = true
         /\ HasPrefix detail (resolveOpenAIErrorLabel context ++ [x0a]) = true
     end.
Proof.
  split; [reflexivity|]. unfold formatOpenAIAPIError.
  destruct (errorsAs err) as [apiErr|]; [|reflexivity].
  assert (Hs : HasSuffix (fst (buildOpenAIAPIErrorDetail StatusText errorText context apiErr))
                         [x0a] = true).
  { unfold buildOpenAIAPIErrorDetail.
    pose proof (formatResponseBody_newline apiErr) as H.
    destruct (formatResponseBody errorText apiErr) as [body apiErr']. cbn [fst] in *.
    now repeat apply HasSuffix_app_r. }
  cbv zeta. rewrite Hs. split; [reflexivity|]. split; [reflexivity|].
  unfold buildOpenAIAPIErrorDetail.
  destruct (formatResponseBody errorText apiErr) as [body apiErr']. cbn [fst].
  apply HasPrefix_self.
Qed.

(** The header section of the report does not depend on the order in
    which the header map is visited. *)
Theorem formatHeaders_order_independent (h1 h2 : httpHeader) :
  Permutation h1 h2 -> NoDup (map fst h1) ->
  formatHeaders h1 = formatHeaders h2.
Proof.
  intros Hp Hnd. unfold formatHeaders.
  destruct h1 as [|e1 h1], h2 as [|e2 h2].
  - reflexivity.
  - now apply Permutation_nil_cons in Hp.
  - symmetry in Hp. now apply Permutation_nil_cons in Hp.
  - rewrite (sortStrings_order (map fst (e1 :: h1)) (map fst (e2 :: h2)))
      by now apply Permutation_map.
    f_equal. apply flat_map_ext. intro key.
    now rewrite (headerValues_order (e1 :: h1) (e2 :: h2) key Hp Hnd).
Qed.

(** Reporting the body keeps it readable: when the body was read and
    closed without error, the error value is left with a fresh reader
    over the bytes read, and a second report of the body gives the same
    text and leaves the same value.  Every report ends with a line feed. *)
Theorem formatResponseBody_rereadable (apiErr : option openaiError) :
  let r := formatResponseBody errorText apiErr in
  HasSuffix (fst r) [x0a] = true
  /\ forall a resp b,
       apiErr = Some a -> oe_Response a = Some resp -> hr_Body resp = Some b ->
       rc_readErr b = None -> rc_closeErr b = None ->
       snd r = Some {| oe_StatusCode := oe_StatusCode a;
                       oe_Response := Some {| hr_Header := hr_Header resp;
                                              hr_Body := Some (NopCloser (rc_data b)) |} |}
       /\ formatResponseBody errorText (snd r) = r.
Proof.
  intro r. subst r. split; [apply formatResponseBody_newline|].
  intros a resp b -> Hr Hb He Hc.
  unfold formatResponseBody, readResponseBody. rewrite Hr, Hb, He, Hc. cbn [oe_Response].
  destruct (isEmpty (rc_data b)) eqn:E1; cbn [snd oe_Response hr_Body NopCloser rc_readErr
                                                 rc_closeErr rc_data oe_StatusCode hr_Header];
    rewrite ?E1; [split; reflexivity|].
  destruct (HasSuffix (rc_data b) [x0a]) eqn:E2;
    cbn [negb snd oe_Response hr_Body NopCloser rc_readErr rc_closeErr rc_data
              oe_StatusCode hr_Header];
    rewrite ?E1, ?E2; split; reflexivity.
Qed.

End ReportFacts.

Lemma formatHeaders_order_independent_witness :
  (Permutation [(bs "Retry-After", [bs "3"]); (bs "Content-Type", [bs "text/plain"])]
               [(bs "Content-Type", [bs "text/plain"]); (bs "Retry-After", [bs "3"])]
   /\ NoDup (map fst [(bs "Retry-After", [bs "3"]); (bs "Content-Type", [bs "text/plain"])]))
  /\ formatHeaders [(bs "Retry-After", [bs "3"]); (bs "Content-Type", [bs "text/plain"])]
     = formatHeaders [(bs "Content-Type", [bs "text/plain"]); (bs "Retry-After", [bs "3"])].
Proof.
  assert (Hp : Permutation
                 [(bs "Retry-After", [bs "3"]); (bs "Content-Type", [bs "text/plain"])]
                 [(bs "Content-Type", [bs "text/plain"]); (bs "Retry-After", [bs "3"])])
    by apply perm_swap.
  assert (Hn : NoDup (map fst [(bs "Retry-After", [bs "3"]);
                               (bs "Content-Type", [bs "text/plain"])])).
  { simpl. constructor; [|constructor; [|constructor]]; simpl; intuition discriminate. }
  split; [split; assumption|].
  exact (formatHeaders_order_independent _ _ Hp Hn).
Defined.

(** A report: the keys in order, one line per value. *)
Example formatHeaders_sorted :
  formatHeaders [(bs "Retry-After", [bs "3"]); (bs "Content-Type", [bs "text/plain"])]
  = bs "headers:" ++ [x0a] ++ bs "  Content-Type: text/plain" ++ [x0a]
       ++ bs "  Retry-After: 3" ++ [x0a].
Proof. vm_compute. reflexivity. Qed.

(* ===================================================================== *)
(** ** The OpenAI constructor and the functional options                 *)
(* ===================================================================== *)

(** The client [NewOpenAI] builds: the API key is used exactly when it
    is not blank, and then as configured, surrounding white space
    included, both as the SDK's key and as the [X-Api-Key] header; a base
    URL is set exactly when the configured one is not blank, and it always
    ends in [/v1]; the browser user agent is always set. *)
Theorem NewOpenAI_options (cfg : ProviderConfig) :
  (forall key, In (WithAPIKey key) (NewOpenAI cfg) ->
               key = APIKey cfg /\ TrimSpace key <> [])
  /\ (TrimSpace (APIKey cfg) <> [] ->
      In (WithAPIKey (APIKey cfg)) (NewOpenAI cfg)
      /\ In (WithHeader (bs "X-Api-Key") (APIKey cfg)) (NewOpenAI cfg))
  /\ (forall b, In (WithBaseURL b) (NewOpenAI cfg) ->
                HasSuffix b (bs "/v1") = true /\ TrimSpace (BaseURL cfg) <> [])
  /\ (TrimSpace (BaseURL cfg) <> [] -> exists b, In (WithBaseURL b) (NewOpenAI cfg))
  /\ In (WithHeader (bs "User-Agent") browserUserAgent) (NewOpenAI cfg).
Proof.
  unfold NewOpenAI.
  set (b := TrimRight (TrimSpace (BaseURL cfg)) (bs "/")).
  set (b' := if negb (HasSuffix b (bs "/v1")) then b ++ bs "/v1" else b).
  assert (Hb : HasSuffix b' (bs "/v1") = true).
  { subst b'. destruct (HasSuffix b (bs "/v1")) eqn:E; cbn [negb];
      [exact E | apply HasSuffix_self]. }
  clearbody b'. clear b.
  split; [|split; [|split; [|split]]].
  - intros key H.
    destruct (TrimSpace (APIKey cfg)) eqn:Ek, (TrimSpace (BaseURL cfg));
      cbn [isEmpty negb app In] in H;
      intuition (try discriminate; try congruence).
  - intro H.
    destruct (TrimSpace (APIKey cfg)) eqn:Ek, (TrimSpace (BaseURL cfg));
      cbn [isEmpty negb app In]; intuition (try discriminate; try congruence).
  - intros x H.
    destruct (TrimSpace (APIKey cfg)), (TrimSpace (BaseURL cfg));
      cbn [isEmpty negb app In] in H;
      intuition (try discriminate; try congruence).
  - intro H.
    destruct (TrimSpace (APIKey cfg)), (TrimSpace (BaseURL cfg));
      cbn [isEmpty negb app In]; try congruence; exists b'; intuition.
  - destruct (TrimSpace (APIKey cfg)), (TrimSpace (BaseURL cfg));
      cbn [isEmpty negb app In]; intuition.
Qed.

Section FunctionalOptionFacts.

Variable St : Type.

(** [WithOptions] read key by key: an entry of the map given wins, and
    every other key keeps the value the options had. *)
Theorem WithOptions_lookup (m : list (bytes * any)) (c : ChatOptions St) (k : bytes) :
  NoDup (map fst m) ->
  mapGet (Options (WithOptions m c)) k
  = match mapGet m k with
    | Some v => Some v
    | None => mapGet (Options c) k
    end.
Proof.
  intro Hnd. unfold WithOptions. destruct m as [|e m]; [reflexivity|].
  unfold setOptions. cbn [Options]. now apply mapGet_copy.
Qed.

Lemma provided_required (f : Option St) (c : ChatOptions St) :
  provided f -> Model (f c) = Model c /\ Prompt (f c) = Prompt c.
Proof.
  intro H. destruct H; try (split; reflexivity).
  unfold WithOptions. destruct m; split; reflexivity.
Qed.

(** No option of the package touches the required fields: options built
    by [NewChatOptions] from the package's options carry the model and
    the prompt given, and nil options are skipped. *)
Theorem NewChatOptions_required (model prompt : bytes) (fns : list (option (Option St))) :
  Forall (fun fn => match fn with Some f => provided f | None => True end) fns ->
  Model (NewChatOptions model prompt fns) = model
  /\ Prompt (NewChatOptions model prompt fns) = prompt.
Proof.
  intro H. unfold NewChatOptions.
  set (co := {| Model := model; Prompt := prompt; SystemPrompt := [];
                Stream := false; Think := false;
                Temperature := {| f64bits := 0 |}; TopP := {| f64bits := 0 |};
                Format := []; NoResponseFormat := false; Images := []; Options := [];
                OnDelta := None |}).
  assert (Hco : Model co = model /\ Prompt co = prompt) by (split; reflexivity).
  clearbody co. revert co Hco.
  induction H as [|fn fns Hfn _ IH]; intros co Hco; simpl; [exact Hco|].
  apply IH. destruct fn as [f|]; [|exact Hco].
  destruct (provided_required f co Hfn) as [Hm Hp]. rewrite Hm, Hp. exact Hco.
Qed.

End FunctionalOptionFacts.

Lemma WithOptions_lookup_witness :
  NoDup (map fst [(bs "top_k", anyInt 40); (bs "seed", anyInt 7)])
  /\ mapGet (Options (WithOptions [(bs "top_k", anyInt 40); (bs "seed", anyInt 7)]
                                  (WithExtraOption (bs "top_k") (anyInt 5) Sample.suppressed)))
            (bs "top_k")
     = Some (anyInt 40).
Proof.
  assert (H : NoDup (map fst [(bs "top_k", anyInt 40); (bs "seed", anyInt 7)])).
  { simpl. constructor; [|constructor; [|constructor]]; simpl; intuition discriminate. }
  split; [exact H|].
  exact (WithOptions_lookup (list bytes) [(bs "top_k", anyInt 40); (bs "seed", anyInt 7)]
           (WithExtraOption (bs "top_k") (anyInt 5) Sample.suppressed) (bs "top_k") H).
Defined.

Lemma NewChatOptions_required_witness :
  Forall (fun fn : option (Option (list bytes)) =>
            match fn with Some f => provided f | None => True end)
         [Some (WithStream true); None; Some (WithOptions [(bs "top_k", anyInt 40)])]
  /\ Model (@NewChatOptions (list bytes) (bs "m") (bs "describe")
              [Some (WithStream true); None; Some (WithOptions [(bs "top_k", anyInt 40)])])
     = bs "m"
  /\ Prompt (@NewChatOptions (list bytes) (bs "m") (bs "describe")
               [Some (WithStream true); None; Some (WithOptions [(bs "top_k", anyInt 40)])])
     = bs "describe".
Proof.
  assert (H : Forall (fun fn : option (Option (list bytes)) =>
                        match fn with Some f => provided f | None => True end)
                     [Some (WithStream true); None;
                      Some (WithOptions [(bs "top_k", anyInt 40)])]).
  { repeat constructor. }
  split; [exact H|].
  exact (NewChatOptions_required (list bytes) (bs "m") (bs "describe") _ H).
Defined.

(* ===================================================================== *)
(** ** Boxes: clamping and the exported box                              *)
(* ===================================================================== *)

Section BoxFacts.

Variable Decimal : Type.
Variable NewFromString : bytes -> Decimal.
Variable NewFromInt : Z -> Decimal.
Variable Mul : Decimal -> Decimal -> Decimal.
Variable Div : Decimal -> Decimal -> Decimal.
Variable IntPart : Decimal -> Z.

Local Open Scope Z_scope.

(** [Clamp] is the projection on the interval: its result lies in
    [lo..hi], and no point of the interval is nearer to [v]; a value
    inside the interval is returned as it is. *)
Theorem Clamp_nearest (v lo hi : Z) :
  lo <= hi ->
  lo <= Clamp v lo hi <= hi
  /\ (lo <= v <= hi -> Clamp v lo hi = v)
  /\ forall w, lo <= w <= hi -> Z.abs (Clamp v lo hi - v) <= Z.abs (w - v).
Proof.
  intro H. unfold Clamp.
  destruct (Z.ltb_spec v lo); [|destruct (Z.gtb_spec v hi)];
    (split; [lia|]; split; [lia|]; intros w Hw; lia).
Qed.

Lemma Clamp_inside (v lo hi : Z) : lo <= v <= hi -> Clamp v lo hi = v.
Proof.
  intro H. unfold Clamp.
  destruct (Z.ltb_spec v lo); [lia|]. destruct (Z.gtb_spec v hi); lia.
Qed.

(** The box [runCmd] exports for an image that is not empty lies in the
    image, with its corners in order, whatever the model returned. *)
Theorem exportBox_in_image (x1 y1 x2 y2 : Z) (bounds : Rectangle) :
  inInt (MinX bounds) -> inInt (MinY bounds) ->
  inInt (MaxX bounds) -> inInt (MaxY bounds) ->
  MinX bounds < MaxX bounds -> MinY bounds < MaxY bounds ->
  let '(a, b, c, d) := exportBox x1 y1 x2 y2 bounds in
  MinX bounds <= a /\ a <= c /\ c < MaxX bounds
  /\ MinY bounds <= b /\ b <= d /\ d < MaxY bounds.
Proof.
  intros Hx0 Hy0 Hx1 Hy1 Hx Hy. unfold exportBox. rewrite !swap_orders.
  rewrite !wrapInt_inInt by (unfold inInt, minInt, maxInt in *; lia).
  pose proof (Clamp_bounds (Z.min x1 x2) (MinX bounds) (MaxX bounds - 1)).
  pose proof (Clamp_bounds (Z.max x1 x2) (MinX bounds) (MaxX bounds - 1)).
  pose proof (Clamp_bounds (Z.min y1 y2) (MinY bounds) (MaxY bounds - 1)).
  pose proof (Clamp_bounds (Z.max y1 y2) (MinY bounds) (MaxY bounds - 1)).
  pose proof (Clamp_mono (Z.min x1 x2) (Z.max x1 x2) (MinX bounds) (MaxX bounds - 1)).
  pose proof (Clamp_mono (Z.min y1 y2) (Z.max y1 y2) (MinY bounds) (MaxY bounds - 1)).
  lia.
Qed.

(** A box that [DenormalizeBbox] returned for the size of an image at the
    origin is exported as it is: ordering and clamping it again changes
    nothing. *)
Theorem exportBox_DenormalizeBbox
        (x1s y1s x2s y2s : bytes) (width height scale : Z) :
  inInt width -> inInt height ->
  1 <= width -> 1 <= height -> scale <> 0 ->
  match DenormalizeBbox NewFromString NewFromInt Mul Div IntPart
                        x1s y1s x2s y2s width height scale with
  | Some (x1, y1, x2, y2) =>
      exportBox x1 y1 x2 y2 {| MinX := 0; MinY := 0; MaxX := width; MaxY := height |}
      = (x1, y1, x2, y2)
  | None => False
  end.
Proof.
  intros Hw Hh Hw1 Hh1 Hs. unfold DenormalizeBbox.
  destruct (Z.eqb_spec scale 0) as [E|_]; [contradiction|].
  set (sc := scaled NewFromString NewFromInt Mul Div IntPart).
  rewrite !swap_orders.
  assert (Ew : wrapInt (width - 1) = width - 1)
    by (apply wrapInt_inInt; unfold inInt, minInt, maxInt in *; lia).
  assert (Eh : wrapInt (height - 1) = height - 1)
    by (apply wrapInt_inInt; unfold inInt, minInt, maxInt in *; lia).
  rewrite Ew, Eh.
  destruct (Z.ltb_spec (width - 1) 0) as [?|_]; [lia|].
  destruct (Z.ltb_spec (height - 1) 0) as [?|_]; [lia|].
  pose proof (Clamp_bounds (Z.min (sc x1s width scale) (sc x2s width scale)) 0 (width - 1)).
  pose proof (Clamp_bounds (Z.max (sc x1s width scale) (sc x2s width scale)) 0 (width - 1)).
  pose proof (Clamp_bounds (Z.min (sc y1s height scale) (sc y2s height scale)) 0 (height - 1)).
  pose proof (Clamp_bounds (Z.max (sc y1s height scale) (sc y2s height scale)) 0 (height - 1)).
  pose proof (Clamp_mono (Z.min (sc x1s width scale) (sc x2s width scale))
                         (Z.max (sc x1s width scale) (sc x2s width scale)) 0 (width - 1)).
  pose proof (Clamp_mono (Z.min (sc y1s height scale) (sc y2s height scale))
                         (Z.max (sc y1s height scale) (sc y2s height scale)) 0 (height - 1)).
  set (a := Clamp (Z.min (sc x1s width scale) (sc x2s width scale)) 0 (width - 1)) in *.
  set (c := Clamp (Z.max (sc x1s width scale) (sc x2s width scale)) 0 (width - 1)) in *.
  set (b := Clamp (Z.min (sc y1s height scale) (sc y2s height scale)) 0 (height - 1)) in *.
  set (d := Clamp (Z.max (sc y1s height scale) (sc y2s height scale)) 0 (height - 1)) in *.
  clearbody a b c d.
  unfold exportBox. cbn [MinX MinY MaxX MaxY]. rewrite Ew, Eh, !swap_orders.
  rewrite (Z.min_l a c), (Z.max_r a c), (Z.min_l b d), (Z.max_r b d) by lia.
  rewrite !Clamp_inside by lia. reflexivity.
Qed.

End BoxFacts.

Lemma Clamp_nearest_witness :
  (0 <= 9)%Z
  /\ (0 <= Clamp 12 0 9 <= 9)%Z
  /\ ((0 <= 12 <= 9)%Z -> Clamp 12 0 9 = 12%Z)
  /\ forall w, (0 <= w <= 9)%Z -> (Z.abs (Clamp 12 0 9 - 12) <= Z.abs (w - 12))%Z.
Proof.
  split; [lia|]. apply (Clamp_nearest 12 0 9). lia.
Defined.

Lemma exportBox_in_image_witness :
  (inInt 0 /\ inInt 0 /\ inInt 640 /\ inInt 480 /\ (0 < 640)%Z /\ (0 < 480)%Z)
  /\ let '(a, b, c, d) :=
       exportBox 700 (-5) 100 20 {| MinX := 0; MinY := 0; MaxX := 640; MaxY := 480 |} in
     (0 <= a /\ a <= c /\ c < 640 /\ 0 <= b /\ b <= d /\ d < 480)%Z.
Proof.
  split; [unfold inInt, minInt, maxInt; lia|].
  apply (exportBox_in_image 700 (-5) 100 20
           {| MinX := 0; MinY := 0; MaxX := 640; MaxY := 480 |});
    simpl; unfold inInt, minInt, maxInt; lia.
Defined.

Lemma exportBox_DenormalizeBbox_witness :
  (inInt 1000 /\ inInt 500 /\ (1 <= 1000)%Z /\ (1 <= 500)%Z /\ 1000%Z <> 0%Z)
  /\ match Sample.denormalize (bs "800") (bs "300") (bs "200") (bs "100") 1000 500 1000 with
     | Some (x1, y1, x2, y2) =>
         exportBox x1 y1 x2 y2 {| MinX := 0; MinY := 0; MaxX := 1000; MaxY := 500 |}
         = (x1, y1, x2, y2)
     | None => False
     end.
Proof.
  split; [unfold inInt, minInt, maxInt; lia|].
  apply (exportBox_DenormalizeBbox Sample.fraction Sample.parseInt Sample.fromInt Sample.mul
           Sample.div Sample.intPart (bs "800") (bs "300") (bs "200") (bs "100")
           1000 500 1000); unfold inInt, minInt, maxInt; lia.
Defined.

(* ===================================================================== *)
(** ** Colours                                                           *)
(* ===================================================================== *)

Section ColourFacts.

Local Open Scope Z_scope.

(** A digit of [ParseUint] below the base is a hexadecimal digit. *)
Lemma digitVal_hex (c : byte) :
  match digitVal c with
  | Some d => if d >=? 16 then isHexDigit c = false
              else isHexDigit c = true /\ 0 <= d /\ d < 16
  | None => isHexDigit c = false
  end.
Proof. destruct c; cbv; intuition discriminate. Qed.

Lemma hexToByte_pair (a b : byte) :
  hexToByte [a; b]
  = if isHexDigit a && isHexDigit b
    then match digitVal a, digitVal b with
         | Some x, Some y => Some (x * 16 + y)
         | _, _ => None
         end
    else None.
Proof.
  unfold hexToByte, parseUintLoop.
  pose proof (digitVal_hex a) as Ha. pose proof (digitVal_hex b) as Hb.
  destruct (digitVal a) as [x|]; [|now rewrite Ha].
  destruct (x >=? 16); [now rewrite Ha|]. destruct Ha as (-> & Hx0 & Hx1).
  destruct (Z.gtb_spec (0 * 16 + x) 255); [lia|].
  destruct (digitVal b) as [y|]; [|now rewrite Hb].
  destruct (y >=? 16); [now rewrite Hb|]. destruct Hb as (-> & Hy0 & Hy1).
  destruct (Z.gtb_spec ((0 * 16 + x) * 16 + y) 255); [lia|].
  simpl. f_equal; lia.
Qed.

(** Two bytes parse exactly when both are hexadecimal digits, and then
    to a byte value. *)
Lemma hexToByte_pair_spec (a b : byte) :
  (isHexDigit a = true /\ isHexDigit b = true
   /\ exists v, hexToByte [a; b] = Some v /\ 0 <= v <= 255)
  \/ (hexToByte [a; b] = None /\ (isHexDigit a = false \/ isHexDigit b = false)).
Proof.
  rewrite hexToByte_pair.
  pose proof (digitVal_hex a) as Ha. pose proof (digitVal_hex b) as Hb.
  destruct (digitVal a) as [x|].
  - destruct (x >=? 16); [right; rewrite Ha; auto|]. destruct Ha as (Ha & Hx0 & Hx1).
    destruct (digitVal b) as [y|].
    + destruct (y >=? 16); [right; rewrite Hb, andb_false_r; auto|].
      destruct Hb as (Hb & Hy0 & Hy1). left. rewrite Ha, Hb.
      split; [reflexivity|]. split; [reflexivity|]. eexists. split; [reflexivity | lia].
    + right. rewrite Hb, andb_false_r. auto.
  - right. rewrite Ha. auto.
Qed.

Ltac hexDigits H :=
  cbn [forallb] in H;
  repeat (let X := fresh "Hd" in apply andb_prop in H as [X H]).

Ltac rejectHex Hf :=
  split;
  [ split;
    [ let c := fresh "c" in let H := fresh "H" in intros [c H]; discriminate H
    | let HL := fresh "HL" in let HF := fresh "HF" in
      intros [HL HF]; hexDigits HF; destruct Hf; congruence ]
  | discriminate ].

Ltac rejectLength :=
  split;
  [ split;
    [ let c := fresh "c" in let H := fresh "H" in intros [c H]; discriminate H
    | let HL := fresh "HL" in let HF := fresh "HF" in
      intros [HL HF]; destruct HL as [HL|HL]; discriminate HL ]
  | discriminate ].

(** [parseHexColor] accepts exactly the strings that, once surrounding
    white space and one leading [#] are removed, are six or eight
    hexadecimal digits; the components it returns are byte values, and
    the colour is opaque when six digits are given. *)
Theorem parseHexColor_accepts (s : bytes) :
  let t := TrimPrefix (TrimSpace s) (bs "#") in
  ((exists c, parseHexColor s = Some c)
   <-> (length t = 6%nat \/ length t = 8%nat) /\ forallb isHexDigit t = true)
  /\ forall c, parseHexColor s = Some c ->
               0 <= color.R c <= 255 /\ 0 <= color.G c <= 255
               /\ 0 <= color.B c <= 255 /\ 0 <= color.A c <= 255
               /\ (length t = 6%nat -> color.A c = 255).
Proof.
  intro t. unfold parseHexColor. fold t.
  destruct (isEmpty (TrimSpace s)) eqn:Es.
  { apply isEmpty_nil in Es. subst t. rewrite Es. rejectLength. }
  destruct t as [|c1 [|c2 [|c3 [|c4 [|c5 [|c6 t6]]]]]]; try rejectLength.
  destruct t6 as [|c7 [|c8 [|c9 t9]]]; try rejectLength;
    cbn [length Nat.eqb negb andb slice firstn skipn Nat.sub];
    (destruct (hexToByte_pair_spec c1 c2) as [(H1 & H2 & r & Hr & Rr)|(Hn & Hf)];
     [rewrite Hr | rewrite Hn; rejectHex Hf]);
    (destruct (hexToByte_pair_spec c3 c4) as [(H3 & H4 & g & Hg & Rg)|(Hn & Hf)];
     [rewrite Hg | rewrite Hn; rejectHex Hf]);
    (destruct (hexToByte_pair_spec c5 c6) as [(H5 & H6 & b & Hb & Rb)|(Hn & Hf)];
     [rewrite Hb | rewrite Hn; rejectHex Hf]).
  - (* six digits *)
    split.
    + split; [intros _ | intros _; eauto].
      split; [now left|]. cbn [forallb]. now rewrite H1, H2, H3, H4, H5, H6.
    + intros c H. injection H as <-. cbn [color.R color.G color.B color.A]. lia.
  - (* eight digits *)
    destruct (hexToByte_pair_spec c7 c8) as [(H7 & H8 & a & Ha & Ra)|(Hn & Hf)];
      [rewrite Ha | rewrite Hn; rejectHex Hf].
    split.
    + split; [intros _ | intros _; eauto].
      split; [now right|]. cbn [forallb]. now rewrite H1, H2, H3, H4, H5, H6, H7, H8.
    + intros c H. injection H as <-. cbn [color.R color.G color.B color.A].
      repeat split; lia.
Qed.

End ColourFacts.

Section ColourRoundTrip.

Local Open Scope Z_scope.

Lemma trimLeftSpace_plain (c : byte) (r : bytes) :
  plain c = true -> trimLeftSpace (c :: r) = c :: r.
Proof. destruct c; intro H; try discriminate H; reflexivity. Qed.

Lemma trimRightSpaceRev_plain (c : byte) (r : bytes) :
  plain c = true -> trimRightSpaceRev (c :: r) = c :: r.
Proof.
  destruct c; intro H; try discriminate H;
    destruct r as [|d [|e r2]]; simpl;
    rewrite ?andb_false_r; simpl; rewrite ?andb_false_r; reflexivity.
Qed.

(** A string that starts and ends with plain bytes has no white space
    to trim. *)
Lemma TrimSpace_plain (s : bytes) :
  plain (hd x20 s) = true -> plain (last s x20) = true -> TrimSpace s = s.
Proof.
  destruct s as [|c s']; [discriminate|]. intros Hc Hl. cbn [hd] in Hc.
  unfold TrimSpace. rewrite trimLeftSpace_plain by assumption.
  assert (Hne : c :: s' <> []) by discriminate.
  assert (E : rev (c :: s') = last (c :: s') x20 :: rev (removelast (c :: s'))).
  { rewrite (app_removelast_last x20 Hne) at 1. now rewrite rev_app_distr. }
  rewrite E, trimRightSpaceRev_plain by assumption. rewrite <- E. apply rev_involutive.
Qed.

Lemma upperhex_plain (n : N) :
  plain (upperhex n) = true /\ Byte.eqb (upperhex n) "#" = false.
Proof.
  unfold upperhex. generalize (N.to_nat n). intro k.
  do 17 (destruct k as [|k]; [split; reflexivity|]). split; reflexivity.
Qed.

Lemma hexToByte_hex2 (v : Z) : 0 <= v <= 255 -> hexToByte (hex2 v) = Some v.
Proof.
  intro Hv.
  assert (H : forallb (fun n => match hexToByte (hex2 (Z.of_nat n)) with
                                | Some w => w =? Z.of_nat n
                                | None => false
                                end) (seq 0 256) = true) by (vm_compute; reflexivity).
  rewrite forallb_forall in H. specialize (H (Z.to_nat v)).
  rewrite Z2Nat.id in H by lia.
  assert (Hin : In (Z.to_nat v) (seq 0 256)) by (apply in_seq; lia).
  specialize (H Hin). destruct (hexToByte (hex2 v)) as [w|]; [|discriminate].
  apply Z.eqb_eq in H. now subst.
Qed.

(** Writing a colour in hexadecimal and parsing it gives the colour
    back: six digits with or without the leading [#] give the opaque
    colour, eight digits give the colour with its alpha. *)
Theorem parseHexColor_roundtrip (r g b a : Z) :
  0 <= r <= 255 -> 0 <= g <= 255 -> 0 <= b <= 255 -> 0 <= a <= 255 ->
  parseHexColor (bs "#" ++ hex2 r ++ hex2 g ++ hex2 b)
  = Some {| color.R := r; color.G := g; color.B := b; color.A := 255 |}
  /\ parseHexColor (hex2 r ++ hex2 g ++ hex2 b)
     = Some {| color.R := r; color.G := g; color.B := b; color.A := 255 |}
  /\ parseHexColor (bs "#" ++ hex2 r ++ hex2 g ++ hex2 b ++ hex2 a)
     = Some {| color.R := r; color.G := g; color.B := b; color.A := a |}.
Proof.
  intros Hr Hg Hb Ha.
  pose proof (hexToByte_hex2 r Hr) as Er. pose proof (hexToByte_hex2 g Hg) as Eg.
  pose proof (hexToByte_hex2 b Hb) as Eb. pose proof (hexToByte_hex2 a Ha) as Ea.
  unfold hex2 in *.
  destruct (upperhex_plain (Z.to_N r / 16)) as [Pr Nr].
  destruct (upperhex_plain (Z.to_N b mod 16)) as [Pb _].
  destruct (upperhex_plain (Z.to_N a mod 16)) as [Pa _].
  set (r1 := upperhex (Z.to_N r / 16)) in *. set (r2 := upperhex (Z.to_N r mod 16)) in *.
  set (g1 := upperhex (Z.to_N g / 16)) in *. set (g2 := upperhex (Z.to_N g mod 16)) in *.
  set (b1 := upperhex (Z.to_N b / 16)) in *. set (b2 := upperhex (Z.to_N b mod 16)) in *.
  set (a1 := upperhex (Z.to_N a / 16)) in *. set (a2 := upperhex (Z.to_N a mod 16)) in *.
  clearbody r1 r2 g1 g2 b1 b2 a1 a2.
  change (bs "#") with ["#"%byte].
  split; [|split]; unfold parseHexColor; change (bs "#") with ["#"%byte]; cbn [app];
    rewrite TrimSpace_plain by (cbn [hd last]; first [assumption | reflexivity]);
    unfold TrimPrefix; cbn [HasPrefix];
    rewrite ?Nr, ?byte_eqb_refl;
    cbn [isEmpty andb length skipn firstn slice Nat.eqb negb Nat.sub];
    now rewrite ?Er, ?Eg, ?Eb, ?Ea.
Qed.

Lemma paletteAt_all :
  forallb (fun n => match paletteAt (Z.of_nat n) with
                    | Some (Some _) => true
                    | _ => false
                    end) (seq 0 20) = true.
Proof. vm_compute. reflexivity. Qed.

(** Every entry of the default palette parses, so an index that is not
    negative always gets a colour, and the palette repeats every twenty
    indices. *)
Theorem colorFromPaletteIndex_total (i : Z) :
  0 <= i ->
  (exists c, colorFromPaletteIndex i = Some (Some c))
  /\ colorFromPaletteIndex (i + 20) = colorFromPaletteIndex i.
Proof.
  intro Hi. unfold colorFromPaletteIndex.
  change (Z.of_nat (length defaultColorsHex)) with 20.
  change (20 =? 0) with false. cbv iota.
  rewrite !Z.rem_mod_nonneg by lia.
  replace ((i + 20) mod 20) with (i mod 20)
    by (symmetry; apply (Z_mod_plus_full i 1 20)).
  split; [|reflexivity].
  pose proof (Z.mod_pos_bound i 20 ltac:(lia)) as Hk.
  pose proof paletteAt_all as H. rewrite forallb_forall in H.
  specialize (H (Z.to_nat (i mod 20))). rewrite Z2Nat.id in H by lia.
  assert (Hin : In (Z.to_nat (i mod 20)) (seq 0 20)) by (apply in_seq; lia).
  specialize (H Hin). destruct (paletteAt (i mod 20)) as [[c|]|]; try discriminate. eauto.
Qed.

Lemma wrapInt_add_l (a b : Z) : wrapInt (wrapInt a + b) = wrapInt (a + b).
Proof.
  unfold wrapInt. f_equal.
  replace ((a + 2 ^ 63) mod 2 ^ 64 - 2 ^ 63 + b + 2 ^ 63) with ((a + 2 ^ 63) mod 2 ^ 64 + b)
    by lia.
  rewrite Zplus_mod_idemp_l. f_equal. lia.
Qed.

(** The hash is the sum of the bytes, reduced to an [int]. *)
Lemma hash_sum (s : bytes) :
  forall a : Z,
    fold_left (fun sum c => wrapInt (sum + Z.of_N (Byte.to_N c))) s (wrapInt a)
    = wrapInt (a + fold_right (fun c acc => Z.of_N (Byte.to_N c) + acc) 0 s).
Proof.
  induction s as [|c s IH]; intro a; simpl.
  - now rewrite Z.add_0_r.
  - rewrite wrapInt_add_l, IH. f_equal. lia.
Qed.

Lemma sum_order (s1 s2 : bytes) :
  Permutation s1 s2 ->
  fold_right (fun c acc => Z.of_N (Byte.to_N c) + acc) 0 s1
  = fold_right (fun c acc => Z.of_N (Byte.to_N c) + acc) 0 s2.
Proof. induction 1; simpl; lia. Qed.

(** The colour of a label outside the classes depends only on the bytes
    of the label, not on their order: anagrams get the same colour. *)
Theorem colorFromPaletteHash_anagram (s1 s2 : bytes) :
  Permutation s1 s2 -> colorFromPaletteHash s1 = colorFromPaletteHash s2.
Proof.
  intro Hp. unfold colorFromPaletteHash.
  change 0 with (wrapInt 0) at 2 4.
  now rewrite !hash_sum, (sum_order s1 s2 Hp).
Qed.

End ColourRoundTrip.

Lemma parseHexColor_roundtrip_witness :
  ((0 <= 255 <= 255)%Z /\ (0 <= 105 <= 255)%Z /\ (0 <= 180 <= 255)%Z /\ (0 <= 200 <= 255)%Z)
  /\ parseHexColor (bs "#FF69B4C8")
     = Some {| color.R := 255; color.G := 105; color.B := 180; color.A := 200 |}.
Proof.
  split; [lia|].
  refine (proj2 (proj2 (parseHexColor_roundtrip 255 105 180 200 _ _ _ _))); lia.
Defined.

Lemma colorFromPaletteIndex_total_witness :
  (0 <= 23)%Z
  /\ (exists c, colorFromPaletteIndex 23 = Some (Some c))
  /\ colorFromPaletteIndex (23 + 20) = colorFromPaletteIndex 23.
Proof.
  split; [lia|]. apply (colorFromPaletteIndex_total 23). lia.
Defined.

Lemma colorFromPaletteHash_anagram_witness :
  Permutation (bs "cat") (bs "act")
  /\ colorFromPaletteHash (bs "cat") = colorFromPaletteHash (bs "act").
Proof.
  assert (H : Permutation (bs "cat") (bs "act")) by apply perm_swap.
  split; [exact H|]. exact (colorFromPaletteHash_anagram _ _ H).
Defined.

(** The fourth palette entry, gold. *)
Example colorFromPaletteIndex_gold :
  colorFromPaletteIndex 3
  = Some (Some {| color.R := 255; color.G := 215; color.B := 0; color.A := 255 |}).
Proof. vm_compute. reflexivity. Qed.

(* ===================================================================== *)
(** ** Drawing                                                           *)
(* ===================================================================== *)

Lemma In_rangeZ (lo hi v : Z) : In v (rangeZ lo hi) <-> (lo <= v <= hi)%Z.
Proof.
  unfold rangeZ. rewrite in_map_iff. split.
  - intros [i [<- Hi]]. apply in_seq in Hi. lia.
  - intro H. exists (Z.to_nat (v - lo)). split; [lia|]. apply in_seq. lia.
Qed.

Section DrawingFacts.

Variable Color : Type.
Variable Pixel : Type.
Variable convert : Color -> Pixel.

Local Open Scope Z_scope.

Local Notation RGBAImage := (RGBAImage Pixel).
Local Notation painted := (painted convert).

Lemma painted_refl (img : RGBAImage) (c : Color) : painted img img c (fun _ _ => False).
Proof. split; [reflexivity|]. intros x y. split; [tauto | reflexivity]. Qed.

Lemma painted_ext (img0 img : RGBAImage) (c : Color) (S S' : Z -> Z -> Prop) :
  (forall x y, S x y <-> S' x y) -> painted img0 img c S -> painted img0 img c S'.
Proof.
  intros He [Hr Hp]. split; [exact Hr|]. intros x y. specialize (Hp x y).
  specialize (He x y). split; intro H; apply Hp; tauto.
Qed.

Lemma painted_set (img0 img : RGBAImage) (c : Color) (S : Z -> Z -> Prop) (x y : Z) :
  painted img0 img c S ->
  painted img0 (set convert img c x y) c (fun x' y' => S x' y' \/ (x' = x /\ y' = y)).
Proof.
  intros [Hr Hp]. unfold set. rewrite Hr.
  destruct ((x <? MinX (Rect img0)) || (x >=? MaxX (Rect img0))
            || (y <? MinY (Rect img0)) || (y >=? MaxY (Rect img0))) eqn:E.
  - assert (Hout : ~ inRect (Rect img0) x y).
    { unfold inRect. rewrite !orb_true_iff in E.
      rewrite !Z.ltb_lt, !Z.geb_le in E. lia. }
    split; [exact Hr|]. intros x' y'. specialize (Hp x' y'). split; intro H.
    + apply Hp. destruct H as [Hin [Hs|[-> ->]]]; [tauto | contradiction].
    + apply Hp. tauto.
  - assert (Hin : inRect (Rect img0) x y).
    { unfold inRect. rewrite !orb_false_iff in E.
      rewrite !Z.ltb_ge in E. destruct E as [[[E1 E2] E3] E4].
      rewrite Z.geb_leb, Z.leb_gt in E2, E4. lia. }
    split; [reflexivity|]. intros x' y'. specialize (Hp x' y'). cbn [Pix].
    destruct (Z.eqb_spec x' x) as [->|Nx]; [destruct (Z.eqb_spec y' y) as [->|Ny]|];
      cbn [andb]; split; intro H; try reflexivity; try (apply Hp; tauto).
    exfalso. apply H. tauto.
Qed.

Lemma painted_row (img0 : RGBAImage) (c : Color) (ya yb : Z) (xs : list Z) :
  forall (img : RGBAImage) (S : Z -> Z -> Prop),
    painted img0 img c S ->
    painted img0
            (fold_left (fun img x => set convert (set convert img c x ya) c x yb) xs img) c
            (fun x' y' => S x' y' \/ (In x' xs /\ (y' = ya \/ y' = yb))).
Proof.
  induction xs as [|x xs IH]; intros img S Hp; simpl.
  - revert Hp. apply painted_ext. intros; tauto.
  - apply (painted_set _ _ _ _ x ya), (painted_set _ _ _ _ x yb), IH in Hp.
    revert Hp. apply painted_ext. intros x' y'. split; intro H.
    + destruct H as [[[H|[-> ->]]|[-> ->]]|H]; tauto.
    + destruct H as [H|[[<-|H] [->| ->]]]; tauto.
Qed.

Lemma painted_column (img0 : RGBAImage) (c : Color) (xa xb : Z) (ys : list Z) :
  forall (img : RGBAImage) (S : Z -> Z -> Prop),
    painted img0 img c S ->
    painted img0
            (fold_left (fun img y => set convert (set convert img c xa y) c xb y) ys img) c
            (fun x' y' => S x' y' \/ (In y' ys /\ (x' = xa \/ x' = xb))).
Proof.
  induction ys as [|y ys IH]; intros img S Hp; simpl.
  - revert Hp. apply painted_ext. intros; tauto.
  - apply (painted_set _ _ _ _ xa y), (painted_set _ _ _ _ xb y), IH in Hp.
    revert Hp. apply painted_ext. intros x' y'. split; intro H.
    + destruct H as [[[H|[-> ->]]|[-> ->]]|H]; tauto.
    + destruct H as [H|[[<-|H] [->| ->]]]; tauto.
Qed.

Lemma painted_frames (img0 : RGBAImage) (c : Color) (x1 y1 x2 y2 : Z) (ts : list Z) :
  forall (img : RGBAImage) (S : Z -> Z -> Prop),
    painted img0 img c S ->
    painted img0
      (fold_left
         (fun img t =>
            let img :=
              fold_left
                (fun img x => set convert (set convert img c x (wrapInt (y1 + t)))
                                  c x (wrapInt (y2 - t)))
                (rangeZ x1 x2) img in
            fold_left
              (fun img y => set convert (set convert img c (wrapInt (x1 + t)) y)
                                c (wrapInt (x2 - t)) y)
              (rangeZ y1 y2) img)
         ts img) c
      (fun x y =>
         S x y
         \/ exists t, In t ts
                      /\ ((x1 <= x <= x2 /\ (y = wrapInt (y1 + t) \/ y = wrapInt (y2 - t)))
                          \/ (y1 <= y <= y2
                              /\ (x = wrapInt (x1 + t) \/ x = wrapInt (x2 - t))))).
Proof.
  induction ts as [|t ts IH]; intros img S Hp; simpl.
  - revert Hp. apply painted_ext. intros x y. split; [tauto | intros [H|[t [[] _]]]; exact H].
  - apply (painted_row img0 c (wrapInt (y1 + t)) (wrapInt (y2 - t)) (rangeZ x1 x2)) in Hp.
    apply (painted_column img0 c (wrapInt (x1 + t)) (wrapInt (x2 - t)) (rangeZ y1 y2)) in Hp.
    apply IH in Hp. revert Hp. apply painted_ext. intros x y.
    rewrite !In_rangeZ. split; intro H.
    + destruct H as [[[H|H]|H]|[t' [Ht H]]]; [tauto | | | ].
      * right. exists t. tauto.
      * right. exists t. tauto.
      * right. exists t'. tauto.
    + destruct H as [H|[t' [[<-|Ht] H]]]; [tauto | tauto |].
      right. exists t'. tauto.
Qed.

(** [DrawRect] returns when its upper bounds are below the largest
    [int], and paints exactly the outline: a point of the image on one of
    the [thickness] nested rectangles gets the colour, converted to the
    pixel format; every other pixel, and the bounds, stay as they were,
    so nothing is written outside the image. *)
Theorem DrawRect_pixels
        (img : RGBAImage) (x1 y1 x2 y2 : Z) (c : Color) (thickness : Z) :
  x2 < maxInt -> y2 < maxInt ->
  exists img',
    DrawRect convert img x1 y1 x2 y2 c thickness = Some img'
    /\ Rect img' = Rect img
    /\ forall x y,
         (inRect (Rect img) x y /\ onOutline x1 y1 x2 y2 thickness x y ->
          Pix img' x y = convert c)
         /\ (~ (inRect (Rect img) x y /\ onOutline x1 y1 x2 y2 thickness x y) ->
             Pix img' x y = Pix img x y).
Proof.
  intros Hx Hy. unfold DrawRect.
  destruct (Z.eqb_spec x2 maxInt) as [E|_]; [lia|].
  destruct (Z.eqb_spec y2 maxInt) as [E|_]; [lia|].
  rewrite !andb_false_r. cbn [orb andb]. eexists. split; [reflexivity|].
  pose proof (painted_frames img c x1 y1 x2 y2 (rangeZ 0 (thickness - 1)) img _
                (painted_refl img c)) as Hp.
  apply (painted_ext _ _ _ _ (onOutline x1 y1 x2 y2 thickness)) in Hp.
  - exact Hp.
  - intros x y. unfold onOutline. split.
    + intros [[]|[t [Ht H]]]. apply In_rangeZ in Ht. exists t. split; [lia | exact H].
    + intros [t [Ht H]]. right. exists t. split; [apply In_rangeZ; lia | exact H].
Qed.

End DrawingFacts.

Lemma DrawRect_pixels_witness :
  ((7 < maxInt)%Z /\ (5 < maxInt)%Z)
  /\ exists img',
       DrawRect (fun c : bool => c)
                {| Rect := {| MinX := 0; MinY := 0; MaxX := 6; MaxY := 6 |};
                   Pix := fun _ _ => false |}
                2 1 7 5 true 1 = Some img'
       /\ Rect img' = {| MinX := 0; MinY := 0; MaxX := 6; MaxY := 6 |}
       /\ forall x y,
            (inRect {| MinX := 0; MinY := 0; MaxX := 6; MaxY := 6 |} x y
             /\ onOutline 2 1 7 5 1 x y -> Pix img' x y = true)
            /\ (~ (inRect {| MinX := 0; MinY := 0; MaxX := 6; MaxY := 6 |} x y
                   /\ onOutline 2 1 7 5 1 x y) -> Pix img' x y = false).
Proof.
  split; [unfold maxInt; lia|].
  apply (DrawRect_pixels bool bool (fun c => c)
           {| Rect := {| MinX := 0; MinY := 0; MaxX := 6; MaxY := 6 |};
              Pix := fun _ _ => false |} 2 1 7 5 true 1); unfold maxInt; lia.
Defined.

(** A box that reaches over the right edge: the corner inside the image
    is painted, the interior and the pixels left of the box are not. *)
Example DrawRect_clipped :
  match DrawRect (fun c : bool => c)
                 {| Rect := {| MinX := 0; MinY := 0; MaxX := 6; MaxY := 6 |};
                    Pix := fun _ _ => false |}
                 2 1 7 5 true 1 with
  | Some img' => (Pix img' 2 1, Pix img' 5 5, Pix img' 3 3, Pix img' 1 1)
                 = (true, true, false, false)
  | None => False
  end.
Proof. vm_compute. reflexivity. Qed.

(* ===================================================================== *)
(** ** The Ollama client                                                 *)
(* ===================================================================== *)

Section OllamaFacts.

Variable St : Type.
Variable P : Platform.

Lemma apiDeliver_respFunc (opts : ChatOptions St) (resps : list apiChatResponse) (s : St) :
  apiDeliver resps (respFunc opts) s
  = deliverPairs (map (fun r => (msg_Content (api_Message r), msg_Thinking (api_Message r)))
                      resps)
                 (onDeltaOrNoop (OnDelta opts)) s.
Proof.
  revert s. induction resps as [|r resps IH]; intro s; [reflexivity|].
  simpl. unfold bind, respFunc, call.
  destruct (onDeltaOrNoop (OnDelta opts) _ _ s) as [[e|] s1]; [reflexivity|].
  now rewrite IH.
Qed.

(** The Ollama client hands the request to the SDK once and passes the
    content and the thinking of every response to the callback, as they
    are (empty ones included), in order, up to the first call that fails.
    A failed call gives the result; otherwise the result is the SDK's.
    Without a client nothing is sent and [ErrNilClient] is returned. *)
Theorem Ollama_Chat_delivers (o : option Ollama) (opts : ChatOptions St) (s : St) :
  let req := ollamaRequest opts in
  let d := deliverPairs
             (map (fun r => (msg_Content (api_Message r), msg_Thinking (api_Message r)))
                  (fst (ollamaServe P req)))
             (onDeltaOrNoop (OnDelta opts)) s in
  Ollama_Chat P o opts s
  = match o with
    | Some {| o_client := Some _ |} =>
        (match fst (fst d) with
         | Some e => Some e
         | None => snd (ollamaServe P req)
         end,
         snd (fst d), EvOllamaChat req :: snd d)
    | _ => (Some ErrNilClient, s, [])
    end.
Proof.
  intros req d. subst req d. unfold Ollama_Chat.
  destruct o as [[[cl|]]|]; try reflexivity.
  cbn [o_client]. unfold apiClient_Chat, bind, emit. rewrite apiDeliver_respFunc.
  destruct (deliverPairs _ (onDeltaOrNoop (OnDelta opts)) s) as [[[e|] s1] t1];
    simpl; now rewrite app_nil_r.
Qed.

End OllamaFacts.

(* ===================================================================== *)
(** ** Image files                                                       *)
(* ===================================================================== *)

Lemma extScan_element (name rest acc : bytes) :
  ~ In "/"%byte name ->
  extScan (name ++ "/"%byte :: rest) acc = extScan name acc.
Proof.
  revert acc. induction name as [|c name IH]; intros acc Hn; simpl; [reflexivity|].
  destruct (Byte.eqb c "/") eqn:E1; [reflexivity|].
  destruct (Byte.eqb c "."); [reflexivity|].
  apply IH. intro H. apply Hn. now right.
Qed.

(** Only the last element of a path counts: the directories before it,
    whatever dots their names hold, do not make a file an image file, nor
    keep it from being one. *)
Theorem IsImageFile_last_element (P : Platform) (dir name : bytes) :
  ~ In "/"%byte name ->
  Ext (dir ++ bs "/" ++ name) = Ext name
  /\ IsImageFile P (dir ++ bs "/" ++ name) = IsImageFile P name.
Proof.
  intro Hn.
  assert (E : Ext (dir ++ bs "/" ++ name) = Ext name).
  { unfold Ext. change (bs "/") with ["/"%byte].
    rewrite !rev_app_distr. cbn [rev app]. rewrite <- app_assoc. cbn [app].
    apply extScan_element. intro H. apply Hn. now apply in_rev. }
  split; [exact E|]. unfold IsImageFile. now rewrite E.
Qed.

Lemma IsImageFile_last_element_witness :
  ~ In "/"%byte (bs "notes")
  /\ Ext (bs "shots.png" ++ bs "/" ++ bs "notes") = Ext (bs "notes")
  /\ IsImageFile Sample.platform (bs "shots.png" ++ bs "/" ++ bs "notes")
     = IsImageFile Sample.platform (bs "notes").
Proof.
  assert (H : ~ In "/"%byte (bs "notes")) by (simpl; intuition discriminate).
  split; [exact H|].
  exact (IsImageFile_last_element Sample.platform (bs "shots.png") (bs "notes") H).
Defined.

(** The extension is taken from the last dot of the last element. *)
Example Ext_last_dot : Ext (bs "in.d/cat.tar.PNG") = bs ".PNG".
Proof. vm_compute. reflexivity. Qed.

(* ===================================================================== *)
(** ** Colours of labels                                                 *)
(* ===================================================================== *)

Section LabelColourFacts.

Variable P : Platform.

Local Open Scope Z_scope.

(** An index into the palette gives one of its colours. *)
Lemma paletteAt_in (k : Z) :
  0 <= k < 20 ->
  exists c, paletteAt k = Some (Some c)
            /\ In (Some c) (map parseHexColor defaultColorsHex).
Proof.
  intro Hk.
  pose proof paletteAt_all as H. rewrite forallb_forall in H.
  specialize (H (Z.to_nat k)). rewrite Z2Nat.id in H by lia.
  assert (Hin : In (Z.to_nat k) (seq 0 20)) by (apply in_seq; lia).
  specialize (H Hin). unfold paletteAt in *.
  destruct (k <? 0); [discriminate|].
  destruct (nth_error defaultColorsHex (Z.to_nat k)) as [hex|] eqn:E; [|discriminate].
  destruct (parseHexColor hex) as [c|] eqn:Ec; [|discriminate].
  exists c. split; [reflexivity|]. rewrite <- Ec. apply in_map.
  now apply nth_error_In in E.
Qed.

Lemma sum_bound (s : bytes) :
  0 <= fold_right (fun c acc => Z.of_N (Byte.to_N c) + acc) 0 s <= 255 * Z.of_nat (length s).
Proof.
  induction s as [|c s IH]; simpl length; simpl fold_right; [lia|].
  assert (Hc : (Byte.to_N c <= 255)%N) by apply Byte.to_N_bounded.
  lia.
Qed.

Lemma colorFromPaletteHash_in (s : bytes) :
  Z.of_nat (length s) < 2 ^ 55 ->
  exists c, colorFromPaletteHash s = Some (Some c)
            /\ In (Some c) (map parseHexColor defaultColorsHex).
Proof.
  intro Hl. unfold colorFromPaletteHash.
  change (Z.of_nat (length defaultColorsHex)) with 20.
  change (20 =? 0) with false. cbv iota.
  change 0 with (wrapInt 0) at 1. rewrite hash_sum.
  pose proof (sum_bound s) as Hs. rewrite wrapInt_inInt
    by (unfold inInt, minInt, maxInt; lia).
  rewrite Z.rem_mod_nonneg by lia.
  apply paletteAt_in. apply Z.mod_pos_bound. lia.
Qed.

Lemma colorFromPaletteIndex_in (i : Z) :
  0 <= i ->
  exists c, colorFromPaletteIndex i = Some (Some c)
            /\ In (Some c) (map parseHexColor defaultColorsHex).
Proof.
  intro Hi. unfold colorFromPaletteIndex.
  change (Z.of_nat (length defaultColorsHex)) with 20.
  change (20 =? 0) with false. cbv iota.
  rewrite Z.rem_mod_nonneg by lia.
  apply paletteAt_in. apply Z.mod_pos_bound. lia.
Qed.

Lemma classLoop_palette (lower : bytes) (colors classes : list bytes) :
  Z.of_nat (length lower) < 2 ^ 55 ->
  forall i, 0 <= i ->
    exists c, classLoop P lower colors classes i = Some c
              /\ ((exists j, colorFromColorsAt P colors j = Some c)
                  \/ In (Some c) (map parseHexColor defaultColorsHex)).
Proof.
  intro Hl. induction classes as [|cl classes IH]; intros i Hi; simpl.
  - destruct (colorFromPaletteHash_in lower Hl) as (c & -> & Hin). eauto.
  - destruct (negb (bytes_eqb (ToLower P (TrimSpace cl)) lower)); [apply IH; lia|].
    destruct (colorFromColorsAt P colors i) as [c|] eqn:E; [eauto|].
    destruct (colorFromPaletteIndex_in i Hi) as (c & -> & Hin). eauto.
Qed.

(** [colorForLabel] always finds a colour: white for a blank label, and
    for any other label a colour the user configured or one of the
    twenty palette colours; the white fallbacks after the palette lookups
    are never taken, and no lookup fails. *)
Theorem colorForLabel_palette (label : bytes) (classes colors : list bytes) :
  Z.of_nat (length (ToLower P (TrimSpace label))) < 2 ^ 55 ->
  exists c,
    colorForLabel P label classes colors = Some c
    /\ (TrimSpace label = [] -> c = white)
    /\ (TrimSpace label <> [] ->
        (exists j, colorFromColorsAt P colors j = Some c)
        \/ In (Some c) (map parseHexColor defaultColorsHex)).
Proof.
  intro Hl. unfold colorForLabel.
  destruct (TrimSpace label) as [|b t] eqn:Et; cbn [isEmpty].
  - exists white. split; [reflexivity|]. split; [reflexivity | congruence].
  - destruct (classLoop_palette _ colors classes Hl 0 ltac:(lia)) as (c & Hc & Hin).
    exists c. split; [exact Hc|]. split; [discriminate | intros _; exact Hin].
Qed.

End LabelColourFacts.

Lemma colorForLabel_palette_witness :
  (Z.of_nat (length (ToLower Sample.platform (TrimSpace (bs " cat ")))) < 2 ^ 55)%Z
  /\ exists c,
       colorForLabel Sample.platform (bs " cat ") [bs "dog"; bs "cat"] [bs "red"] = Some c
       /\ (TrimSpace (bs " cat ") = [] -> c = white)
       /\ (TrimSpace (bs " cat ") <> [] ->
           (exists j, colorFromColorsAt Sample.platform [bs "red"] j = Some c)
           \/ In (Some c) (map parseHexColor defaultColorsHex)).
Proof.
  split; [vm_compute; reflexivity|].
  apply (colorForLabel_palette Sample.platform (bs " cat ") [bs "dog"; bs "cat"] [bs "red"]).
  vm_compute. reflexivity.
Defined.

(** The second class without a colour of its own takes the second
    palette entry. *)
Example colorForLabel_second_class :
  colorForLabel Sample.platform (bs " cat ") [bs "dog"; bs "cat"] [bs "red"]
  = Some (rgb 255 0 0).
Proof. vm_compute. reflexivity. Qed.
